(** * ecs-down: the drainable-instance selector and the batch scale-down
    orchestrator of package [downscaler], embedded in Rocq.

    The Go code talks to three AWS services (ECS, the Auto Scaling service
    and EC2).  Their answers are not under the program's control, so the
    embedding takes them from a [ControlPlane]: one answer function per SDK
    operation, each of which sees everything that happened before.  The
    program itself is written in a small monad that threads the list of
    events of the run (SDK calls and printed lines, oldest first) and
    distinguishes a returned Go [error] from a run-time panic and from a
    loop that has not finished within the given number of iterations. *)

From Stdlib Require Import ZArith List String Permutation Sorted Lia.
From stdpp Require Import gmap strings list sorting pretty.

#[local] Set Warnings "-clear-no-such-hyp".

Open Scope string_scope.
Open Scope list_scope.
Open Scope Z_scope.

(** ** Machine integers *)

(** [int] and [int64] are 64-bit two's complement: results of [+] and [-]
    wrap around. *)
Definition wrap64 (z : Z) : Z := (z + 2 ^ 63) mod 2 ^ 64 - 2 ^ 63.
Definition add64 (a b : Z) : Z := wrap64 (a + b).
Definition sub64 (a b : Z) : Z := wrap64 (a - b).
Definition int64_range (z : Z) : Prop := - 2 ^ 63 <= z < 2 ^ 63.

(** [len(s)] as an [int]. *)
Definition len {A} (l : list A) : Z := Z.of_nat (length l).

(** ** SDK data *)

(** [aws.StringValue], [aws.Int64Value]: the zero value for a nil pointer. *)
Definition StringValue (s : option string) : string := default "" s.
Definition Int64Value (z : option Z) : Z := default 0 z.

(** The fields of the SDK structures that the package reads.  A pointer
    field that may be nil is an [option]; [time.Time] is an instant on the
    integer time line. *)
Record Cluster := { ActiveServicesCount : option Z }.
Record Service := { SvcDesiredCount : option Z }.
Record ContainerInstance := {
  ContainerInstanceArn : option string;
  Ec2InstanceId : option string }.
Record Instance := { InstanceId : option string; LaunchTime : option Z }.
Record Reservation := { Instances : list Instance }.
Record Group := { DesiredCapacity : option Z }.

Record ListContainerInstancesOutput := {
  ContainerInstanceArns : list string;
  ListNextToken : option string }.
Record DescribeInstancesOutput := {
  Reservations : list Reservation;
  DescNextToken : option string }.

(** ** Configuration (struct [Config]) *)

Record Config := {
  Service_ : string;
  Cluster_ : string;
  ASG : string;
  DesiredCount : Z;
  BatchSize : Z;
  InstanceType : string;
  Region : string;
  InstanceFlip : bool;
  SortByAge : bool;
  TaskCountDetect : bool;
  AllowASGMismatch : bool;
  AgentVersionThreshold : string }.

(** ** Errors *)

(** The Go [error] values of the package.  [ErrAPI] is an error handed back
    by the SDK; every other constructor is built by the package itself, and
    carries the operands of its format string. *)
Inductive error :=
| ErrAPI (msg : string)
| ErrWrap (cause : error) (msg : string)
| ErrClusterCount (cluster : string) (found : Z)
| ErrNilActiveServices (cluster : string)
| ErrServiceCount (service : string) (found : Z)
| ErrInsufficient (desired running : Z)
| ErrAgeEmpty (arn : string)
| ErrNoRoom (drainable : Z)
| ErrMismatchNotAllowed (serviceDesired asgDesired : Z)
| ErrNoASG.

(** ** Events of a run *)

(** One SDK request.  The two [...Pages] operations are one event each,
    whatever the number of pages they fetch. *)
Inductive Call :=
| DescribeClusters (clusters : list string)
| DescribeServices (cluster : string) (services : list string)
| UpdateService (cluster service : string) (forceNewDeployment : bool)
    (desiredCount : Z)
| WaitUntilServicesStable (cluster : string) (services : list string)
| ListContainerInstancesPages (cluster : string) (filter : option string)
| DescribeContainerInstances (cluster : string) (arns : list string)
| DescribeInstancesPages (instanceIds : list string)
| UpdateContainerInstancesState (cluster : string) (arns : list string)
    (status : string)
| UpdateAutoScalingGroup (name : string) (minSize desiredCapacity : Z)
    (maxSize : option Z)
| WaitUntilGroupInService (names : list string)
| TerminateInstanceInAutoScalingGroup (instanceId : option string)
    (shouldDecrementDesiredCapacity : bool)
| WaitUntilInstanceTerminated (instanceIds : list (option string))
| DescribeAutoScalingGroups (names : list string).

(** One line written by [fmt.Printf], [fmt.Println] or [log.Print*]. *)
Inductive Output :=
| OutFinding (query : string)
| OutAdded (filter : string) (added skipped : Z)
| OutFound (n : Z)
| OutStars
| OutTab (s : string)
| LogError (e : error)
| LogReturning (originalTaskCount : Z)
| LogSuccess
| LogWarnMismatch (serviceDesired asgDesired instanceDesired : Z)
| LogDraining
| LogScalingECS (desiredCount : Z)
| LogScalingASG (instanceDesired : Z)
| LogTerminating.

Inductive Event :=
| EvCall (c : Call)
| EvOut (o : Output).

#[global] Instance error_eq_dec : EqDecision error.
Proof. solve_decision. Defined.
#[global] Instance Call_eq_dec : EqDecision Call.
Proof. solve_decision. Defined.
#[global] Instance Output_eq_dec : EqDecision Output.
Proof. solve_decision. Defined.
#[global] Instance Event_eq_dec : EqDecision Event.
Proof. solve_decision. Defined.

Definition State := list Event.

(** ** The control plane *)

(** The answer of the SDK to each operation, given the events so far.  An
    SDK error is represented by its message.  A paginated operation answers
    with the pages it could fetch, in order, and the error of the fetch
    after the last of them, if that fetch failed. *)
Record ControlPlane := {
  cpDescribeClusters : State -> list string -> string + list Cluster;
  cpDescribeServices : State -> string -> list string -> string + list Service;
  cpUpdateService : State -> string -> string -> bool -> Z -> string + Service;
  cpWaitUntilServicesStable : State -> string -> list string -> option string;
  cpListContainerInstances :
    State -> string -> option string ->
    list ListContainerInstancesOutput * option string;
  cpDescribeContainerInstances :
    State -> string -> list string -> string + list ContainerInstance;
  cpDescribeInstances :
    State -> list string -> list DescribeInstancesOutput * option string;
  cpUpdateContainerInstancesState :
    State -> string -> list string -> string -> string + list ContainerInstance;
  cpUpdateAutoScalingGroup :
    State -> string -> Z -> Z -> option Z -> option string;
  cpWaitUntilGroupInService : State -> list string -> option string;
  cpTerminateInstance : State -> option string -> bool -> option string;
  cpWaitUntilInstanceTerminated : State -> list (option string) -> option string;
  cpDescribeAutoScalingGroups : State -> list string -> string + list Group }.

(** ** The monad of the package *)

Inductive outcome (A : Type) :=
| Ok (a : A)
| Err (e : error)
| Panic
| Unfinished.
Arguments Ok {A} a.
Arguments Err {A} e.
Arguments Panic {A}.
Arguments Unfinished {A}.

Definition M (A : Type) : Type := State -> outcome A * State.

Definition ret {A} (a : A) : M A := fun st => (Ok a, st).
Definition fail {A} (e : error) : M A := fun st => (Err e, st).
Definition panic {A} : M A := fun st => (Panic, st).
Definition unfinished {A} : M A := fun st => (Unfinished, st).

Definition bind {A B} (m : M A) (f : A -> M B) : M B :=
  fun st =>
    match m st with
    | (Ok a, st') => f a st'
    | (Err e, st') => (Err e, st')
    | (Panic, st') => (Panic, st')
    | (Unfinished, st') => (Unfinished, st')
    end.

Notation "x <- m ;; f" := (bind m (fun x => f))
  (at level 100, m at next level, right associativity).
Notation "m ;;; f" := (bind m (fun _ => f))
  (at level 100, right associativity).

Definition emit (ev : Event) : M unit := fun st => (Ok tt, st ++ [ev]).
Definition out (o : Output) : M unit := emit (EvOut o).

(** A request that answers with a value or an error. *)
Definition request {A} (c : Call) (answer : State -> string + A) : M A :=
  fun st =>
    match answer st with
    | inl e => (Err (ErrAPI e), st ++ [EvCall c])
    | inr a => (Ok a, st ++ [EvCall c])
    end.

(** A request that answers with an error or nothing. *)
Definition request_ (c : Call) (answer : State -> option string) : M unit :=
  fun st =>
    match answer st with
    | Some e => (Err (ErrAPI e), st ++ [EvCall c])
    | None => (Ok tt, st ++ [EvCall c])
    end.

(** The SDK's page iteration: [fn] is called on each fetched page in turn
    and stops the iteration by returning [false].  The result tells whether
    every fetched page was consumed with [fn] asking for more. *)
Fixpoint eachPage {P S} (fn : S -> P -> S * bool) (pages : list P) (s : S)
  : S * bool :=
  match pages with
  | [] => (s, true)
  | p :: ps =>
      let '(s', more) := fn s p in
      if more then eachPage fn ps s' else (s', false)
  end.

(** A paginated request: the error of the failed fetch is returned only
    when the iteration got that far. *)
Definition requestPages {P S} (c : Call)
    (answer : State -> list P * option string)
    (fn : S -> P -> S * bool) (s : S) : M S :=
  fun st =>
    let '(pages, err) := answer st in
    let '(s', exhausted) := eachPage fn pages s in
    match (if exhausted then err else None) with
    | Some e => (Err (ErrAPI e), st ++ [EvCall c])
    | None => (Ok s', st ++ [EvCall c])
    end.

(** [for _, x := range l { body }] where the body may return early. *)
Fixpoint forEach {A} (l : list A) (body : A -> M unit) : M unit :=
  match l with
  | [] => ret tt
  | x :: l' => body x ;;; forEach l' body
  end.

(** The same loop with the variables it assigns passed along. *)
Fixpoint foldM {A S} (body : S -> A -> M S) (l : list A) (s : S) : M S :=
  match l with
  | [] => ret s
  | x :: l' => s' <- body s x ;; foldM body l' s'
  end.

(** [errors.Wrap(err, msg)] on the error of a call. *)
Definition wrapErr {A} (msg : string) (m : M A) : M A :=
  fun st =>
    match m st with
    | (Err e, st') => (Err (ErrWrap e msg), st')
    | r => r
    end.

(** [s[lo:hi]]: a run-time panic unless [0 <= lo <= hi <= len(s)].  (Go
    lets [hi] reach into the spare capacity of [s]; the package never
    relies on that, and the embedding reports it as a panic.) *)
Definition slice {A} (s : list A) (lo hi : Z) : M (list A) :=
  if (0 <=? lo) && (lo <=? hi) && (hi <=? len s)
  then ret (take (Z.to_nat (hi - lo)) (drop (Z.to_nat lo) s))
  else panic.

(** [*p] for a pointer that may be nil. *)
Definition deref {A} (p : option A) : M A :=
  match p with
  | Some a => ret a
  | None => panic
  end.

(** ** ecs.go *)

(** [paginateStringArray(items, n)]: consecutive chunks of [n] items, the
    last one possibly shorter.  The package calls it with [n = 100] and
    [n = 200]; the step [n] is positive. *)
Fixpoint paginateFrom (fuel : nat) (items : list string) (n : nat)
  : list (list string) :=
  match fuel, items with
  | O, _ => []
  | _, [] => []
  | S fuel', _ => take n items :: paginateFrom fuel' (drop n items) n
  end.

Definition paginateStringArray (items : list string) (n : nat)
  : list (list string) :=
  paginateFrom (length items) items n.

(** The variables captured by the page callback of [findInstances]:
    [seen], [arns] and [skipped]. *)
Record PageAcc := {
  accSeen : gset string;
  accArns : list string;
  accSkipped : Z }.

(** The body of the callback's loop over one page. *)
Definition visitArn (acc : PageAcc) (arn : string) : PageAcc :=
  if decide (arn ∈ accSeen acc)
  then {| accSeen := accSeen acc;
          accArns := accArns acc;
          accSkipped := add64 (accSkipped acc) 1 |}
  else {| accSeen := {[arn]} ∪ accSeen acc;
          accArns := accArns acc ++ [arn];
          accSkipped := accSkipped acc |}.

Definition visitPage (acc : PageAcc) (page : ListContainerInstancesOutput)
  : PageAcc * bool :=
  (foldl visitArn acc (ContainerInstanceArns page),
   bool_decide (ListNextToken page ≠ None)).

(** The maps built by [sortECSContainersByInstanceAge] before it sorts. *)
Record IdMaps := {
  containerArnToEc2ID : gmap string string;
  ec2IDToContainerArn : gmap string string;
  ec2IDs : list string }.

Definition recordInstance (m : IdMaps) (instance : ContainerInstance) : IdMaps :=
  let ec2ID := StringValue (Ec2InstanceId instance) in
  let containerArn := StringValue (ContainerInstanceArn instance) in
  {| containerArnToEc2ID := <[containerArn := ec2ID]> (containerArnToEc2ID m);
     ec2IDToContainerArn := <[ec2ID := containerArn]> (ec2IDToContainerArn m);
     ec2IDs := ec2IDs m ++ [ec2ID] |}.

(** [containerArnToInstanceAge]: a stored nil and a missing key read alike. *)
Definition ageOf (ages : gmap string (option Z)) (arn : string) : option Z :=
  default None (ages !! arn).

Definition recordLaunch (ids : gmap string string)
    (ages : gmap string (option Z)) (instance : Instance)
  : gmap string (option Z) :=
  let containerArn := default "" (ids !! StringValue (InstanceId instance)) in
  <[containerArn := LaunchTime instance]> ages.

Definition visitReservations (ids : gmap string string)
    (ages : gmap string (option Z)) (page : DescribeInstancesOutput)
  : gmap string (option Z) * bool :=
  (foldl (fun ages res => foldl (recordLaunch ids) ages (Instances res))
         ages (Reservations page),
   bool_decide (DescNextToken page ≠ None)).

(** The comparison function handed to [sort.Slice], on the two elements
    found at the compared positions. *)
Definition lessByAge (ages : gmap string (option Z)) (a b : string) : bool :=
  match ageOf ages a, ageOf ages b with
  | Some ti, Some tj => ti <? tj
  | _, _ => false
  end.

(** The error the same comparison assigns to [err] (and logs), if any. *)
Definition compareError (ages : gmap string (option Z)) (c : string * string)
  : option error :=
  match ageOf ages (fst c), ageOf ages (snd c) with
  | None, _ => Some (ErrAgeEmpty (fst c))
  | Some _, None => Some (ErrAgeEmpty (snd c))
  | Some _, Some _ => None
  end.

Section Downscaler.

(** [sort.Slice] of the Go library, which is not part of the package: it
  permutes the slice in place, deciding by calls of the comparison
  function.  It is given here by what it returns for a comparison on
  elements: the permuted slice and the pairs of elements it compared, in
  the order of the calls. *)
Variable sortSlice :
(string -> string -> bool) -> list string ->
list string * list (string * string).

Variable cp : ControlPlane.
Variable d : Config.

Definition drainAtTaskCount : M Z :=
fun st =>
  match request (DescribeClusters [Cluster_ d])
          (fun st => cpDescribeClusters cp st [Cluster_ d]) st with
  | (Err _, st') => (Ok (-1), st')
  | (Ok clusters, st') =>
      match clusters with
      | [c] =>
          match ActiveServicesCount c with
          | None => (Err (ErrNilActiveServices (Cluster_ d)), st')
          | Some count => (Ok (sub64 count 1), st')
          end
      | _ => (Err (ErrClusterCount (Cluster_ d) (len clusters)), st')
      end
  | (Panic, st') => (Panic, st')
  | (Unfinished, st') => (Unfinished, st')
  end.

Definition ecsService : M Service :=
services <- request (DescribeServices (Cluster_ d) [Service_ d])
              (fun st => cpDescribeServices cp st (Cluster_ d) [Service_ d]) ;;
match services with
| [s] => ret s
| _ => fail (ErrServiceCount (Service_ d) (len services))
end.

Definition updateECSService (desiredCount : Z) : M Service :=
let forceNewDeployment := false in
s <- request
       (UpdateService (Cluster_ d) (Service_ d) forceNewDeployment desiredCount)
       (fun st => cpUpdateService cp st (Cluster_ d) (Service_ d)
                    forceNewDeployment desiredCount) ;;
request_ (WaitUntilServicesStable (Cluster_ d) [Service_ d])
  (fun st => cpWaitUntilServicesStable cp st (Cluster_ d) [Service_ d]) ;;;
ret s.

Definition drainContainerInstances (containerInstanceARNs : list string)
: M (list ContainerInstance) :=
let draining := "DRAINING" in
request
  (UpdateContainerInstancesState (Cluster_ d) containerInstanceARNs draining)
  (fun st => cpUpdateContainerInstancesState cp st (Cluster_ d)
               containerInstanceARNs draining).

(** The first half of [sortECSContainersByInstanceAge]: the two lookups
  that resolve the launch time of each container instance. *)
Definition describeChunk (m : IdMaps) (chunk : list string) : M IdMaps :=
info <- wrapErr "cannot describe container instances"
          (request (DescribeContainerInstances (Cluster_ d) chunk)
             (fun st => cpDescribeContainerInstances cp st (Cluster_ d) chunk)) ;;
ret (foldl recordInstance m info).

Definition launchChunk (ids : gmap string string)
  (ages : gmap string (option Z)) (instanceIDs : list string)
: M (gmap string (option Z)) :=
wrapErr "cannot describe instances"
  (requestPages (DescribeInstancesPages instanceIDs)
     (fun st => cpDescribeInstances cp st instanceIDs)
     (visitReservations ids) ages).

Definition resolveLaunchTimes (containerArns : list string)
: M (gmap string (option Z)) :=
m <- foldM describeChunk (paginateStringArray containerArns 100)
       {| containerArnToEc2ID := ∅; ec2IDToContainerArn := ∅; ec2IDs := [] |} ;;
foldM (launchChunk (ec2IDToContainerArn m))
  (paginateStringArray (ec2IDs m) 200) ∅.

Definition sortECSContainersByInstanceAge (containerArns : list string)
: M (list string) :=
ages <- resolveLaunchTimes containerArns ;;
let '(work, compared) := sortSlice (lessByAge ages) containerArns in
let errs := omap (compareError ages) compared in
forEach errs (fun e => out (LogError e)) ;;;
match last errs with
| Some err => fail err
| None => ret work
end.

(** The variables of [findDrainableContainerInstances] that the closure
  [findInstances] reads and assigns. *)
Record Selection := {
allArns : list string;
seen : gset string }.

(** The listing of [findInstances]: the page callback collects, over all
  pages, the identifiers not in [seen]. *)
Definition listUnseen (filter : string) (seen0 : gset string) : M PageAcc :=
let acc0 := {| accSeen := seen0; accArns := []; accSkipped := 0 |} in
let inputFilter := if decide (filter = "") then None else Some filter in
requestPages (ListContainerInstancesPages (Cluster_ d) inputFilter)
  (fun st => cpListContainerInstances cp st (Cluster_ d) inputFilter)
  visitPage acc0.

Definition findInstances (filter : string) (sel : Selection) : M Selection :=
let initialArns := len (@nil string) in
acc <- listUnseen filter (seen sel) ;;
out (OutAdded filter (sub64 (len (accArns acc)) initialArns) (accSkipped acc)) ;;;
arns <- (if SortByAge d && (1 <? len (accArns acc))
         then sortECSContainersByInstanceAge (accArns acc)
         else ret (accArns acc)) ;;
ret {| allArns := allArns sel ++ arns; seen := accSeen acc |}.

(** The four tiers of [findDrainableContainerInstances], in the order of
  the source: instances with an old agent, instances of the matching
  type, instances running few tasks, anything left over. *)
Definition staleAgentTier (sel : Selection) : M Selection :=
if decide (AgentVersionThreshold d ≠ "")
then
  let query := "agentVersion < " +:+ AgentVersionThreshold d in
  out (OutFinding query) ;;;
  findInstances query sel
else ret sel.

Definition instanceTypeTier (sel : Selection) : M Selection :=
if decide (InstanceType d ≠ "")
then
  let instanceTypeFilter :=
    "attribute:ecs.instance-type == " +:+ InstanceType d in
  findInstances instanceTypeFilter sel
else ret sel.

Definition taskCountTier (sel : Selection) : M Selection :=
if TaskCountDetect d
then
  runningCount <- drainAtTaskCount ;;
  let taskCountFilter := "runningTasksCount <= " +:+ pretty runningCount in
  findInstances taskCountFilter sel
else ret sel.

Definition leftoverTier (sel : Selection) : M Selection :=
findInstances "" sel.

(** [findDrainableContainerInstances] up to the computation of
  [drainCount]: the merged candidates. *)
Definition mergedCandidates : M Selection :=
sel <- staleAgentTier {| allArns := []; seen := ∅ |} ;;
sel <- instanceTypeTier sel ;;
sel <- taskCountTier sel ;;
leftoverTier sel.

Definition findDrainableContainerInstances : M (list string) :=
sel <- mergedCandidates ;;
let drainCount := sub64 (len (allArns sel)) (DesiredCount d) in
if drainCount <=? 0
then fail (ErrInsufficient (DesiredCount d) (len (allArns sel)))
else slice (allArns sel) 0 drainCount.

(** ** asg.go *)

Definition updateASG (minSize : Z) (shouldSetMaxSize : bool) : M unit :=
let maxSize := if shouldSetMaxSize then Some minSize else None in
request_ (UpdateAutoScalingGroup (ASG d) minSize minSize maxSize)
  (fun st => cpUpdateAutoScalingGroup cp st (ASG d) minSize minSize maxSize) ;;;
request_ (WaitUntilGroupInService [ASG d])
  (fun st => cpWaitUntilGroupInService cp st [ASG d]).

Definition terminateContainerInstances
  (containerInstances : list ContainerInstance) : M unit :=
let decrementDesiredCapacity := false in
forEach containerInstances (fun ci =>
  request_
    (TerminateInstanceInAutoScalingGroup (Ec2InstanceId ci)
       decrementDesiredCapacity)
    (fun st => cpTerminateInstance cp st (Ec2InstanceId ci)
                 decrementDesiredCapacity)) ;;;
let instanceIDs := map Ec2InstanceId containerInstances in
request_ (WaitUntilInstanceTerminated instanceIDs)
  (fun st => cpWaitUntilInstanceTerminated cp st instanceIDs).

Definition describeASG : M Group :=
groups <- wrapErr "cannot describe ASG"
            (request (DescribeAutoScalingGroups [ASG d])
               (fun st => cpDescribeAutoScalingGroups cp st [ASG d])) ;;
match groups with
| g :: _ => ret g
| [] => fail ErrNoASG
end.

(** ** downscaler.go *)

(** [ScaleDown] up to the line of stars: the scheduler's new desired count
  and the instance group's target for this batch. *)
Definition reconcile (service : Service) (containerInstances : list string)
: M (Z * Z) :=
serviceDesired <- deref (SvcDesiredCount service) ;;
let desiredCount := sub64 serviceDesired (len containerInstances) in
let instanceDesired := desiredCount in
if negb (InstanceFlip d)
then
  asg <- describeASG ;;
  let asgDesired := Int64Value (DesiredCapacity asg) in
  if instanceDesired >? asgDesired
  then
    let instanceDesired := sub64 asgDesired (len containerInstances) in
    if negb (AllowASGMismatch d)
    then fail (ErrMismatchNotAllowed serviceDesired asgDesired)
    else
      out (LogWarnMismatch serviceDesired asgDesired instanceDesired) ;;;
      ret (desiredCount, instanceDesired)
  else ret (desiredCount, instanceDesired)
else ret (desiredCount, instanceDesired).

(** [ScaleDown] from the line of stars on: drain, scale, terminate. *)
Definition drainScaleTerminate (service : Service)
  (containerInstances : list string) (desiredCount instanceDesired : Z)
: M Service :=
out OutStars ;;;
out LogDraining ;;;
forEach containerInstances (fun ci => out (OutTab ci)) ;;;
drained <- drainContainerInstances containerInstances ;;
service <- (if desiredCount >? 0
            then
              out (LogScalingECS desiredCount) ;;;
              service <- updateECSService desiredCount ;;
              (if negb (InstanceFlip d)
               then
                 out (LogScalingASG instanceDesired) ;;;
                 updateASG instanceDesired false
               else ret tt) ;;;
              ret service
            else ret service) ;;
out LogTerminating ;;;
forEach drained (fun ci =>
  id <- deref (Ec2InstanceId ci) ;; out (OutTab id)) ;;;
terminateContainerInstances drained ;;;
ret service.

Definition ScaleDown (service : Service) (containerInstances : list string)
: M Service :=
counts <- reconcile service containerInstances ;;
drainScaleTerminate service containerInstances (fst counts) (snd counts).

(** The batch loop of [Run], from the test of its condition at [start].
  [fuel] bounds the number of iterations the embedding follows. *)
Fixpoint batchLoop (fuel : nat) (containerInstances : list string)
  (maxToRemove start : Z) (s : Service) : M Service :=
if (start <? len containerInstances) && (start <? maxToRemove)
then
  match fuel with
  | O => unfinished
  | S fuel' =>
      let end_ := add64 start (BatchSize d) in
      let end_ :=
        if end_ >? len containerInstances
        then len containerInstances else end_ in
      batch <- slice containerInstances start end_ ;;
      s <- ScaleDown s batch ;;
      batchLoop fuel' containerInstances maxToRemove
        (add64 start (BatchSize d)) s
  end
else ret s.

(** The end of [Run] in flip mode. *)
Definition restoreTaskCount (originalTaskCount : Z) : M unit :=
out (LogReturning originalTaskCount) ;;;
fun st =>
  match updateECSService originalTaskCount st with
  | (Ok _, st') => (Ok tt, st')
  | (Err err, st') => (Err err, st' ++ [EvOut LogSuccess])
  | (Panic, st') => (Panic, st')
  | (Unfinished, st') => (Unfinished, st')
  end.

Definition Run (fuel : nat) : M unit :=
containerInstances <- findDrainableContainerInstances ;;
out (OutFound (len containerInstances)) ;;;
s <- ecsService ;;
originalTaskCount <- deref (SvcDesiredCount s) ;;
let maxToRemove := sub64 originalTaskCount (DesiredCount d) in
if maxToRemove =? 0
then fail (ErrNoRoom (len containerInstances))
else
  batchLoop fuel containerInstances maxToRemove 0 s ;;;
  out OutStars ;;;
  if InstanceFlip d
  then restoreTaskCount originalTaskCount
  else updateASG (DesiredCount d) true.

End Downscaler.

(** ** main.go *)

Module Main.

(** The command-line flags after [flag.Parse], under the names of the
    variables of package [main]. *)
Record Flags := {
  service : string;
  cluster : string;
  asg : string;
  desiredCount : Z;
  batchSize : Z;
  instanceType : string;
  region : string;
  flipMode : bool;
  sortAge : bool;
  disableTaskCount : bool;
  agentVersion : string;
  mismatch : bool }.

(** How the process ends.  [log.Fatal] writes its argument to the log and
    exits with status 1: the argument is kept in [Fatal]. *)
Inductive FatalMessage :=
| MissingArgument (name : string)
| DesiredCountNotPositive
| RunError (e : error).

Inductive Exit :=
| Returned
| Fatal (msg : FatalMessage)
| Crashed
| StillRunning.

(** The [Config] literal passed to [downscaler.New]. *)
Definition configOf (f : Flags) : Config := {|
  Service_ := service f;
  Cluster_ := cluster f;
  ASG := asg f;
  DesiredCount := desiredCount f;
  BatchSize := batchSize f;
  InstanceType := instanceType f;
  Region := region f;
  InstanceFlip := flipMode f;
  SortByAge := sortAge f;
  TaskCountDetect := negb (disableTaskCount f);
  AllowASGMismatch := mismatch f;
  AgentVersionThreshold := agentVersion f |}.

(** [main] from the line after [flag.Parse].  The three clients that
    [downscaler.New] creates are the control plane [cp]. *)
Definition main sortSlice (cp : ControlPlane) (f : Flags) (fuel : nat)
  : State -> Exit * State :=
  fun st =>
    if decide (service f = "")
    then (Fatal (MissingArgument "service"), st)
    else if decide (cluster f = "")
    then (Fatal (MissingArgument "cluster"), st)
    else if decide (asg f = "")
    then (Fatal (MissingArgument "asg"), st)
    else if desiredCount f <=? 0
    then (Fatal DesiredCountNotPositive, st)
    else
      match Run sortSlice cp (configOf f) fuel st with
      | (Ok _, st') => (Returned, st')
      | (Err err, st') => (Fatal (RunError err), st')
      | (Panic, st') => (Crashed, st')
      | (Unfinished, st') => (StillRunning, st')
      end.

End Main.

(** ** The sort of the Go library on short slices *)

(** [sort.Slice] sorts a slice of at most twelve elements by insertion,
    moving each element towards the front while it compares less than its
    left neighbour.  [sortedRev] holds the part already sorted, last
    element first. *)
Fixpoint insertLeft (less : string -> string -> bool) (x : string)
    (sortedRev : list string) : list string * list (string * string) :=
  match sortedRev with
  | [] => ([x], [])
  | y :: rest =>
      if less x y
      then
        let '(rest', compared) := insertLeft less x rest in
        (y :: rest', (x, y) :: compared)
      else (x :: y :: rest, [(x, y)])
  end.

Fixpoint insertAll (less : string -> string -> bool) (items : list string)
    (sortedRev : list string) : list string * list (string * string) :=
  match items with
  | [] => (sortedRev, [])
  | x :: items' =>
      let '(sortedRev', c1) := insertLeft less x sortedRev in
      let '(result, c2) := insertAll less items' sortedRev' in
      (result, c1 ++ c2)
  end.

Definition insertionSort (less : string -> string -> bool) (data : list string)
  : list string * list (string * string) :=
  match data with
  | [] => ([], [])
  | x :: items =>
      let '(sortedRev, compared) := insertAll less items [x] in
      (rev sortedRev, compared)
  end.

(** * Example fleets *)

(** A control plane whose answers do not depend on what happened before,
    described by what it lists under each filter, how it describes the
    cluster, the desired counts of the service and of the instance group,
    the launch time of each machine, and a desired count that the scheduler
    refuses to take. *)
Record Scenario := {
  scListing : option string -> list ListContainerInstancesOutput;
  scClusters : string + list Cluster;
  scServiceDesired : Z;
  scGroupDesired : Z;
  scLaunchTime : string -> option Z;
  scRefusedCount : option Z }.

Definition machineOf (arn : string) : string := "i-" +:+ arn.

Definition containerInstanceOf (arn : string) : ContainerInstance :=
  {| ContainerInstanceArn := Some arn; Ec2InstanceId := Some (machineOf arn) |}.

Definition planeOf (sc : Scenario) : ControlPlane := {|
  cpDescribeClusters := fun _ _ => scClusters sc;
  cpDescribeServices := fun _ _ _ =>
    inr [ {| SvcDesiredCount := Some (scServiceDesired sc) |} ];
  cpUpdateService := fun _ _ _ _ n =>
    if decide (scRefusedCount sc = Some n)
    then inl "ThrottlingException"
    else inr {| SvcDesiredCount := Some n |};
  cpWaitUntilServicesStable := fun _ _ _ => None;
  cpListContainerInstances := fun _ _ filter => (scListing sc filter, None);
  cpDescribeContainerInstances := fun _ _ arns =>
    inr (map containerInstanceOf arns);
  cpDescribeInstances := fun _ ids =>
    ([ {| Reservations :=
            [ {| Instances :=
                   map (fun id => {| InstanceId := Some id;
                                     LaunchTime := scLaunchTime sc id |}) ids |} ];
          DescNextToken := None |} ], None);
  cpUpdateContainerInstancesState := fun _ _ arns _ =>
    inr (map containerInstanceOf arns);
  cpUpdateAutoScalingGroup := fun _ _ _ _ _ => None;
  cpWaitUntilGroupInService := fun _ _ => None;
  cpTerminateInstance := fun _ _ _ => None;
  cpWaitUntilInstanceTerminated := fun _ _ => None;
  cpDescribeAutoScalingGroups := fun _ _ =>
    inr [ {| DesiredCapacity := Some (scGroupDesired sc) |} ] |}.

(** Five instances: [b] runs an old agent, [c] is of the preferred type,
    [d] and [e] run few tasks, and the unfiltered listing comes in two
    pages that overlap. *)
Definition fleetListing (filter : option string)
  : list ListContainerInstancesOutput :=
  match filter with
  | None =>
      [ {| ContainerInstanceArns := ["a"; "b"]; ListNextToken := Some "2" |};
        {| ContainerInstanceArns := ["b"; "c"; "d"; "e"];
           ListNextToken := None |} ]
  | Some f =>
      if decide (f = "agentVersion < 1.39.0")
      then [ {| ContainerInstanceArns := ["b"]; ListNextToken := None |} ]
      else if decide (f = "attribute:ecs.instance-type == m5")
      then [ {| ContainerInstanceArns := ["c"]; ListNextToken := None |} ]
      else if decide (f = "runningTasksCount <= 1")
      then [ {| ContainerInstanceArns := ["d"; "c"; "e"];
                ListNextToken := None |} ]
      else []
  end.

Definition fleetLaunchTime (id : string) : option Z :=
  if decide (id = "i-a") then Some 20
  else if decide (id = "i-b") then Some 10
  else if decide (id = "i-c") then Some 40
  else if decide (id = "i-d") then Some 30
  else if decide (id = "i-e") then Some 5
  else None.

(** The fleet when the service wants [serviceDesired] tasks and the
    instance group [groupDesired] machines. *)
Definition fleetRunning (serviceDesired groupDesired : Z) : Scenario := {|
  scListing := fleetListing;
  scClusters := inr [ {| ActiveServicesCount := Some 2 |} ];
  scServiceDesired := serviceDesired;
  scGroupDesired := groupDesired;
  scLaunchTime := fleetLaunchTime;
  scRefusedCount := None |}.

Definition fleet : Scenario := fleetRunning 5 5.

(** The same fleet when the cluster cannot be described. *)
Definition fleetClusterDown : Scenario := {|
  scListing := fleetListing;
  scClusters := inl "AccessDeniedException";
  scServiceDesired := 5;
  scGroupDesired := 5;
  scLaunchTime := fleetLaunchTime;
  scRefusedCount := None |}.

(** The same fleet when the launch time of [e]'s machine is not known. *)
Definition fleetUnknownAge : Scenario := {|
  scListing := fleetListing;
  scClusters := inr [ {| ActiveServicesCount := Some 2 |} ];
  scServiceDesired := 5;
  scGroupDesired := 5;
  scLaunchTime := fun id => if decide (id = "i-e") then None
                            else fleetLaunchTime id;
  scRefusedCount := None |}.

(** The same fleet when the scheduler refuses to go back to five tasks. *)
Definition fleetNoWayBack : Scenario := {|
  scListing := fleetListing;
  scClusters := inr [ {| ActiveServicesCount := Some 2 |} ];
  scServiceDesired := 5;
  scGroupDesired := 5;
  scLaunchTime := fleetLaunchTime;
  scRefusedCount := Some 5 |}.

(** Keep [desired] instances, in batches of one, preferring agents older
    than 1.39.0, then type [m5], sorting each tier by age. *)
Definition keep (desired : Z) : Config := {|
  Service_ := "web";
  Cluster_ := "prod";
  ASG := "prod-asg";
  DesiredCount := desired;
  BatchSize := 1;
  InstanceType := "m5";
  Region := "us-west-2";
  InstanceFlip := false;
  SortByAge := true;
  TaskCountDetect := true;
  AllowASGMismatch := false;
  AgentVersionThreshold := "1.39.0" |}.

Definition keepFlipping (desired : Z) : Config := {|
  Service_ := "web";
  Cluster_ := "prod";
  ASG := "prod-asg";
  DesiredCount := desired;
  BatchSize := 1;
  InstanceType := "m5";
  Region := "us-west-2";
  InstanceFlip := true;
  SortByAge := true;
  TaskCountDetect := true;
  AllowASGMismatch := false;
  AgentVersionThreshold := "1.39.0" |}.

Definition keepAllowingMismatch (desired : Z) : Config := {|
  Service_ := "web";
  Cluster_ := "prod";
  ASG := "prod-asg";
  DesiredCount := desired;
  BatchSize := 1;
  InstanceType := "m5";
  Region := "us-west-2";
  InstanceFlip := false;
  SortByAge := true;
  TaskCountDetect := true;
  AllowASGMismatch := true;
  AgentVersionThreshold := "1.39.0" |}.

(** The configuration [keep desired] with batches of [size] instances. *)
Definition keepInBatchesOf (size desired : Z) : Config := {|
  Service_ := "web";
  Cluster_ := "prod";
  ASG := "prod-asg";
  DesiredCount := desired;
  BatchSize := size;
  InstanceType := "m5";
  Region := "us-west-2";
  InstanceFlip := false;
  SortByAge := true;
  TaskCountDetect := true;
  AllowASGMismatch := false;
  AgentVersionThreshold := "1.39.0" |}.

(** A control plane like [cp] whose instance group refuses to terminate
    the machine [machine]. *)
Definition refusingToTerminate (machine : string) (cp : ControlPlane)
  : ControlPlane := {|
  cpDescribeClusters := cpDescribeClusters cp;
  cpDescribeServices := cpDescribeServices cp;
  cpUpdateService := cpUpdateService cp;
  cpWaitUntilServicesStable := cpWaitUntilServicesStable cp;
  cpListContainerInstances := cpListContainerInstances cp;
  cpDescribeContainerInstances := cpDescribeContainerInstances cp;
  cpDescribeInstances := cpDescribeInstances cp;
  cpUpdateContainerInstancesState := cpUpdateContainerInstancesState cp;
  cpUpdateAutoScalingGroup := cpUpdateAutoScalingGroup cp;
  cpWaitUntilGroupInService := cpWaitUntilGroupInService cp;
  cpTerminateInstance := fun st id decrement =>
    if decide (id = Some machine)
    then Some "ScalingActivityInProgress"
    else cpTerminateInstance cp st id decrement;
  cpWaitUntilInstanceTerminated := cpWaitUntilInstanceTerminated cp;
  cpDescribeAutoScalingGroups := cpDescribeAutoScalingGroups cp |}.

(** A control plane like [cp] in which no instance group is found. *)
Definition withoutGroup (cp : ControlPlane) : ControlPlane := {|
  cpDescribeClusters := cpDescribeClusters cp;
  cpDescribeServices := cpDescribeServices cp;
  cpUpdateService := cpUpdateService cp;
  cpWaitUntilServicesStable := cpWaitUntilServicesStable cp;
  cpListContainerInstances := cpListContainerInstances cp;
  cpDescribeContainerInstances := cpDescribeContainerInstances cp;
  cpDescribeInstances := cpDescribeInstances cp;
  cpUpdateContainerInstancesState := cpUpdateContainerInstancesState cp;
  cpUpdateAutoScalingGroup := cpUpdateAutoScalingGroup cp;
  cpWaitUntilGroupInService := cpWaitUntilGroupInService cp;
  cpTerminateInstance := cpTerminateInstance cp;
  cpWaitUntilInstanceTerminated := cpWaitUntilInstanceTerminated cp;
  cpDescribeAutoScalingGroups := fun _ _ => inr [] |}.

(** The command line that asks for what [keep desired] asks. *)
Definition flagsToKeep (desired : Z) : Main.Flags := {|
  Main.service := "web";
  Main.cluster := "prod";
  Main.asg := "prod-asg";
  Main.desiredCount := desired;
  Main.batchSize := 1;
  Main.instanceType := "m5";
  Main.region := "us-west-2";
  Main.flipMode := false;
  Main.sortAge := true;
  Main.disableTaskCount := false;
  Main.agentVersion := "1.39.0";
  Main.mismatch := false |}.

(** A control plane like [cp] in which no container instance can be set
    to draining. *)
Definition refusingToDrain (cp : ControlPlane) : ControlPlane := {|
  cpDescribeClusters := cpDescribeClusters cp;
  cpDescribeServices := cpDescribeServices cp;
  cpUpdateService := cpUpdateService cp;
  cpWaitUntilServicesStable := cpWaitUntilServicesStable cp;
  cpListContainerInstances := cpListContainerInstances cp;
  cpDescribeContainerInstances := cpDescribeContainerInstances cp;
  cpDescribeInstances := cpDescribeInstances cp;
  cpUpdateContainerInstancesState := fun _ _ _ _ => inl "ServerException";
  cpUpdateAutoScalingGroup := cpUpdateAutoScalingGroup cp;
  cpWaitUntilGroupInService := cpWaitUntilGroupInService cp;
  cpTerminateInstance := cpTerminateInstance cp;
  cpWaitUntilInstanceTerminated := cpWaitUntilInstanceTerminated cp;
  cpDescribeAutoScalingGroups := cpDescribeAutoScalingGroups cp |}.

(** * Vocabulary of the properties *)

(** [behaves P Q m]: whatever the state [m] starts in, it only appends
    events, all of them satisfy [P], and an error it returns satisfies
    [Q]. *)
Definition behaves {A} (P : Event -> Prop) (Q : error -> Prop) (m : M A)
  : Prop :=
  forall st,
    (exists new, snd (m st) = st ++ new /\ Forall P new) /\
    (forall e, fst (m st) = Err e -> Q e).

(** A request that lowers the desired or minimum capacity of the instance
    group: an update of the group, or a termination told to decrement the
    desired capacity. *)
Definition lowersCapacity (c : Call) : Prop :=
  match c with
  | UpdateAutoScalingGroup _ _ _ _ => True
  | TerminateInstanceInAutoScalingGroup _ true => True
  | _ => False
  end.

(** The line logged by the comparison function of the age sort when a
    launch time is missing. *)
Definition isAgeLog (o : Output) : Prop :=
  match o with
  | LogError (ErrAgeEmpty _) => True
  | _ => False
  end.

Definition isNoRoom (e : error) : Prop :=
  match e with
  | ErrNoRoom _ => True
  | _ => False
  end.

(** What the page callback of [findInstances] maintains, for the set
    [seen0] it started from: the collected identifiers are distinct, none
    was in [seen0], and [seen] has grown by exactly them. *)
Definition accInv (seen0 : gset string) (acc : PageAcc) : Prop :=
  NoDup (accArns acc) /\
  accSeen acc = seen0 ∪ list_to_set (accArns acc) /\
  (forall x, x ∈ accArns acc -> x ∉ seen0).

(** [contributes tier seen0 st block seen1 st1]: started in state [st] with
    the identifiers [seen0] already taken, the tier succeeds, appends
    [block] to the candidates and leaves [seen1] and [st1]. *)
Definition contributes (tier : Selection -> M Selection)
    (seen0 : gset string) (st : State)
    (block : list string) (seen1 : gset string) (st1 : State) : Prop :=
  tier {| allArns := []; seen := seen0 |} st
  = (Ok {| allArns := block; seen := seen1 |}, st1).

(** Launch times in non-decreasing order: [a] may stand before [b]. *)
Definition ageLe (ages : gmap string (option Z)) (a b : string) : Prop :=
  exists ta tb, ageOf ages a = Some ta /\ ageOf ages b = Some tb /\ ta <= tb.

(** The events and errors common to all functions of the package: [P]
    allows every printed line but that of a failed age comparison and every
    request that does not lower the capacity of the instance group; [Q]
    allows every error but the one of [Run] itself. *)
Definition footprint (P : Event -> Prop) (Q : error -> Prop) : Prop :=
  (forall o, ~ isAgeLog o -> P (EvOut o)) /\
  (forall c, ~ lowersCapacity c -> P (EvCall c)) /\
  (forall e, ~ isNoRoom e -> Q e).

(** An event other than the log line of a failed age comparison. *)
Definition notAgeLog (ev : Event) : Prop :=
  forall a, ev <> EvOut (LogError (ErrAgeEmpty a)).

(** A tier reads [allArns] only to append to it. *)
Definition framed (tier : Selection -> M Selection) : Prop :=
  forall sel st,
    tier sel st
    = bind (tier {| allArns := []; seen := seen sel |})
        (fun s => ret {| allArns := allArns sel ++ allArns s; seen := seen s |})
        st.

(** A successful tier appends a block of distinct identifiers, none of
    them taken before, and marks exactly them as taken. *)
Definition appendsBlock (tier : Selection -> M Selection) : Prop :=
  forall sel st sel' st',
    tier sel st = (Ok sel', st') ->
    exists block,
      allArns sel' = allArns sel ++ block /\
      NoDup block /\
      seen sel' = seen sel ∪ list_to_set block /\
      (forall x, x ∈ block -> x ∉ seen sel).

(** The candidates are distinct and are exactly the identifiers taken. *)
Definition selInv (sel : Selection) : Prop :=
  NoDup (allArns sel) /\ seen sel = list_to_set (allArns sel).

(** The blocks the four tiers contribute, in the order of the source, in a
    run of the selector from state [st] to state [st'], and the states
    between the tiers. *)
Definition tierBlocks sortSlice (cp : ControlPlane) (d : Config)
    (st : State) (b1 : list string) (st1 : State) (b2 : list string)
    (st2 : State) (b3 : list string) (st3 : State) (b4 : list string)
    (st' : State) : Prop :=
  exists s1 s2 s3 s4,
    contributes (staleAgentTier sortSlice cp d) ∅ st b1 s1 st1 /\
    contributes (instanceTypeTier sortSlice cp d) s1 st1 b2 s2 st2 /\
    contributes (taskCountTier sortSlice cp d) s2 st2 b3 s3 st3 /\
    contributes (leftoverTier sortSlice cp d) s3 st3 b4 s4 st'.

(** The contribution [block] of a tier that lists with [filter] from the
    state [st], the identifiers [seen0] being taken, when age sorting is
    enabled.  The listing collects the candidates of the tier, and the
    block is a permutation of them: none is dropped, none is added.  Two
    candidates or more are sorted: the two lookups of the age sort, made
    right after the line that reports the listing, resolve a launch time
    for each of them, and the block, and so every prefix of it, is in
    non-decreasing order of these launch times, the oldest instance
    first.  A single candidate, or none, is appended as collected.  [st']
    is the state in which the tier is left. *)
Definition sortedByAge (cp : ControlPlane) (d : Config) (filter : string)
    (seen0 : gset string) (st : State) (block : list string) (st' : State)
  : Prop :=
  exists acc stL,
    listUnseen cp d filter seen0 st = (Ok acc, stL) /\
    Permutation (accArns acc) block /\
    let reported :=
      stL ++ [EvOut (OutAdded filter (sub64 (len (accArns acc)) 0)
                       (accSkipped acc))] in
    if decide (2 <= length (accArns acc))%nat
    then
      exists ages,
        resolveLaunchTimes cp d (accArns acc) reported = (Ok ages, st') /\
        forall k, StronglySorted (ageLe ages) (take k block)
    else block = accArns acc /\ st' = reported.

(** No comparison of an age sort has met a missing launch time so far. *)
Definition noAgeLog (st : State) : Prop :=
  forall a, EvOut (LogError (ErrAgeEmpty a)) ∉ st.

(** From a state without such a comparison, [m] either ends in one, or
    returns the error of the last such comparison, whose log line is then
    the last event. *)
Definition stopsOnAgeError {A} (m : M A) : Prop :=
  forall st,
    noAgeLog st ->
    noAgeLog (snd (m st)) \/
    exists a,
      fst (m st) = Err (ErrAgeEmpty a) /\
      last (snd (m st)) = Some (EvOut (LogError (ErrAgeEmpty a))).

(** The batch loop of [Run], entered at [start] with service [s] in state
    [st], gets after some complete batches to the test of its condition at
    [start'] with service [s'] in state [st']. *)
Inductive loopReaches (cp : ControlPlane) (d : Config)
    (containerInstances : list string) (maxToRemove : Z)
  : Z -> Service -> State -> Z -> Service -> State -> Prop :=
| reach_here start s st :
    loopReaches cp d containerInstances maxToRemove start s st start s st
| reach_next start s st end_ batch s1 st1 start' s' st' :
    (start <? len containerInstances) && (start <? maxToRemove) = true ->
    end_ = (if add64 start (BatchSize d) >? len containerInstances
            then len containerInstances else add64 start (BatchSize d)) ->
    slice containerInstances start end_ st = (Ok batch, st) ->
    ScaleDown cp d s batch st = (Ok s1, st1) ->
    loopReaches cp d containerInstances maxToRemove
      (add64 start (BatchSize d)) s1 st1 start' s' st' ->
    loopReaches cp d containerInstances maxToRemove start s st start' s' st'.

(** The requests among the events of a run, in order. *)
Definition calls (st : State) : list Call :=
  omap (fun ev => match ev with EvCall c => Some c | EvOut _ => None end) st.

(** A request that only reads from the control plane. *)
Definition readOnly (c : Call) : Prop :=
  match c with
  | DescribeClusters _
  | DescribeServices _ _
  | ListContainerInstancesPages _ _
  | DescribeContainerInstances _ _
  | DescribeInstancesPages _
  | DescribeAutoScalingGroups _ => True
  | _ => False
  end.

(** An event that changes nothing in the control plane: a printed line or
    a request that only reads. *)
Definition observes (ev : Event) : Prop :=
  forall c, ev = EvCall c -> readOnly c.

(** The lists of identifiers that the drain requests among the events
    carry, in order. *)
Definition drainRequests (st : State) : list (list string) :=
  omap (fun ev =>
          match ev with
          | EvCall (UpdateContainerInstancesState _ arns _) => Some arns
          | _ => None
          end) st.

(** A request that ends a machine. *)
Definition isTermination (ev : Event) : Prop :=
  match ev with
  | EvCall (TerminateInstanceInAutoScalingGroup _ _) => True
  | EvCall (WaitUntilInstanceTerminated _) => True
  | _ => False
  end.

(** A request that changes the desired count of the service or the size of
    the instance group. *)
Definition isScaling (ev : Event) : Prop :=
  match ev with
  | EvCall (UpdateService _ _ _ _) => True
  | EvCall (WaitUntilServicesStable _ _) => True
  | EvCall (UpdateAutoScalingGroup _ _ _ _) => True
  | EvCall (WaitUntilGroupInService _) => True
  | _ => False
  end.

(** The pages of a listing that the page callback of [findInstances] gets
    to see: those up to the first one without a next token. *)
Fixpoint consumedPages (pages : list ListContainerInstancesOutput)
  : list ListContainerInstancesOutput :=
  match pages with
  | [] => []
  | page :: rest =>
      page :: (if bool_decide (ListNextToken page ≠ None)
               then consumedPages rest else [])
  end.

(** The termination requests of [terminateContainerInstances] for the
    given container instances. *)
Definition terminationsOf (cis : list ContainerInstance) : list Event :=
  map (fun ci =>
         EvCall (TerminateInstanceInAutoScalingGroup (Ec2InstanceId ci) false))
      cis.

(** The four ways a computation may end, and computations that never end
    in a given way. *)
Inductive verdict := VOk | VErr | VPanic | VUnfinished.

Definition verdictOf {A} (r : outcome A) : verdict :=
  match r with
  | Ok _ => VOk
  | Err _ => VErr
  | Panic => VPanic
  | Unfinished => VUnfinished
  end.

Definition avoids {A} (v : verdict) (m : M A) : Prop :=
  forall st, verdictOf (fst (m st)) <> v.

(** What the page callback of [findInstances] has done between [acc] and
    [acc'] when it has visited the identifiers [listed]: each of them is
    seen afterwards and was counted once, as collected or as skipped, and
    nothing else was collected. *)
Definition visited (acc acc' : PageAcc) (listed : list string) : Prop :=
  accSkipped acc <= accSkipped acc' <= accSkipped acc + len listed /\
  len (accArns acc') + accSkipped acc'
  = len (accArns acc) + accSkipped acc + len listed /\
  (forall x, x ∈ accSeen acc -> x ∈ accSeen acc') /\
  (forall x, x ∈ listed -> x ∈ accSeen acc') /\
  (forall x, x ∈ accArns acc' -> x ∈ accArns acc \/ x ∈ listed).

(** An error that a batch or the last step of [Run] may return: an error
    of the SDK, bare or wrapped, or one of the two errors of the
    reconciliation with the instance group. *)
Definition raisedWhileScaling (e : error) : Prop :=
  match e with
  | ErrAPI _ | ErrWrap _ _ | ErrMismatchNotAllowed _ _ | ErrNoASG => True
  | _ => False
  end.

(** [m] writes the log line [Success!] only in flip mode and only when
    it returns an error. *)
Definition successOnlyOnFailure (d : Config) {A} (m : M A) : Prop :=
  forall st,
    exists new,
      snd (m st) = st ++ new /\
      (EvOut LogSuccess ∈ new ->
       InstanceFlip d = true /\ exists e, fst (m st) = Err e).

(** * Properties *)

(** ** Arithmetic on machine integers *)

Lemma wrap64_id z : int64_range z -> wrap64 z = z.
Proof.
  unfold int64_range, wrap64. intros H.
  rewrite Z.mod_small; lia.
Qed.

Lemma wrap64_range z : int64_range (wrap64 z).
Proof.
  unfold int64_range, wrap64.
  pose proof (Z.mod_pos_bound (z + 2 ^ 63) (2 ^ 64)). lia.
Qed.

Lemma sub64_zero a b :
  int64_range a -> int64_range b -> sub64 a b = 0 <-> a = b.
Proof.
  unfold int64_range, sub64, wrap64. intros Ha Hb. split.
  - intros H.
    destruct (Z.eq_dec a b) as [|Hne]; [done|exfalso].
    assert (Hm : (a - b + 2 ^ 63) mod 2 ^ 64 = 2 ^ 63) by lia.
    destruct (Z_lt_le_dec (a - b) (- 2 ^ 63)).
    + replace (a - b + 2 ^ 63) with ((a - b + 2 ^ 63 + 2 ^ 64) + (-1) * 2 ^ 64) in Hm by lia.
      rewrite Z.mod_add, Z.mod_small in Hm; lia.
    + destruct (Z_lt_le_dec (a - b) (2 ^ 63)).
      * rewrite Z.mod_small in Hm; lia.
      * replace (a - b + 2 ^ 63) with ((a - b - 2 ^ 63) + 1 * 2 ^ 64) in Hm by lia.
        rewrite Z.mod_add, Z.mod_small in Hm; lia.
  - intros ->. rewrite Z.sub_diag. reflexivity.
Qed.

Lemma len_nonneg {A} (l : list A) : 0 <= len l.
Proof. unfold len. lia. Qed.

(** ** The insertion sort meets what the package needs of [sort.Slice] *)

Lemma insertLeft_perm less x sortedRev :
  Permutation (x :: sortedRev) (fst (insertLeft less x sortedRev)).
Proof.
  induction sortedRev as [|y rest IH]; simpl; [done|].
  destruct (less x y); simpl; [|done].
  destruct (insertLeft less x rest) as [rest' c]; simpl in *.
  rewrite perm_swap. by constructor.
Qed.

Lemma insertAll_perm less items sortedRev :
  Permutation (items ++ sortedRev) (fst (insertAll less items sortedRev)).
Proof.
  revert sortedRev. induction items as [|x items IH]; intros sr; simpl; [done|].
  pose proof (insertLeft_perm less x sr) as Hx.
  destruct (insertLeft less x sr) as [sr' c1]; simpl in *.
  specialize (IH sr').
  destruct (insertAll less items sr') as [res c2]; simpl in *.
  rewrite <- IH, <- Hx. apply Permutation_middle.
Qed.

Lemma insertionSort_perm less data :
  Permutation data (fst (insertionSort less data)).
Proof.
  destruct data as [|x items]; simpl; [done|].
  pose proof (insertAll_perm less items [x]) as H.
  destruct (insertAll less items [x]) as [sr c]; simpl in *.
  rewrite <- Permutation_rev, <- H.
  apply Permutation_cons_append.
Qed.

Section InsertionSorted.
Variable less : string -> string -> bool.
Variable dom : string -> Prop.
Hypothesis less_asym :
  forall x y, dom x -> dom y -> less x y = true -> less y x = false.
Hypothesis less_negtrans :
  forall x y z, dom x -> dom y -> dom z ->
    less x y = false -> less y z = false -> less x z = false.

Let notLess (a b : string) : Prop := less a b = false.

Lemma insertLeft_sorted x sortedRev :
  dom x -> Forall dom sortedRev ->
  StronglySorted notLess sortedRev ->
  StronglySorted notLess (fst (insertLeft less x sortedRev)).
Proof.
  intros Hx. induction sortedRev as [|y rest IH]; intros Hdom Hs; simpl.
  - repeat constructor.
  - apply Forall_cons in Hdom as [Hy Hrest].
    apply StronglySorted_cons in Hs as [Hyrest Hs].
    destruct (less x y) eqn:Hxy; simpl.
    + specialize (IH Hrest Hs).
      pose proof (insertLeft_perm less x rest) as Hp.
      destruct (insertLeft less x rest) as [rest' c]; simpl in *.
      apply StronglySorted_cons. split; [|done].
      rewrite <- Hp. constructor; [|done].
      by apply less_asym.
    + apply StronglySorted_cons. split.
      * constructor; [done|].
        rewrite Forall_forall in Hyrest, Hrest |- *.
        intros b Hb. apply (less_negtrans x y b); auto.
        by apply Hyrest.
      * by apply StronglySorted_cons.
Qed.

Lemma insertAll_sorted items sortedRev :
  Forall dom items -> Forall dom sortedRev ->
  StronglySorted notLess sortedRev ->
  StronglySorted notLess (fst (insertAll less items sortedRev)).
Proof.
  revert sortedRev.
  induction items as [|x items IH]; intros sr Hi Hdom Hs; simpl; [done|].
  apply Forall_cons in Hi as [Hx Hi].
  pose proof (insertLeft_sorted x sr Hx Hdom Hs) as Hs'.
  pose proof (insertLeft_perm less x sr) as Hp.
  destruct (insertLeft less x sr) as [sr' c1]; simpl in *.
  assert (Hdom' : Forall dom sr') by (rewrite <- Hp; by constructor).
  specialize (IH sr' Hi Hdom' Hs').
  by destruct (insertAll less items sr') as [res c2].
Qed.
End InsertionSorted.

Lemma StronglySorted_rev_flip {A} (R : A -> A -> Prop) (l : list A) :
  StronglySorted R l -> StronglySorted (fun a b => R b a) (rev l).
Proof.
  induction l as [|x l IH]; intros Hs; simpl; [constructor|].
  apply StronglySorted_cons in Hs as [Hx Hs].
  apply StronglySorted_app. split_and!.
  - intros a b Ha Hb. apply list_elem_of_singleton in Hb as ->.
    rewrite Forall_forall in Hx. apply Hx.
    apply list_elem_of_In in Ha. apply list_elem_of_In.
    by apply in_rev.
  - by apply IH.
  - repeat constructor.
Qed.

Lemma insertionSort_sorted less data :
  (forall x y, In x data -> In y data -> less x y = true -> less y x = false) ->
  (forall x y z, In x data -> In y data -> In z data ->
     less x y = false -> less y z = false -> less x z = false) ->
  StronglySorted (fun a b => less b a = false) (fst (insertionSort less data)).
Proof.
  intros Hasym Hneg.
  destruct data as [|x items]; simpl; [constructor|].
  assert (Hall : Forall (fun y => In y (x :: items)) (x :: items))
    by (apply Forall_forall; intros y Hy; by apply list_elem_of_In).
  apply Forall_cons in Hall as [Hx Hitems].
  pose proof (insertAll_sorted less (fun y => In y (x :: items)) Hasym Hneg
                items [x] Hitems) as Hs.
  destruct (insertAll less items [x]) as [sr c]; simpl in *.
  apply (StronglySorted_rev_flip (fun a b => less a b = false)).
  apply Hs; repeat constructor.
Qed.

Lemma insertLeft_compares less x y rest :
  In (x, y) (snd (insertLeft less x (y :: rest))).
Proof.
  simpl. destruct (less x y); [|by left].
  destruct (insertLeft less x rest). by left.
Qed.

Lemma insertLeft_nonempty less x sortedRev :
  fst (insertLeft less x sortedRev) <> [].
Proof.
  destruct sortedRev as [|y rest]; simpl; [done|].
  destruct (less x y); [|done].
  by destruct (insertLeft less x rest).
Qed.

Lemma insertAll_compares less items y rest x :
  In x items ->
  exists c, In c (snd (insertAll less items (y :: rest))) /\ fst c = x.
Proof.
  revert y rest. induction items as [|x' items IH]; intros y rest Hin; [done|].
  cbn [insertAll].
  pose proof (insertLeft_compares less x' y rest) as Hc.
  pose proof (insertLeft_nonempty less x' (y :: rest)) as Hne.
  destruct (insertLeft less x' (y :: rest)) as [sr' c1].
  cbn [fst snd] in Hc, Hne.
  destruct sr' as [|y' rest']; [done|].
  destruct Hin as [->|Hin].
  - destruct (insertAll less items (y' :: rest')) as [res c2]; cbn [snd].
    exists (x, y). split; [|done]. apply in_or_app. by left.
  - destruct (IH y' rest' Hin) as (c & Hc' & Hfst).
    destruct (insertAll less items (y' :: rest')) as [res c2]; cbn [snd] in *.
    exists c. split; [|done]. apply in_or_app. by right.
Qed.

Lemma insertionSort_compares less data x :
  (2 <= length data)%nat -> In x data ->
  exists c, In c (snd (insertionSort less data)) /\ (fst c = x \/ snd c = x).
Proof.
  destruct data as [|x0 [|x1 items]]; simpl length; try lia. intros _ Hin.
  cbn [insertionSort].
  destruct Hin as [->|Hin].
  - cbn [insertAll].
    pose proof (insertLeft_compares less x1 x []) as Hc.
    destruct (insertLeft less x1 [x]) as [sr' c1]; cbn [snd] in Hc.
    destruct (insertAll less items sr') as [res c2]; cbn [snd].
    exists (x1, x). split; [|by right]. apply in_or_app. by left.
  - destruct (insertAll_compares less (x1 :: items) x0 [] x Hin) as (c & Hc & Hf).
    destruct (insertAll less (x1 :: items) [x0]) as [sr c']; cbn [snd] in *.
    exists c. split; [done|by left].
Qed.

(** ** Running the monad *)

Lemma bind_Ok {A B} (m : M A) (f : A -> M B) st a st' :
  m st = (Ok a, st') -> bind m f st = f a st'.
Proof. unfold bind. by intros ->. Qed.

Lemma bind_Err {A B} (m : M A) (f : A -> M B) st e st' :
  m st = (Err e, st') -> bind m f st = (Err e, st').
Proof. unfold bind. by intros ->. Qed.

Lemma bind_inv_Ok {A B} (m : M A) (f : A -> M B) st b st' :
  bind m f st = (Ok b, st') ->
  exists a st1, m st = (Ok a, st1) /\ f a st1 = (Ok b, st').
Proof.
  unfold bind. destruct (m st) as [[a|e| |] st1]; try discriminate.
  intros H. by exists a, st1.
Qed.

Lemma out_run o st : out o st = (Ok tt, st ++ [EvOut o]).
Proof. reflexivity. Qed.

(** ** What a computation may print, call and return *)

Section Behaves.
Variable P : Event -> Prop.
Variable Q : error -> Prop.

Lemma behaves_ret {A} (a : A) : behaves P Q (ret a).
Proof.
  intros st. split; [exists []|done]. by rewrite app_nil_r.
Qed.

Lemma behaves_panic {A} : behaves P Q (@panic A).
Proof.
  intros st. split; [exists []|done]. by rewrite app_nil_r.
Qed.

Lemma behaves_unfinished {A} : behaves P Q (@unfinished A).
Proof.
  intros st. split; [exists []|done]. by rewrite app_nil_r.
Qed.

Lemma behaves_fail {A} e : Q e -> behaves P Q (@fail A e).
Proof.
  intros He st. split; [exists []; by rewrite app_nil_r|].
  simpl. by intros ? [= <-].
Qed.

Lemma behaves_emit ev : P ev -> behaves P Q (emit ev).
Proof.
  intros Hev st. split; [|done]. exists [ev]. split; [done|by constructor].
Qed.

Lemma behaves_out o : P (EvOut o) -> behaves P Q (out o).
Proof. apply behaves_emit. Qed.

Lemma behaves_bind {A B} (m : M A) (f : A -> M B) :
  behaves P Q m -> (forall a, behaves P Q (f a)) -> behaves P Q (bind m f).
Proof.
  intros Hm Hf st. unfold bind.
  destruct (Hm st) as [(new & Hst & Hnew) He].
  destruct (m st) as [[a|e| |] st1]; simpl in *; subst st1.
  - destruct (Hf a (st ++ new)) as [(new' & Hst' & Hnew') He'].
    split; [|done].
    exists (new ++ new'). rewrite Hst', app_assoc. split; [done|].
    by apply Forall_app.
  - split; [by exists new|]. simpl. intros ? [= <-]. by apply He.
  - split; [by exists new|done].
  - split; [by exists new|done].
Qed.

Lemma behaves_request {A} c (answer : State -> string + A) :
  P (EvCall c) -> (forall msg, Q (ErrAPI msg)) ->
  behaves P Q (request c answer).
Proof.
  intros Hc HQ st. unfold request.
  destruct (answer st); simpl.
  - split; [exists [EvCall c]; split; [done|by constructor]|].
    by intros ? [= <-].
  - split; [exists [EvCall c]; split; [done|by constructor]|done].
Qed.

Lemma behaves_request_ c (answer : State -> option string) :
  P (EvCall c) -> (forall msg, Q (ErrAPI msg)) ->
  behaves P Q (request_ c answer).
Proof.
  intros Hc HQ st. unfold request_.
  destruct (answer st); simpl.
  - split; [exists [EvCall c]; split; [done|by constructor]|].
    by intros ? [= <-].
  - split; [exists [EvCall c]; split; [done|by constructor]|done].
Qed.

Lemma behaves_requestPages {G S} c (answer : State -> list G * option string)
    (fn : S -> G -> S * bool) (s : S) :
  P (EvCall c) -> (forall msg, Q (ErrAPI msg)) ->
  behaves P Q (requestPages c answer fn s).
Proof.
  intros Hc HQ st. unfold requestPages.
  destruct (answer st) as [pages err].
  destruct (eachPage fn pages s) as [s' exhausted].
  destruct (if exhausted then err else None); simpl.
  - split; [exists [EvCall c]; split; [done|by constructor]|].
    by intros ? [= <-].
  - split; [exists [EvCall c]; split; [done|by constructor]|done].
Qed.

Lemma behaves_wrapErr {A} (Q0 : error -> Prop) msg (m : M A) :
  behaves P Q0 m -> (forall e, Q0 e -> Q (ErrWrap e msg)) ->
  behaves P Q (wrapErr msg m).
Proof.
  intros Hm HQ st. unfold wrapErr.
  destruct (Hm st) as [Hext He].
  destruct (m st) as [[a|e| |] st1]; simpl in *; split; try done.
  intros ? [= <-]. by apply HQ, He.
Qed.

Lemma behaves_forEach {A} (l : list A) (body : A -> M unit) :
  (forall x, behaves P Q (body x)) -> behaves P Q (forEach l body).
Proof.
  intros Hb. induction l as [|x l IH]; simpl.
  - apply behaves_ret.
  - apply behaves_bind; [apply Hb|done].
Qed.

Lemma behaves_foldM {A S} (body : S -> A -> M S) (l : list A) (s : S) :
  (forall s x, behaves P Q (body s x)) -> behaves P Q (foldM body l s).
Proof.
  intros Hb. revert s. induction l as [|x l IH]; intros s; simpl.
  - apply behaves_ret.
  - apply behaves_bind; [apply Hb|done].
Qed.

Lemma behaves_slice {A} (s : list A) lo hi : behaves P Q (slice s lo hi).
Proof.
  unfold slice. destruct (_ && _); [apply behaves_ret|apply behaves_panic].
Qed.

Lemma behaves_deref {A} (p : option A) : behaves P Q (deref p).
Proof. destruct p; [apply behaves_ret|apply behaves_panic]. Qed.
End Behaves.

Lemma behaves_extends {A} P Q (m : M A) st :
  behaves P Q m -> exists new, snd (m st) = st ++ new /\ Forall P new.
Proof. intros H. apply H. Qed.

(** The steps that decompose a computation of the package. *)
Ltac behave_step :=
  lazymatch goal with
  | |- behaves _ _ (ret _) => apply behaves_ret
  | |- behaves _ _ panic => apply behaves_panic
  | |- behaves _ _ unfinished => apply behaves_unfinished
  | |- behaves _ _ (slice _ _ _) => apply behaves_slice
  | |- behaves _ _ (deref _) => apply behaves_deref
  | |- behaves _ _ (out _) => apply behaves_out
  | |- behaves _ _ (request _ _) => apply behaves_request
  | |- behaves _ _ (request_ _ _) => apply behaves_request_
  | |- behaves _ _ (requestPages _ _ _ _) => apply behaves_requestPages
  | |- behaves _ _ (fail _) => apply behaves_fail
  | |- behaves _ _ (bind _ _) => apply behaves_bind; [|intros ?]
  | |- behaves _ _ (forEach _ _) => apply behaves_forEach; intros ?
  | |- behaves _ _ (foldM _ _ _) => apply behaves_foldM; intros ? ?
  | |- behaves _ _ (if ?b then _ else _) => destruct b
  | |- behaves _ _ (match ?x with _ => _ end) => destruct x
  end.

Ltac behave := repeat behave_step.

Ltac behave_wrap :=
  apply behaves_wrapErr with (Q0 := fun _ => True).

(** ** The footprint of each function of the package *)

Section Footprint.
Variable sortSlice :
  (string -> string -> bool) -> list string ->
  list string * list (string * string).
Variable cp : ControlPlane.
Variable d : Config.
Variable P : Event -> Prop.
Variable Q : error -> Prop.
Hypothesis HPQ : footprint P Q.

Lemma P_out o : ~ isAgeLog o -> P (EvOut o).
Proof. apply HPQ. Qed.

Lemma P_call c : ~ lowersCapacity c -> P (EvCall c).
Proof. apply HPQ. Qed.

Lemma Q_err e : ~ isNoRoom e -> Q e.
Proof. apply HPQ. Qed.

Local Ltac side :=
  try solve
    [ apply P_out; simpl; tauto
    | apply P_call; simpl; tauto
    | intros; apply Q_err; simpl; tauto
    | done ].

Local Ltac footprint := behave; side.

Lemma drainAtTaskCount_behaves : behaves P Q (drainAtTaskCount cp d).
Proof.
  intros st. unfold drainAtTaskCount, request.
  assert (Hc : Forall P [EvCall (DescribeClusters [Cluster_ d])])
    by (constructor; [side|constructor]).
  destruct (cpDescribeClusters cp st [Cluster_ d]) as [msg|clusters];
    [split; [by eexists|done]|].
  destruct clusters as [|c [|c' rest]].
  - split; [by eexists|]. simpl. intros ? [= <-]. side.
  - destruct (ActiveServicesCount c); (split; [by eexists|]); [done|].
    simpl. intros ? [= <-]. side.
  - split; [by eexists|]. simpl. intros ? [= <-]. side.
Qed.

Lemma ecsService_behaves : behaves P Q (ecsService cp d).
Proof. unfold ecsService. footprint. Qed.

Lemma updateECSService_behaves n : behaves P Q (updateECSService cp d n).
Proof. unfold updateECSService. footprint. Qed.

Lemma drainContainerInstances_behaves arns :
  behaves P Q (drainContainerInstances cp d arns).
Proof. unfold drainContainerInstances. footprint. Qed.

Lemma resolveLaunchTimes_behaves arns :
  behaves P Q (resolveLaunchTimes cp d arns).
Proof.
  unfold resolveLaunchTimes, describeChunk, launchChunk.
  behave; try behave_wrap; footprint.
Qed.

Lemma compareError_age ages c e :
  compareError ages c = Some e -> exists a, e = ErrAgeEmpty a /\ ageOf ages a = None.
Proof.
  unfold compareError.
  destruct (ageOf ages (fst c)) eqn:H1; [destruct (ageOf ages (snd c)) eqn:H2|];
    intros [= <-]; eauto.
Qed.

Lemma compareErrors_age ages (compared : list (string * string)) e :
  e ∈ omap (compareError ages) compared ->
  exists a, e = ErrAgeEmpty a /\ ageOf ages a = None.
Proof.
  rewrite list_elem_of_omap. intros (c & _ & Hc).
  by apply compareError_age in Hc.
Qed.

Lemma sortECS_behaves arns :
  (forall e, P (EvOut (LogError e))) ->
  behaves P Q (sortECSContainersByInstanceAge sortSlice cp d arns).
Proof.
  intros Hlog. unfold sortECSContainersByInstanceAge.
  apply behaves_bind; [apply resolveLaunchTimes_behaves|intros ages].
  destruct (sortSlice (lessByAge ages) arns) as [work compared].
  apply behaves_bind; [behave; apply Hlog|intros _].
  destruct (last _) as [err|] eqn:Hlast; [|apply behaves_ret].
  apply behaves_fail, Q_err.
  apply last_Some_elem_of, compareErrors_age in Hlast as (a & -> & _).
  simpl. tauto.
Qed.

Lemma findInstances_behaves filter sel :
  (forall e, P (EvOut (LogError e))) ->
  behaves P Q (findInstances sortSlice cp d filter sel).
Proof.
  intros Hlog. unfold findInstances, listUnseen.
  behave; side. by apply sortECS_behaves.
Qed.

Lemma mergedCandidates_behaves :
  (forall e, P (EvOut (LogError e))) ->
  behaves P Q (mergedCandidates sortSlice cp d).
Proof.
  intros Hlog.
  unfold mergedCandidates, staleAgentTier, instanceTypeTier, taskCountTier,
    leftoverTier.
  behave; side; try apply findInstances_behaves; try done.
  apply drainAtTaskCount_behaves.
Qed.

Lemma findDrainable_behaves :
  (forall e, P (EvOut (LogError e))) ->
  behaves P Q (findDrainableContainerInstances sortSlice cp d).
Proof.
  intros Hlog. unfold findDrainableContainerInstances.
  apply behaves_bind; [by apply mergedCandidates_behaves|intros sel].
  footprint.
Qed.

Lemma updateASG_behaves minSize setMax :
  (forall n a b c, P (EvCall (UpdateAutoScalingGroup n a b c))) ->
  behaves P Q (updateASG cp d minSize setMax).
Proof. intros Hasg. unfold updateASG. footprint. Qed.

Lemma terminate_behaves cis :
  behaves P Q (terminateContainerInstances cp cis).
Proof. unfold terminateContainerInstances. footprint. Qed.

Lemma describeASG_behaves : behaves P Q (describeASG cp d).
Proof. unfold describeASG. behave; try behave_wrap; footprint. Qed.

Lemma reconcile_behaves service cis : behaves P Q (reconcile cp d service cis).
Proof.
  unfold reconcile.
  behave; side; apply describeASG_behaves.
Qed.

Lemma drainScaleTerminate_behaves service cis dc idc :
  (InstanceFlip d = false ->
   forall n a b c, P (EvCall (UpdateAutoScalingGroup n a b c))) ->
  behaves P Q (drainScaleTerminate cp d service cis dc idc).
Proof.
  intros Hasg. unfold drainScaleTerminate.
  destruct (InstanceFlip d) eqn:Hflip; simpl;
    behave; side;
    first [ apply drainContainerInstances_behaves
          | apply updateECSService_behaves
          | apply terminate_behaves
          | apply updateASG_behaves; by apply Hasg ].
Qed.

Lemma ScaleDown_behaves service cis :
  (InstanceFlip d = false ->
   forall n a b c, P (EvCall (UpdateAutoScalingGroup n a b c))) ->
  behaves P Q (ScaleDown cp d service cis).
Proof.
  intros Hasg. unfold ScaleDown.
  apply behaves_bind; [apply reconcile_behaves|intros counts].
  by apply drainScaleTerminate_behaves.
Qed.

Lemma batchLoop_behaves fuel cis maxToRemove start s :
  (InstanceFlip d = false ->
   forall n a b c, P (EvCall (UpdateAutoScalingGroup n a b c))) ->
  behaves P Q (batchLoop cp d fuel cis maxToRemove start s).
Proof.
  intros Hasg. revert start s.
  induction fuel as [|fuel IH]; intros start s; simpl.
  - footprint.
  - destruct (_ && _); [|apply behaves_ret].
    apply behaves_bind; [apply behaves_slice|intros batch].
    apply behaves_bind; [by apply ScaleDown_behaves|intros s'].
    apply IH.
Qed.

Lemma restoreTaskCount_behaves n : behaves P Q (restoreTaskCount cp d n).
Proof.
  unfold restoreTaskCount.
  apply behaves_bind; [footprint|intros _].
  intros st.
  destruct (updateECSService_behaves n st) as [(new & Hst & Hnew) He].
  destruct (updateECSService cp d n st) as [[a|e| |] st1]; simpl in *;
    subst st1; try (split; [by exists new|done]).
  split.
  - exists (new ++ [EvOut LogSuccess]). rewrite app_assoc. split; [done|].
    apply Forall_app. split; [done|]. constructor; [side|constructor].
  - intros ? [= <-]. by apply He.
Qed.

Lemma finish_behaves fuel cis maxToRemove s original :
  (InstanceFlip d = false ->
   forall n a b c, P (EvCall (UpdateAutoScalingGroup n a b c))) ->
  behaves P Q
    (batchLoop cp d fuel cis maxToRemove 0 s ;;;
     out OutStars ;;;
     if InstanceFlip d
     then restoreTaskCount cp d original
     else updateASG cp d (DesiredCount d) true).
Proof.
  intros Hasg.
  apply behaves_bind; [by apply batchLoop_behaves|intros _].
  apply behaves_bind; [footprint|intros _].
  destruct (InstanceFlip d) eqn:Hflip.
  - apply restoreTaskCount_behaves.
  - apply updateASG_behaves. by apply Hasg.
Qed.

Lemma Run_behaves fuel :
  (forall e, P (EvOut (LogError e))) ->
  (InstanceFlip d = false ->
   forall n a b c, P (EvCall (UpdateAutoScalingGroup n a b c))) ->
  (forall n, Q (ErrNoRoom n)) ->
  behaves P Q (Run sortSlice cp d fuel).
Proof.
  intros Hlog Hasg Hroom. unfold Run.
  apply behaves_bind; [by apply findDrainable_behaves|intros cis].
  apply behaves_bind; [footprint|intros _].
  apply behaves_bind; [apply ecsService_behaves|intros s].
  apply behaves_bind; [apply behaves_deref|intros original].
  destruct (_ =? 0); [by apply behaves_fail|].
  by apply finish_behaves.
Qed.
End Footprint.

(** ** The page callback *)

Lemma accInv_start seen0 : accInv seen0 {| accSeen := seen0; accArns := []; accSkipped := 0 |}.
Proof.
  unfold accInv; simpl. split_and!.
  - constructor.
  - set_solver.
  - intros x Hx. by apply elem_of_nil in Hx.
Qed.

Lemma visitArn_inv seen0 acc arn :
  accInv seen0 acc -> accInv seen0 (visitArn acc arn).
Proof.
  intros (Hnd & Hseen & Hfresh). unfold visitArn.
  destruct (decide (arn ∈ accSeen acc)) as [Hin|Hnotin]; [done|].
  unfold accInv; simpl. split_and!.
  - apply NoDup_app. split_and!; [done| |apply NoDup_singleton].
    intros x Hx Hx'. apply list_elem_of_singleton in Hx' as ->.
    apply Hnotin. rewrite Hseen. set_solver.
  - rewrite Hseen, list_to_set_app_L. set_solver.
  - intros x Hx. apply elem_of_app in Hx as [Hx|Hx]; [by apply Hfresh|].
    apply list_elem_of_singleton in Hx as ->.
    intros Hin. apply Hnotin. rewrite Hseen. set_solver.
Qed.

Lemma visitPage_inv seen0 acc page :
  accInv seen0 acc -> accInv seen0 (fst (visitPage acc page)).
Proof.
  unfold visitPage; simpl. generalize (ContainerInstanceArns page) as arns.
  intros arns. revert acc.
  induction arns as [|arn arns IH]; intros acc Hinv; simpl; [done|].
  by apply IH, visitArn_inv.
Qed.

Lemma eachPage_inv seen0 pages acc :
  accInv seen0 acc -> accInv seen0 (fst (eachPage visitPage pages acc)).
Proof.
  revert acc. induction pages as [|page pages IH]; intros acc Hinv; [done|].
  cbn [eachPage].
  pose proof (visitPage_inv seen0 acc page Hinv) as Hinv'.
  destruct (visitPage acc page) as [acc' more]; cbn [fst] in Hinv'.
  destruct more; [by apply IH|done].
Qed.

Lemma requestPages_Ok {G S} c (answer : State -> list G * option string)
    (fn : S -> G -> S * bool) (s s' : S) st st' :
  requestPages c answer fn s st = (Ok s', st') ->
  s' = fst (eachPage fn (fst (answer st)) s) /\ st' = st ++ [EvCall c].
Proof.
  unfold requestPages.
  destruct (answer st) as [pages err]; simpl.
  destruct (eachPage fn pages s) as [s1 exhausted]; simpl.
  destruct (if exhausted then err else None); [done|].
  by intros [= <- <-].
Qed.

Lemma StronglySorted_weaken {A} (R R' : A -> A -> Prop) (l : list A) :
  (forall a b, a ∈ l -> b ∈ l -> R a b -> R' a b) ->
  StronglySorted R l -> StronglySorted R' l.
Proof.
  induction l as [|x l IH]; intros Himp Hs; [constructor|].
  apply StronglySorted_cons in Hs as [Hx Hs].
  apply StronglySorted_cons. split.
  - rewrite Forall_forall in Hx |- *. intros b Hb.
    apply Himp; [by left|by right|by apply Hx].
  - apply IH; [|done]. intros a b Ha Hb. apply Himp; by right.
Qed.

(** ** The selector *)

Section Selector.
Variable sortSlice :
  (string -> string -> bool) -> list string ->
  list string * list (string * string).
Variable cp : ControlPlane.
Variable d : Config.

(** [sort.Slice] permutes the slice. *)
Hypothesis sortSlice_perm :
  forall less l, Permutation l (fst (sortSlice less l)).

Lemma forEach_nil_run {A} (body : A -> M unit) st :
  forEach [] body st = (Ok tt, st).
Proof. reflexivity. Qed.

(** A successful age sort made no comparison on a missing launch time and
    returns the slice as [sort.Slice] left it. *)
Lemma sortECS_Ok arns st work st' :
  sortECSContainersByInstanceAge sortSlice cp d arns st = (Ok work, st') ->
  exists ages,
    resolveLaunchTimes cp d arns st = (Ok ages, st') /\
    work = fst (sortSlice (lessByAge ages) arns) /\
    omap (compareError ages) (snd (sortSlice (lessByAge ages) arns)) = [].
Proof.
  unfold sortECSContainersByInstanceAge. intros H.
  apply bind_inv_Ok in H as (ages & st1 & Hres & H).
  exists ages.
  destruct (sortSlice (lessByAge ages) arns) as [work' compared]; simpl.
  apply bind_inv_Ok in H as ([] & st2 & Hlog & H).
  destruct (omap (compareError ages) compared) as [|e errs] eqn:Herrs.
  - simpl in Hlog, H. injection Hlog as <-. injection H as <- <-. done.
  - destruct (last (e :: errs)) eqn:Hlast; [done|].
    by apply last_None in Hlast.
Qed.

Lemma sortECS_perm arns st work st' :
  sortECSContainersByInstanceAge sortSlice cp d arns st = (Ok work, st') ->
  Permutation arns work.
Proof.
  intros H. apply sortECS_Ok in H as (ages & _ & -> & _).
  apply sortSlice_perm.
Qed.

(** [findInstances] reads [allArns] only to append to it. *)
Lemma findInstances_frame filter sel st :
  findInstances sortSlice cp d filter sel st
  = bind (findInstances sortSlice cp d filter
            {| allArns := []; seen := seen sel |})
      (fun s => ret {| allArns := allArns sel ++ allArns s; seen := seen s |})
      st.
Proof.
  unfold findInstances, listUnseen, bind, ret; simpl.
  destruct (requestPages _ _ _ _ st) as [[acc|e| |] st1]; try done.
  destruct (SortByAge d && (1 <? len (accArns acc))); [|done].
  by destruct (sortECSContainersByInstanceAge _ _ _ _ _) as [[arns|e| |] st3].
Qed.

(** What a successful [findInstances] did. *)
Lemma findInstances_inv filter sel st sel' st' :
  findInstances sortSlice cp d filter sel st = (Ok sel', st') ->
  exists acc arns mid,
    accInv (seen sel) acc /\
    sel' = {| allArns := allArns sel ++ arns; seen := accSeen acc |} /\
    (if SortByAge d && (1 <? len (accArns acc))
     then sortECSContainersByInstanceAge sortSlice cp d (accArns acc)
            (st ++ mid) = (Ok arns, st')
     else arns = accArns acc /\ st' = st ++ mid).
Proof.
  unfold findInstances, listUnseen. intros H.
  apply bind_inv_Ok in H as (acc & st1 & Hlist & H).
  apply requestPages_Ok in Hlist as [Hacc ->].
  apply bind_inv_Ok in H as ([] & st2 & Hout & H).
  rewrite out_run in Hout. injection Hout as <-.
  apply bind_inv_Ok in H as (arns & st3 & Hsort & H).
  injection H as <- <-.
  exists acc, arns. eexists. split_and!; [|done|].
  - rewrite Hacc. apply eachPage_inv, accInv_start.
  - rewrite <- app_assoc in Hsort.
    destruct (SortByAge d && (1 <? len (accArns acc))); [exact Hsort|].
    by injection Hsort as <- <-.
Qed.

(** The block a successful [findInstances] appends: distinct identifiers,
    none of them taken before, all of them taken afterwards. *)
Lemma findInstances_block filter sel st sel' st' :
  findInstances sortSlice cp d filter sel st = (Ok sel', st') ->
  exists block,
    allArns sel' = allArns sel ++ block /\
    NoDup block /\
    seen sel' = seen sel ∪ list_to_set block /\
    (forall x, x ∈ block -> x ∉ seen sel).
Proof.
  intros H. apply findInstances_inv in H
    as (acc & arns & mid & (Hnd & Hseen & Hfresh) & -> & Hsort).
  assert (Hperm : Permutation (accArns acc) arns).
  { destruct (SortByAge d && (1 <? len (accArns acc))).
    - by apply sortECS_perm in Hsort.
    - by destruct Hsort as [-> _]. }
  exists arns; simpl. split_and!; [done| | |].
  - by rewrite <- Hperm.
  - rewrite Hseen. f_equal. apply set_eq. intros x.
    rewrite !elem_of_list_to_set. by rewrite Hperm.
  - intros x Hx. apply Hfresh. by rewrite Hperm.
Qed.
Lemma framed_findInstances filter :
  framed (findInstances sortSlice cp d filter).
Proof. intros sel st. apply findInstances_frame. Qed.

Lemma framed_ret : framed (fun sel => ret sel).
Proof.
  intros [arns s] st. unfold bind, ret; simpl. by rewrite app_nil_r.
Qed.

Lemma framed_bind {A} (m : M A) (tier : A -> Selection -> M Selection) :
  (forall a, framed (tier a)) -> framed (fun sel => a <- m ;; tier a sel).
Proof.
  intros Ht sel st. unfold bind.
  destruct (m st) as [[a|e| |] st1]; try done.
  apply Ht.
Qed.

Lemma appendsBlock_findInstances filter :
  appendsBlock (findInstances sortSlice cp d filter).
Proof. intros sel st sel' st'. apply findInstances_block. Qed.

Lemma appendsBlock_ret : appendsBlock (fun sel => ret sel).
Proof.
  intros sel st sel' st' [= <- <-]. exists []. split_and!.
  - by rewrite app_nil_r.
  - constructor.
  - set_solver.
  - intros x Hx. by apply elem_of_nil in Hx.
Qed.

Lemma appendsBlock_bind {A} (m : M A) (tier : A -> Selection -> M Selection) :
  (forall a, appendsBlock (tier a)) ->
  appendsBlock (fun sel => a <- m ;; tier a sel).
Proof.
  intros Ht sel st sel' st' H.
  apply bind_inv_Ok in H as (a & st1 & _ & H). by eapply Ht.
Qed.

Lemma staleAgentTier_framed : framed (staleAgentTier sortSlice cp d).
Proof.
  unfold staleAgentTier. destruct (decide _); [|apply framed_ret].
  apply (framed_bind _ (fun _ => findInstances sortSlice cp d _)).
  intros _. apply framed_findInstances.
Qed.

Lemma staleAgentTier_block : appendsBlock (staleAgentTier sortSlice cp d).
Proof.
  unfold staleAgentTier. destruct (decide _); [|apply appendsBlock_ret].
  apply (appendsBlock_bind _ (fun _ => findInstances sortSlice cp d _)).
  intros _. apply appendsBlock_findInstances.
Qed.

Lemma instanceTypeTier_framed : framed (instanceTypeTier sortSlice cp d).
Proof.
  unfold instanceTypeTier. destruct (decide _); [|apply framed_ret].
  apply framed_findInstances.
Qed.

Lemma instanceTypeTier_block : appendsBlock (instanceTypeTier sortSlice cp d).
Proof.
  unfold instanceTypeTier. destruct (decide _); [|apply appendsBlock_ret].
  apply appendsBlock_findInstances.
Qed.

Lemma taskCountTier_framed : framed (taskCountTier sortSlice cp d).
Proof.
  unfold taskCountTier. destruct (TaskCountDetect d); [|apply framed_ret].
  apply (framed_bind _ (fun n => findInstances sortSlice cp d _)).
  intros n. apply framed_findInstances.
Qed.

Lemma taskCountTier_block : appendsBlock (taskCountTier sortSlice cp d).
Proof.
  unfold taskCountTier. destruct (TaskCountDetect d); [|apply appendsBlock_ret].
  apply (appendsBlock_bind _ (fun n => findInstances sortSlice cp d _)).
  intros n. apply appendsBlock_findInstances.
Qed.

Lemma leftoverTier_framed : framed (leftoverTier sortSlice cp d).
Proof. apply framed_findInstances. Qed.

Lemma leftoverTier_block : appendsBlock (leftoverTier sortSlice cp d).
Proof. apply appendsBlock_findInstances. Qed.

(** A tier's run on the candidates so far is its run on no candidates,
    with its block appended. *)
Lemma tier_contributes tier sel st sel' st' :
  framed tier ->
  tier sel st = (Ok sel', st') ->
  exists block,
    allArns sel' = allArns sel ++ block /\
    contributes tier (seen sel) st block (seen sel') st'.
Proof.
  intros Hf H. rewrite Hf in H.
  apply bind_inv_Ok in H as ([block s] & st1 & Hrun & [= <- <-]).
  exists block. by split.
Qed.

Lemma tier_selInv tier sel st sel' st' :
  appendsBlock tier -> selInv sel ->
  tier sel st = (Ok sel', st') -> selInv sel'.
Proof.
  intros Hb [Hnd Hseen] H.
  apply Hb in H as (block & Harns & Hndb & Hseen' & Hfresh).
  unfold selInv. rewrite Harns, Hseen', Hseen. split.
  - apply NoDup_app. split_and!; [done| |done].
    intros x Hx Hxb. apply (Hfresh x Hxb).
    rewrite Hseen. by apply elem_of_list_to_set.
  - by rewrite list_to_set_app_L.
Qed.

Lemma mergedCandidates_inv st sel st' :
  mergedCandidates sortSlice cp d st = (Ok sel, st') ->
  exists sel1 st1 sel2 st2 sel3 st3,
    staleAgentTier sortSlice cp d {| allArns := []; seen := ∅ |} st
    = (Ok sel1, st1) /\
    instanceTypeTier sortSlice cp d sel1 st1 = (Ok sel2, st2) /\
    taskCountTier sortSlice cp d sel2 st2 = (Ok sel3, st3) /\
    leftoverTier sortSlice cp d sel3 st3 = (Ok sel, st').
Proof.
  unfold mergedCandidates. intros H.
  apply bind_inv_Ok in H as (sel1 & st1 & H1 & H).
  apply bind_inv_Ok in H as (sel2 & st2 & H2 & H).
  apply bind_inv_Ok in H as (sel3 & st3 & H3 & H).
  by exists sel1, st1, sel2, st2, sel3, st3.
Qed.

Lemma mergedCandidates_selInv st sel st' :
  mergedCandidates sortSlice cp d st = (Ok sel, st') -> selInv sel.
Proof.
  intros H. apply mergedCandidates_inv in H
    as (sel1 & st1 & sel2 & st2 & sel3 & st3 & H1 & H2 & H3 & H4).
  assert (Hi0 : selInv {| allArns := []; seen := ∅ |})
    by (split; [constructor|done]).
  pose proof (tier_selInv _ _ _ _ _ staleAgentTier_block Hi0 H1) as Hi1.
  pose proof (tier_selInv _ _ _ _ _ instanceTypeTier_block Hi1 H2) as Hi2.
  pose proof (tier_selInv _ _ _ _ _ taskCountTier_block Hi2 H3) as Hi3.
  exact (tier_selInv _ _ _ _ _ leftoverTier_block Hi3 H4).
Qed.

Lemma mergedCandidates_blocks st sel st' :
  mergedCandidates sortSlice cp d st = (Ok sel, st') ->
  exists b1 st1 b2 st2 b3 st3 b4,
    tierBlocks sortSlice cp d st b1 st1 b2 st2 b3 st3 b4 st' /\
    allArns sel = b1 ++ b2 ++ b3 ++ b4.
Proof.
  intros H. apply mergedCandidates_inv in H
    as (sel1 & st1 & sel2 & st2 & sel3 & st3 & H1 & H2 & H3 & H4).
  apply (tier_contributes _ _ _ _ _ staleAgentTier_framed) in H1
    as (b1 & Ha1 & Hc1).
  apply (tier_contributes _ _ _ _ _ instanceTypeTier_framed) in H2
    as (b2 & Ha2 & Hc2).
  apply (tier_contributes _ _ _ _ _ taskCountTier_framed) in H3
    as (b3 & Ha3 & Hc3).
  apply (tier_contributes _ _ _ _ _ leftoverTier_framed) in H4
    as (b4 & Ha4 & Hc4).
  exists b1, st1, b2, st2, b3, st3, b4. split.
  - by exists (seen sel1), (seen sel2), (seen sel3), (seen sel).
  - rewrite Ha4, Ha3, Ha2, Ha1. simpl. by rewrite <- !app_assoc.
Qed.

(** What a successful selector did: it cut the merged candidates. *)
Lemma findDrainable_inv st out st' :
  findDrainableContainerInstances sortSlice cp d st = (Ok out, st') ->
  exists sel,
    mergedCandidates sortSlice cp d st = (Ok sel, st') /\
    0 < sub64 (len (allArns sel)) (DesiredCount d) <= len (allArns sel) /\
    out = take (Z.to_nat (sub64 (len (allArns sel)) (DesiredCount d)))
            (allArns sel).
Proof.
  unfold findDrainableContainerInstances. intros H.
  apply bind_inv_Ok in H as (sel & st1 & Hm & H).
  exists sel.
  destruct (_ <=? 0) eqn:Hle; [done|].
  apply Z.leb_gt in Hle.
  unfold slice in H.
  destruct (_ && _) eqn:Hb; [|done].
  injection H as <- <-.
  apply andb_prop in Hb as [Hb Hhi]. apply Z.leb_le in Hhi.
  split_and!; [done|lia|lia|]. by rewrite Z.sub_0_r.
Qed.
Lemma prefix_order {A} (l1 l2 : list A) n i j x y :
  NoDup (l1 ++ l2) ->
  take n (l1 ++ l2) !! i = Some x ->
  take n (l1 ++ l2) !! j = Some y ->
  x ∈ l1 -> y ∈ l2 -> (i < j)%nat.
Proof.
  intros Hnd [Hi _]%lookup_take_Some [Hj _]%lookup_take_Some Hx Hy.
  apply list_elem_of_lookup in Hx as [i' Hi'].
  apply list_elem_of_lookup in Hy as [j' Hj'].
  pose proof (lookup_lt_Some _ _ _ Hi') as Hlt.
  assert (i = i') as ->.
  { eapply NoDup_lookup; [done..|]. by apply lookup_app_l_Some. }
  assert (j = (length l1 + j')%nat) as ->.
  { eapply NoDup_lookup; [done..|].
    rewrite lookup_app_r by lia.
    by replace (length l1 + j' - length l1)%nat with j' by lia. }
  lia.
Qed.

(** C4.  Whatever tiers are enabled and however their listings overlap,
    within a page, across the pages of one listing or across tiers, no
    container-instance identifier occurs twice in the list the selector
    returns. *)
Theorem selector_output_NoDup st out st' :
  findDrainableContainerInstances sortSlice cp d st = (Ok out, st') ->
  NoDup out.
Proof.
  intros H. apply findDrainable_inv in H as (sel & Hm & _ & ->).
  apply mergedCandidates_selInv in Hm as [Hnd _].
  eapply sublist_NoDup; [exact Hnd|apply sublist_take].
Qed.

(** C3.  Once the tiers have listed the instances (the merged candidates
    are the distinct identifiers seen), the selector looks at their number
    minus the desired count: if it is positive the selector returns the
    first that many candidates, a list of exactly that length; otherwise
    it returns the insufficient-capacity error, not an empty list.  The
    desired count is a non-negative [int64], the number of candidates an
    [int]. *)
Theorem selector_output_length st sel st' :
  mergedCandidates sortSlice cp d st = (Ok sel, st') ->
  0 <= DesiredCount d < 2 ^ 63 ->
  len (allArns sel) < 2 ^ 63 ->
  let currentCount := len (allArns sel) in
  let drainCount := currentCount - DesiredCount d in
  currentCount = Z.of_nat (size (seen sel)) /\
  (0 < drainCount ->
   exists out,
     findDrainableContainerInstances sortSlice cp d st = (Ok out, st') /\
     len out = drainCount /\
     out = take (Z.to_nat drainCount) (allArns sel)) /\
  (drainCount <= 0 ->
   findDrainableContainerInstances sortSlice cp d st
   = (Err (ErrInsufficient (DesiredCount d) currentCount), st')).
Proof.
  intros Hm Hd Hlen currentCount drainCount.
  pose proof (len_nonneg (allArns sel)) as Hnn.
  assert (Hsub : sub64 (len (allArns sel)) (DesiredCount d) = drainCount).
  { apply wrap64_id. unfold int64_range, drainCount, currentCount. lia. }
  split_and!.
  - apply mergedCandidates_selInv in Hm as [Hnd ->].
    unfold currentCount, len. by rewrite size_list_to_set.
  - intros Hpos. eexists.
    unfold findDrainableContainerInstances.
    rewrite (bind_Ok _ _ _ _ _ Hm), Hsub.
    destruct (drainCount <=? 0) eqn:Hle; [apply Z.leb_le in Hle; lia|].
    unfold slice.
    replace ((0 <=? 0) && (0 <=? drainCount)
             && (drainCount <=? len (allArns sel))) with true
      by (symmetry; rewrite !andb_true_iff, !Z.leb_le;
          unfold drainCount, currentCount; lia).
    change (Z.to_nat 0) with 0%nat. rewrite drop_0, Z.sub_0_r.
    split_and!; [done| |done].
    unfold len. rewrite length_take_le; [lia|].
    unfold drainCount, currentCount, len in *. lia.
  - intros Hle. unfold findDrainableContainerInstances.
    rewrite (bind_Ok _ _ _ _ _ Hm), Hsub.
    by apply Z.leb_le in Hle as ->.
Qed.

(** C7.  The list the selector returns is a prefix of the four tiers'
    blocks laid end to end in the order stale agent, instance type, task
    count, leftover; so an instance that a tier contributed stands before
    every instance contributed by a later tier. *)
Theorem selector_tier_order st out st' :
  findDrainableContainerInstances sortSlice cp d st = (Ok out, st') ->
  exists b1 st1 b2 st2 b3 st3 b4 n,
    tierBlocks sortSlice cp d st b1 st1 b2 st2 b3 st3 b4 st' /\
    out = take n (b1 ++ b2 ++ b3 ++ b4) /\
    (forall i j x y,
       out !! i = Some x -> out !! j = Some y ->
       x ∈ b1 -> y ∈ b2 ++ b3 ++ b4 -> (i < j)%nat) /\
    (forall i j x y,
       out !! i = Some x -> out !! j = Some y ->
       x ∈ b1 ++ b2 -> y ∈ b3 ++ b4 -> (i < j)%nat) /\
    (forall i j x y,
       out !! i = Some x -> out !! j = Some y ->
       x ∈ b1 ++ b2 ++ b3 -> y ∈ b4 -> (i < j)%nat).
Proof.
  intros H. apply findDrainable_inv in H as (sel & Hm & _ & ->).
  pose proof (mergedCandidates_selInv _ _ _ Hm) as [Hnd _].
  apply mergedCandidates_blocks in Hm
    as (b1 & st1 & b2 & st2 & b3 & st3 & b4 & Hblocks & Harns).
  rewrite Harns in *.
  exists b1, st1, b2, st2, b3, st3, b4. eexists. split_and!; [done|done|..].
  - intros i j x y. by apply prefix_order.
  - intros i j x y.
    replace (b1 ++ b2 ++ b3 ++ b4) with ((b1 ++ b2) ++ b3 ++ b4) in *
      by (by rewrite <- !app_assoc).
    by apply prefix_order.
  - intros i j x y.
    replace (b1 ++ b2 ++ b3 ++ b4) with ((b1 ++ b2 ++ b3) ++ b4) in *
      by (by rewrite <- !app_assoc).
    by apply prefix_order.
Qed.
End Selector.

(** ** The age sort *)

Section AgeSort.
Variable sortSlice :
  (string -> string -> bool) -> list string ->
  list string * list (string * string).
Variable cp : ControlPlane.
Variable d : Config.

(** What the package relies on of [sort.Slice]: it permutes the slice;
    when the comparison is a strict weak order on the elements, no
    element is left after one that compares greater; and sorting two or
    more elements involves each of them in a comparison. *)
Hypothesis sortSlice_perm :
  forall less l, Permutation l (fst (sortSlice less l)).
Hypothesis sortSlice_sorted :
  forall less l,
    (forall x y, In x l -> In y l -> less x y = true -> less y x = false) ->
    (forall x y z, In x l -> In y l -> In z l ->
       less x y = false -> less y z = false -> less x z = false) ->
    StronglySorted (fun a b => less b a = false) (fst (sortSlice less l)).
Hypothesis sortSlice_compares :
  forall less l x,
    (2 <= length l)%nat -> In x l ->
    exists c, In c (snd (sortSlice less l)) /\ (fst c = x \/ snd c = x).

Lemma omap_nil_None {A B} (f : A -> option B) (l : list A) c :
  omap f l = [] -> c ∈ l -> f c = None.
Proof.
  intros Hnil Hc. destruct (f c) as [b|] eqn:Hf; [|done].
  assert (Hb : b ∈ omap f l) by (apply list_elem_of_omap; eauto).
  rewrite Hnil in Hb. by apply elem_of_nil in Hb.
Qed.

Lemma compareError_None ages c :
  compareError ages c = None ->
  is_Some (ageOf ages (fst c)) /\ is_Some (ageOf ages (snd c)).
Proof.
  unfold compareError.
  destruct (ageOf ages (fst c)); [|done].
  destruct (ageOf ages (snd c)); [|done]. eauto.
Qed.

(** Without a failed comparison every element has a launch time. *)
Lemma compared_all_resolved ages arns x :
  (2 <= length arns)%nat ->
  omap (compareError ages) (snd (sortSlice (lessByAge ages) arns)) = [] ->
  x ∈ arns -> is_Some (ageOf ages x).
Proof.
  intros Hlen Hnil Hx.
  destruct (sortSlice_compares (lessByAge ages) arns x Hlen) as (c & Hc & Hor);
    [by apply list_elem_of_In|].
  apply list_elem_of_In in Hc.
  apply (omap_nil_None _ _ _ Hnil), compareError_None in Hc as [H1 H2].
  by destruct Hor as [<-|<-].
Qed.

Lemma sorted_by_age ages arns :
  (2 <= length arns)%nat ->
  omap (compareError ages) (snd (sortSlice (lessByAge ages) arns)) = [] ->
  StronglySorted (ageLe ages) (fst (sortSlice (lessByAge ages) arns)).
Proof.
  intros Hlen Hnil.
  assert (Hres : forall x, In x arns -> is_Some (ageOf ages x)).
  { intros x Hx. apply (compared_all_resolved ages arns); [done..|].
    by apply list_elem_of_In. }
  eapply StronglySorted_weaken; [|apply sortSlice_sorted].
  - intros a b Ha Hb Hless. unfold ageLe.
    rewrite <- (sortSlice_perm (lessByAge ages) arns) in Ha, Hb.
    apply list_elem_of_In, Hres in Ha as [ta Hta].
    apply list_elem_of_In, Hres in Hb as [tb Htb].
    unfold lessByAge in Hless. rewrite Hta, Htb in Hless.
    exists ta, tb. split_and!; [done..|]. apply Z.ltb_ge in Hless. lia.
  - intros x y Hx Hy. unfold lessByAge.
    destruct (Hres x Hx) as [tx ->], (Hres y Hy) as [ty ->].
    rewrite Z.ltb_lt, Z.ltb_ge. lia.
  - intros x y z Hx Hy Hz. unfold lessByAge.
    destruct (Hres x Hx) as [tx ->], (Hres y Hy) as [ty ->],
      (Hres z Hz) as [tz ->].
    rewrite !Z.ltb_ge. lia.
Qed.

Lemma StronglySorted_take {A} (R : A -> A -> Prop) (l : list A) k :
  StronglySorted R l -> StronglySorted R (take k l).
Proof.
  intros Hs. rewrite <- (take_drop k l) in Hs.
  by apply StronglySorted_app_1_l in Hs.
Qed.

(** The block of one listing, sorted. *)
Lemma findInstances_sortedByAge filter seen0 st block seen1 st' :
  SortByAge d = true ->
  contributes (findInstances sortSlice cp d filter) seen0 st block seen1 st' ->
  sortedByAge cp d filter seen0 st block st'.
Proof.
  intros Hsort Hrun. unfold contributes, findInstances in Hrun.
  cbn [seen allArns] in Hrun.
  apply bind_inv_Ok in Hrun as (acc & stL & Hlist & Hrun).
  apply bind_inv_Ok in Hrun as ([] & reported & Hout & Hrun).
  rewrite out_run in Hout. injection Hout as <-.
  apply bind_inv_Ok in Hrun as (arns & st3 & Hcase & Hret).
  injection Hret as <- _ <-.
  exists acc, stL. split; [exact Hlist|].
  rewrite Hsort in Hcase. cbn [andb] in Hcase.
  change (len (@nil string)) with 0 in Hcase.
  destruct (decide (2 <= length (accArns acc))%nat) as [Hlen|Hlen].
  - replace (1 <? len (accArns acc)) with true in Hcase
      by (symmetry; apply Z.ltb_lt; unfold len; lia).
    apply sortECS_Ok in Hcase as (ages & Hres & -> & Hnil).
    split; [apply sortSlice_perm|].
    exists ages. split; [exact Hres|].
    intros k. by apply StronglySorted_take, sorted_by_age.
  - replace (1 <? len (accArns acc)) with false in Hcase
      by (symmetry; apply Z.ltb_ge; unfold len; lia).
    injection Hcase as <- <-. by split.
Qed.

(** C8.  With age sorting enabled, each tier's contribution is sorted on
    its own by ascending launch time before it is appended.  The four
    tiers contribute the blocks [b1] to [b4], in this order, and the list
    the selector returns is made of a prefix of each.  The block of a
    tier that is switched off is empty.  The block of a tier that lists
    is a permutation of the candidates its own listing has collected,
    and, when these are two or more, it is in non-decreasing order of the
    launch times that the age sort has resolved for this tier, as is
    every prefix of it: the oldest instance comes first within the
    block, whatever the launch times in the other blocks. *)
Theorem selector_age_sorted st out st' :
  SortByAge d = true ->
  findDrainableContainerInstances sortSlice cp d st = (Ok out, st') ->
  exists b1 s1 st1 b2 s2 st2 b3 s3 st3 b4 s4 n1 n2 n3 n4,
    contributes (staleAgentTier sortSlice cp d) ∅ st b1 s1 st1 /\
    contributes (instanceTypeTier sortSlice cp d) s1 st1 b2 s2 st2 /\
    contributes (taskCountTier sortSlice cp d) s2 st2 b3 s3 st3 /\
    contributes (leftoverTier sortSlice cp d) s3 st3 b4 s4 st' /\
    out = take n1 b1 ++ take n2 b2 ++ take n3 b3 ++ take n4 b4 /\
    (if decide (AgentVersionThreshold d ≠ "")
     then
       sortedByAge cp d ("agentVersion < " +:+ AgentVersionThreshold d) ∅
         (st ++ [EvOut (OutFinding
                          ("agentVersion < " +:+ AgentVersionThreshold d))])
         b1 st1
     else b1 = []) /\
    (if decide (InstanceType d ≠ "")
     then
       sortedByAge cp d ("attribute:ecs.instance-type == " +:+ InstanceType d)
         s1 st1 b2 st2
     else b2 = []) /\
    (if TaskCountDetect d
     then
       exists runningCount counted,
         drainAtTaskCount cp d st2 = (Ok runningCount, counted) /\
         sortedByAge cp d ("runningTasksCount <= " +:+ pretty runningCount)
           s2 counted b3 st3
     else b3 = []) /\
    sortedByAge cp d "" s3 st3 b4 st'.
Proof.
  intros Hsort H.
  apply (findDrainable_inv sortSlice cp d) in H as (sel & Hm & _ & ->).
  apply (mergedCandidates_blocks sortSlice cp d) in Hm
    as (b1 & st1 & b2 & st2 & b3 & st3 & b4 & Hblocks & ->).
  destruct Hblocks as (s1 & s2 & s3 & s4 & H1 & H2 & H3 & H4).
  exists b1, s1, st1, b2, s2, st2, b3, s3, st3, b4, s4.
  do 4 eexists. split_and!; [exact H1|exact H2|exact H3|exact H4| | | | |].
  - rewrite !take_app. reflexivity.
  - unfold contributes, staleAgentTier in H1.
    destruct (decide (AgentVersionThreshold d ≠ "")).
    + apply bind_inv_Ok in H1 as ([] & found & Hout & H1).
      rewrite out_run in Hout. injection Hout as <-.
      by apply findInstances_sortedByAge in H1.
    + by injection H1 as <- _ _.
  - unfold contributes, instanceTypeTier in H2.
    destruct (decide (InstanceType d ≠ "")).
    + by apply findInstances_sortedByAge in H2.
    + by injection H2 as <- _ _.
  - unfold contributes, taskCountTier in H3.
    destruct (TaskCountDetect d).
    + apply bind_inv_Ok in H3 as (runningCount & counted & Hcount & H3).
      exists runningCount, counted. split; [exact Hcount|].
      by apply findInstances_sortedByAge in H3.
    + by injection H3 as <- _ _.
  - by apply findInstances_sortedByAge in H4.
Qed.
Lemma forEach_log_run (errs : list error) st :
  forEach errs (fun e => out (LogError e)) st
  = (Ok tt, st ++ map (fun e => EvOut (LogError e)) errs).
Proof.
  revert st. induction errs as [|e errs IH]; intros st; simpl.
  - by rewrite app_nil_r.
  - unfold bind. rewrite out_run, IH. by rewrite <- app_assoc.
Qed.

(** What the age sort does once the launch times are looked up. *)
Lemma sortECS_run arns st ages st1 :
  resolveLaunchTimes cp d arns st = (Ok ages, st1) ->
  let errs :=
    omap (compareError ages) (snd (sortSlice (lessByAge ages) arns)) in
  sortECSContainersByInstanceAge sortSlice cp d arns st
  = (match last errs with
     | Some err => Err err
     | None => Ok (fst (sortSlice (lessByAge ages) arns))
     end,
     st1 ++ map (fun e => EvOut (LogError e)) errs).
Proof.
  intros Hres errs. unfold sortECSContainersByInstanceAge.
  rewrite (bind_Ok _ _ _ _ _ Hres).
  destruct (sortSlice (lessByAge ages) arns) as [work compared]; simpl.
  unfold bind. rewrite forEach_log_run. subst errs. simpl.
  by destruct (last _).
Qed.

Lemma noAgeLog_app st new :
  noAgeLog st -> Forall notAgeLog new -> noAgeLog (st ++ new).
Proof.
  intros Hst Hnew a Hin. apply elem_of_app in Hin as [Hin|Hin].
  - by apply (Hst a).
  - rewrite Forall_forall in Hnew. by apply (Hnew _ Hin a).
Qed.

Lemma footprint_notAgeLog : footprint notAgeLog (fun _ => True).
Proof.
  split_and!; [|done..].
  intros o Hn a [= ->]. by apply Hn.
Qed.

(** A computation that logs no failed comparison keeps the state free of
    them. *)
Lemma clean_of_behaves {A} (m : M A) st :
  behaves notAgeLog (fun _ => True) m ->
  noAgeLog st -> noAgeLog (snd (m st)).
Proof.
  intros Hm Hst.
  destruct (Hm st) as [(new & -> & Hnew) _]. by apply noAgeLog_app.
Qed.

Lemma stops_of_behaves {A} (m : M A) :
  behaves notAgeLog (fun _ => True) m -> stopsOnAgeError m.
Proof. intros Hm st Hst. left. by apply clean_of_behaves. Qed.

Lemma stops_bind {A B} (m : M A) (f : A -> M B) :
  stopsOnAgeError m -> (forall a, stopsOnAgeError (f a)) ->
  stopsOnAgeError (bind m f).
Proof.
  intros Hm Hf st Hst. unfold bind.
  destruct (Hm st Hst) as [Hclean|(a & Hr & Hlast)].
  - destruct (m st) as [[x|e| |] st1]; simpl in *; try by left.
    by apply Hf.
  - destruct (m st) as [[x|e| |] st1]; simpl in *; try done.
    injection Hr as ->. right. by exists a.
Qed.

Lemma stops_ret {A} (a : A) : stopsOnAgeError (ret a).
Proof. intros st Hst. by left. Qed.

Lemma stops_sortECS arns :
  stopsOnAgeError (sortECSContainersByInstanceAge sortSlice cp d arns).
Proof using Type.
  clear sortSlice_perm sortSlice_sorted sortSlice_compares.
  intros st Hst.
  destruct (resolveLaunchTimes cp d arns st) as [r st1] eqn:Hres.
  assert (Hst1 : noAgeLog st1).
  { change st1 with (snd (r, st1)). rewrite <- Hres.
    apply clean_of_behaves; [|done].
    apply resolveLaunchTimes_behaves, footprint_notAgeLog. }
  destruct r as [ages|e| |].
  - rewrite (sortECS_run _ _ _ _ Hres). simpl.
    destruct (omap _ _) as [|e errs _] eqn:Herrs using rev_ind.
    + left. by rewrite app_nil_r.
    + right. rewrite last_snoc.
      assert (He : e ∈ omap (compareError ages)
                     (snd (sortSlice (lessByAge ages) arns)))
        by (rewrite Herrs; set_solver).
      apply compareErrors_age in He as (a & -> & _).
      exists a. split; [done|].
      rewrite map_app, app_assoc. cbn [map]. by rewrite last_snoc.
  - left. unfold sortECSContainersByInstanceAge, bind. by rewrite Hres.
  - left. unfold sortECSContainersByInstanceAge, bind. by rewrite Hres.
  - left. unfold sortECSContainersByInstanceAge, bind. by rewrite Hres.
Qed.
Local Ltac quiet :=
  apply stops_of_behaves;
  first
    [ apply drainAtTaskCount_behaves
    | apply ecsService_behaves
    | apply finish_behaves
    | behave ];
  first
    [ exact footprint_notAgeLog
    | solve [ intros ?; discriminate ]
    | solve [ intros; discriminate ]
    | done
    | idtac ].

Lemma stops_findInstances filter sel :
  stopsOnAgeError (findInstances sortSlice cp d filter sel).
Proof.
  unfold findInstances.
  apply stops_bind; [unfold listUnseen; quiet|intros acc].
  apply stops_bind; [quiet|intros _].
  apply stops_bind; [|intros arns; apply stops_ret].
  destruct (_ && _); [apply stops_sortECS|apply stops_ret].
Qed.

Lemma stops_mergedCandidates :
  stopsOnAgeError (mergedCandidates sortSlice cp d).
Proof.
  unfold mergedCandidates.
  apply stops_bind; [|intros sel1].
  { unfold staleAgentTier. destruct (decide _); [|apply stops_ret].
    apply stops_bind; [quiet|intros _]. apply stops_findInstances. }
  apply stops_bind; [|intros sel2].
  { unfold instanceTypeTier. destruct (decide _); [|apply stops_ret].
    apply stops_findInstances. }
  apply stops_bind; [|intros sel3].
  { unfold taskCountTier. destruct (TaskCountDetect d); [|apply stops_ret].
    apply stops_bind; [quiet|intros n]. apply stops_findInstances. }
  apply stops_findInstances.
Qed.

Lemma stops_findDrainable :
  stopsOnAgeError (findDrainableContainerInstances sortSlice cp d).
Proof.
  unfold findDrainableContainerInstances.
  apply stops_bind; [apply stops_mergedCandidates|intros sel]. quiet.
Qed.

Lemma stops_Run fuel : stopsOnAgeError (Run sortSlice cp d fuel).
Proof.
  unfold Run.
  apply stops_bind; [apply stops_findDrainable|intros cis].
  apply stops_bind; [quiet|intros _].
  apply stops_bind; [quiet|intros s].
  apply stops_bind; [quiet|intros original].
  destruct (_ =? 0); quiet.
Qed.

Lemma stopped {A} (m : M A) st a :
  stopsOnAgeError m -> noAgeLog st ->
  EvOut (LogError (ErrAgeEmpty a)) ∈ snd (m st) ->
  exists a',
    fst (m st) = Err (ErrAgeEmpty a') /\
    last (snd (m st)) = Some (EvOut (LogError (ErrAgeEmpty a'))).
Proof.
  intros Hm Hst Hin. destruct (Hm st Hst) as [Hclean|H]; [|done].
  by destruct (Hclean a).
Qed.

(** C9.  In the age sort of two or more candidates, a candidate whose
    launch time the lookups did not resolve makes
    [sortECSContainersByInstanceAge] return an error, the one of a
    comparison that met a missing launch time; then [findInstances]
    returns that error instead of a block.  And whenever such a comparison
    has happened in a run, of the selector or of [Run], the run has
    returned its error and nothing was done after its log line. *)
Theorem unresolved_launch_time_aborts :
  (forall arns st ages st1 a,
     (2 <= length arns)%nat ->
     resolveLaunchTimes cp d arns st = (Ok ages, st1) ->
     a ∈ arns -> ageOf ages a = None ->
     exists a' st2,
       sortECSContainersByInstanceAge sortSlice cp d arns st
       = (Err (ErrAgeEmpty a'), st2) /\
       ageOf ages a' = None /\
       last st2 = Some (EvOut (LogError (ErrAgeEmpty a')))) /\
  (forall filter sel st acc st1 ages st2 a,
     SortByAge d = true ->
     listUnseen cp d filter (seen sel) st = (Ok acc, st1) ->
     (2 <= length (accArns acc))%nat ->
     resolveLaunchTimes cp d (accArns acc)
       (st1 ++ [EvOut (OutAdded filter (sub64 (len (accArns acc)) 0)
                         (accSkipped acc))])
     = (Ok ages, st2) ->
     a ∈ accArns acc -> ageOf ages a = None ->
     exists a' st3,
       findInstances sortSlice cp d filter sel st
       = (Err (ErrAgeEmpty a'), st3)) /\
  (forall st a,
     noAgeLog st ->
     let run := findDrainableContainerInstances sortSlice cp d st in
     EvOut (LogError (ErrAgeEmpty a)) ∈ snd run ->
     exists a',
       fst run = Err (ErrAgeEmpty a') /\
       last (snd run) = Some (EvOut (LogError (ErrAgeEmpty a')))) /\
  (forall fuel st a,
     noAgeLog st ->
     let run := Run sortSlice cp d fuel st in
     EvOut (LogError (ErrAgeEmpty a)) ∈ snd run ->
     exists a',
       fst run = Err (ErrAgeEmpty a') /\
       last (snd run) = Some (EvOut (LogError (ErrAgeEmpty a')))).
Proof using sortSlice_compares.
  clear sortSlice_perm sortSlice_sorted.
  assert (Hsort : forall arns st ages st1 a,
     (2 <= length arns)%nat ->
     resolveLaunchTimes cp d arns st = (Ok ages, st1) ->
     a ∈ arns -> ageOf ages a = None ->
     exists a' st2,
       sortECSContainersByInstanceAge sortSlice cp d arns st
       = (Err (ErrAgeEmpty a'), st2) /\
       ageOf ages a' = None /\
       last st2 = Some (EvOut (LogError (ErrAgeEmpty a')))).
  { intros arns st ages st1 a Hlen Hres Ha Hnone.
    rewrite (sortECS_run _ _ _ _ Hres). simpl.
    destruct (omap _ _) as [|e errs _] eqn:Herrs using rev_ind.
    - pose proof (compared_all_resolved ages arns a Hlen Herrs Ha) as [t Ht].
      congruence.
    - assert (He : e ∈ omap (compareError ages)
                     (snd (sortSlice (lessByAge ages) arns)))
        by (rewrite Herrs; set_solver).
      apply compareErrors_age in He as (a' & -> & Hnone').
      rewrite last_snoc. eexists a', _. split_and!; [done..|].
      rewrite map_app, app_assoc. cbn [map]. by rewrite last_snoc. }
  split_and!.
  - exact Hsort.
  - intros filter sel st acc st1 ages st2 a Hage Hlist Hlen Hres Ha Hnone.
    destruct (Hsort _ _ _ _ _ Hlen Hres Ha Hnone) as (a' & st3 & Hrun & _).
    exists a', st3. unfold findInstances.
    rewrite (bind_Ok _ _ _ _ _ Hlist). unfold bind at 1. rewrite out_run.
    rewrite Hage. simpl.
    replace (1 <? len (accArns acc)) with true
      by (symmetry; apply Z.ltb_lt; unfold len; lia).
    by rewrite (bind_Err _ _ _ _ _ Hrun).
  - intros st a Hst run. by apply stopped; [apply stops_findDrainable|].
  - intros fuel st a Hst run. by apply stopped; [apply stops_Run|].
Qed.
End AgeSort.

(** ** The orchestrator *)

Section Orchestrator.
Variable sortSlice :
  (string -> string -> bool) -> list string ->
  list string * list (string * string).
Variable cp : ControlPlane.
Variable d : Config.

Lemma footprint_any : footprint (fun _ => True) (fun _ => True).
Proof. by split_and!. Qed.

Lemma footprint_notNoRoom :
  footprint (fun _ => True) (fun e => ~ isNoRoom e).
Proof. by split_and!. Qed.

Lemma footprint_keepsCapacity :
  footprint (fun ev => forall c, ev = EvCall c -> ~ lowersCapacity c)
    (fun _ => True).
Proof.
  split_and!; [done| |done].
  intros c Hc c' [= <-]. exact Hc.
Qed.

(** [Run] once the selector and the description of the service have
    succeeded. *)
Lemma Run_after_init fuel st cis st1 s st2 original :
  findDrainableContainerInstances sortSlice cp d st = (Ok cis, st1) ->
  ecsService cp d (st1 ++ [EvOut (OutFound (len cis))]) = (Ok s, st2) ->
  SvcDesiredCount s = Some original ->
  Run sortSlice cp d fuel st
  = (if sub64 original (DesiredCount d) =? 0
     then fail (ErrNoRoom (len cis))
     else
       batchLoop cp d fuel cis (sub64 original (DesiredCount d)) 0 s ;;;
       out OutStars ;;;
       if InstanceFlip d
       then restoreTaskCount cp d original
       else updateASG cp d (DesiredCount d) true) st2.
Proof.
  intros Hsel Hsvc Hcount. unfold Run.
  rewrite (bind_Ok _ _ _ _ _ Hsel).
  unfold bind at 1. rewrite out_run.
  rewrite (bind_Ok _ _ _ _ _ Hsvc).
  rewrite Hcount. reflexivity.
Qed.

Lemma batchLoop_done fuel cis maxToRemove start s st :
  (start <? len cis) && (start <? maxToRemove) = false ->
  batchLoop cp d fuel cis maxToRemove start s st = (Ok s, st).
Proof. intros H. destruct fuel; simpl; by rewrite H. Qed.

Lemma updateASG_run (minSize : Z) (setMax : bool) st :
  let maxSize := if setMax then Some minSize else None in
  let call := EvCall (UpdateAutoScalingGroup (ASG d) minSize minSize maxSize) in
  exists rest,
    snd (updateASG cp d minSize setMax st) = st ++ [call] ++ rest /\
    (cpUpdateAutoScalingGroup cp st (ASG d) minSize minSize maxSize = None ->
     cpWaitUntilGroupInService cp (st ++ [call]) [ASG d] = None ->
     updateASG cp d minSize setMax st
     = (Ok tt, st ++ [call; EvCall (WaitUntilGroupInService [ASG d])])).
Proof.
  intros maxSize call. unfold updateASG, bind, request_.
  fold maxSize. fold call.
  destruct (cpUpdateAutoScalingGroup cp st (ASG d) minSize minSize maxSize).
  - exists []. split; [done|]. discriminate.
  - destruct (cpWaitUntilGroupInService cp (st ++ [call]) [ASG d]).
    + eexists. split; [by rewrite <- app_assoc|]. discriminate.
    + eexists. split; [by rewrite <- app_assoc|].
      intros _ _. by rewrite <- app_assoc.
Qed.

(** C10.  Once the selector and the description of the service have
    succeeded, [Run] returns the no-room error exactly when the service's
    current desired count equals the configured one, and then stops on
    the spot.  When the current count is below the configured one the
    batch loop runs zero times: after the line of stars [Run] goes
    straight to its last step, which without flip mode is the request
    that sets the group's minimum, desired and maximum size to the
    configured count, and [Run] succeeds when that request and the wait
    after it do.  Both counts are non-negative [int64] values. *)
Theorem no_room_exactly_on_equal_counts fuel st cis st1 s st2 original :
  findDrainableContainerInstances sortSlice cp d st = (Ok cis, st1) ->
  ecsService cp d (st1 ++ [EvOut (OutFound (len cis))]) = (Ok s, st2) ->
  SvcDesiredCount s = Some original ->
  0 <= original < 2 ^ 63 -> 0 <= DesiredCount d < 2 ^ 63 ->
  let run := Run sortSlice cp d fuel st in
  let target := DesiredCount d in
  let update :=
    EvCall (UpdateAutoScalingGroup (ASG d) target target (Some target)) in
  ((exists n, fst run = Err (ErrNoRoom n)) <-> original = target) /\
  (original = target -> run = (Err (ErrNoRoom (len cis)), st2)) /\
  (original < target ->
   run = (if InstanceFlip d
          then restoreTaskCount cp d original
          else updateASG cp d target true) (st2 ++ [EvOut OutStars])) /\
  (original < target -> InstanceFlip d = false ->
   (exists rest, snd run = st2 ++ [EvOut OutStars; update] ++ rest) /\
   (cpUpdateAutoScalingGroup cp (st2 ++ [EvOut OutStars])
      (ASG d) target target (Some target) = None ->
    cpWaitUntilGroupInService cp (st2 ++ [EvOut OutStars; update]) [ASG d]
    = None ->
    run = (Ok tt,
           st2 ++ [EvOut OutStars; update;
                   EvCall (WaitUntilGroupInService [ASG d])]))).
Proof.
  intros Hsel Hsvc Hcount Horig Htarget run target update.
  pose proof (Run_after_init fuel _ _ _ _ _ _ Hsel Hsvc Hcount) as Hrun.
  fold run in Hrun. fold target in Hrun.
  assert (Hzero : sub64 original target = 0 <-> original = target).
  { apply sub64_zero; unfold int64_range, target; lia. }
  assert (Hless : original < target ->
    run = (if InstanceFlip d
           then restoreTaskCount cp d original
           else updateASG cp d target true) (st2 ++ [EvOut OutStars])).
  { intros Hlt. rewrite Hrun.
    destruct (sub64 original target =? 0) eqn:Hz;
      [apply Z.eqb_eq, Hzero in Hz; lia|].
    assert (Hneg : sub64 original target < 0).
    { unfold sub64. rewrite wrap64_id; unfold int64_range, target in *; lia. }
    unfold bind at 1. rewrite batchLoop_done.
    2:{ apply andb_false_iff. right. apply Z.ltb_ge. lia. }
    unfold bind at 1. by rewrite out_run. }
  split_and!.
  - split.
    + intros [n Hn]. rewrite Hrun in Hn.
      destruct (sub64 original target =? 0) eqn:Hz;
        [by apply Z.eqb_eq, Hzero in Hz|].
      exfalso.
      destruct (finish_behaves cp d (fun _ => True) (fun e => ~ isNoRoom e)
                  footprint_notNoRoom fuel cis (sub64 original target)
                  s original ltac:(done) st2) as [_ He].
      by apply (He _ Hn).
    + intros Heq. exists (len cis). rewrite Hrun.
      apply Hzero in Heq. by rewrite Heq.
  - intros Heq. rewrite Hrun. apply Hzero in Heq. by rewrite Heq.
  - exact Hless.
  - intros Hlt Hflip. rewrite (Hless Hlt), Hflip.
    destruct (updateASG_run target true (st2 ++ [EvOut OutStars]))
      as (rest & Hst & Hok).
    simpl in Hst, Hok. split.
    + exists rest. rewrite Hst. by rewrite <- !app_assoc.
    + intros Hup Hwait. rewrite <- !app_assoc in Hok. simpl in Hok.
      by apply Hok.
Qed.

(** C6.  In flip mode no request of the run lowers the desired or
    minimum capacity of the instance group: among the events that [Run]
    adds, in the batches and in its last step, there is no update of the
    group and no termination that decrements the desired capacity. *)
Theorem flip_never_lowers_capacity fuel st :
  InstanceFlip d = true ->
  exists new,
    snd (Run sortSlice cp d fuel st) = st ++ new /\
    Forall (fun ev => forall c, ev = EvCall c -> ~ lowersCapacity c) new.
Proof.
  intros Hflip.
  apply (behaves_extends _ (fun _ => True)).
  apply Run_behaves.
  - apply footprint_keepsCapacity.
  - intros e c. discriminate.
  - rewrite Hflip. discriminate.
  - done.
Qed.
Lemma bind_assoc {A B C} (m : M A) (f : A -> M B) (g : B -> M C) st :
  bind (bind m f) g st = bind m (fun a => bind (f a) g) st.
Proof. unfold bind. by destruct (m st) as [[a|e| |] st1]. Qed.

Lemma bind_out {B} o (f : unit -> M B) st :
  bind (out o) f st = f tt (st ++ [EvOut o]).
Proof. reflexivity. Qed.

(** Whatever follows a computation only adds events to those it made. *)
Lemma bind_extends {A B} (m : M A) (f : A -> M B) st :
  (forall a, behaves (fun _ => True) (fun _ => True) (f a)) ->
  exists more, snd (bind m f st) = snd (m st) ++ more.
Proof.
  intros Hf. unfold bind.
  destruct (m st) as [[a|e| |] st1]; simpl;
    try (exists []; by rewrite app_nil_r).
  destruct (Hf a st1) as [(new & Hst & _) _]. by exists new.
Qed.

Lemma forEach_tab_run (l : list string) st :
  forEach l (fun ci => out (OutTab ci)) st
  = (Ok tt, st ++ map (fun ci => EvOut (OutTab ci)) l).
Proof.
  revert st. induction l as [|x l IH]; intros st; simpl.
  - by rewrite app_nil_r.
  - rewrite bind_out, IH. by rewrite <- app_assoc.
Qed.

Lemma updateECSService_run desiredCount st :
  exists rest,
    snd (updateECSService cp d desiredCount st)
    = st ++ [EvCall (UpdateService (Cluster_ d) (Service_ d) false
                       desiredCount)] ++ rest.
Proof.
  unfold updateECSService.
  set (call := UpdateService _ _ _ _).
  destruct (bind_extends (request call
              (fun st => cpUpdateService cp st (Cluster_ d) (Service_ d)
                           false desiredCount))
              (fun s => request_ (WaitUntilServicesStable (Cluster_ d)
                                    [Service_ d])
                          (fun st => cpWaitUntilServicesStable cp st
                                       (Cluster_ d) [Service_ d]) ;;;
                        ret s) st) as [more Hmore].
  { intros s. behave; done. }
  exists more. rewrite Hmore. unfold request.
  by destruct (cpUpdateService _ _ _ _ _ _); simpl; rewrite <- app_assoc.
Qed.

(** The batch after the reconciliation, without flip mode and with a
    positive new desired count: once the drain and the update of the
    service have succeeded, the instance group is set to
    [instanceDesired], minimum and desired size, not the maximum. *)
Lemma drainScaleTerminate_sets_group service cis desiredCount
    instanceDesired st drained stB svc stC :
  InstanceFlip d = false ->
  0 < desiredCount ->
  drainContainerInstances cp d cis
    (st ++ [EvOut OutStars; EvOut LogDraining]
        ++ map (fun ci => EvOut (OutTab ci)) cis)
  = (Ok drained, stB) ->
  updateECSService cp d desiredCount
    (stB ++ [EvOut (LogScalingECS desiredCount)])
  = (Ok svc, stC) ->
  exists rest,
    snd (drainScaleTerminate cp d service cis desiredCount instanceDesired st)
    = stC ++ [EvOut (LogScalingASG instanceDesired);
              EvCall (UpdateAutoScalingGroup (ASG d) instanceDesired
                        instanceDesired None)] ++ rest.
Proof.
  intros Hflip Hpos Hdrain Hsvc. unfold drainScaleTerminate.
  rewrite !bind_out.
  unfold bind at 1. rewrite forEach_tab_run.
  rewrite <- !app_assoc. simpl app at 2.
  rewrite (bind_Ok _ _ _ _ _ Hdrain).
  replace (desiredCount >? 0) with true by (symmetry; apply Z.gtb_lt; lia).
  rewrite Hflip. simpl negb. cbv iota.
  rewrite !bind_assoc, bind_out.
  rewrite bind_assoc, (bind_Ok _ _ _ _ _ Hsvc).
  rewrite !bind_assoc, bind_out.
  match goal with
  | |- context [bind (updateASG cp d instanceDesired false) ?f ?st] =>
      destruct (bind_extends (updateASG cp d instanceDesired false) f st)
        as [more Hmore]
  end.
  { intros []. unfold terminateContainerInstances. behave; done. }
  rewrite Hmore.
  destruct (updateASG_run instanceDesired false
              (stC ++ [EvOut (LogScalingASG instanceDesired)]))
    as (rest & Hrest & _).
  rewrite Hrest. exists (rest ++ more). by rewrite <- !app_assoc.
Qed.

(** Fuel for the batches gone through is all the loop needs to get from
    one test of its condition to a later one. *)
Lemma batchLoop_reaches all maxToRemove start s st start' s' st' :
  loopReaches cp d all maxToRemove start s st start' s' st' ->
  exists n,
    forall fuel,
      batchLoop cp d (n + fuel) all maxToRemove start s st
      = batchLoop cp d fuel all maxToRemove start' s' st'.
Proof.
  induction 1 as [|start s st end_ batch s1 st1 start' s' st'
                    Hcond Hend Hslice Hscale _ [n IH]].
  - by exists O.
  - exists (S n). intros fuel. cbn [Nat.add batchLoop].
    rewrite Hcond, <- Hend.
    rewrite (bind_Ok _ _ _ _ _ Hslice), (bind_Ok _ _ _ _ _ Hscale).
    apply IH.
Qed.

(** An error of [ScaleDown] in a batch that the loop gets to is the
    result of the loop. *)
Lemma batchLoop_aborts all maxToRemove start0 s0 st0 start s st
    end_ batch e st' :
  loopReaches cp d all maxToRemove start0 s0 st0 start s st ->
  (start <? len all) && (start <? maxToRemove) = true ->
  end_ = (if add64 start (BatchSize d) >? len all
          then len all else add64 start (BatchSize d)) ->
  slice all start end_ st = (Ok batch, st) ->
  ScaleDown cp d s batch st = (Err e, st') ->
  exists n,
    forall fuel,
      (n <= fuel)%nat ->
      batchLoop cp d fuel all maxToRemove start0 s0 st0 = (Err e, st').
Proof.
  intros Hreach Hcond Hend Hslice Hscale.
  destruct (batchLoop_reaches _ _ _ _ _ _ _ _ Hreach) as [n Hn].
  exists (n + 1)%nat. intros fuel Hfuel.
  replace fuel with (n + S (fuel - n - 1))%nat by lia.
  rewrite Hn. cbn [batchLoop]. rewrite Hcond, <- Hend.
  by rewrite (bind_Ok _ _ _ _ _ Hslice), (bind_Err _ _ _ _ _ Hscale).
Qed.
(** C5.  In a batch without flip mode, when the scheduler's new desired
    count exceeds the desired capacity of the instance group: without the
    override flag [ScaleDown] returns the mismatch error before it drains
    anything, and [Run], whichever batch of its loop this is, returns
    that error; with the flag it logs the warning and goes on with the
    batch, the group's target being the group's desired capacity minus
    the batch size, which is what the group is then set to. *)
Theorem mismatch_policy service cis st serviceDesired asg st1 :
  InstanceFlip d = false ->
  SvcDesiredCount service = Some serviceDesired ->
  describeASG cp d st = (Ok asg, st1) ->
  let desiredCount := sub64 serviceDesired (len cis) in
  let asgDesired := Int64Value (DesiredCapacity asg) in
  let clamped := sub64 asgDesired (len cis) in
  let mismatch := ErrMismatchNotAllowed serviceDesired asgDesired in
  let warned :=
    st1 ++ [EvOut (LogWarnMismatch serviceDesired asgDesired clamped)] in
  desiredCount > asgDesired ->
  (AllowASGMismatch d = false ->
   ScaleDown cp d service cis st = (Err mismatch, st1) /\
   forall st0 all stA s0 stB original start end_,
     findDrainableContainerInstances sortSlice cp d st0 = (Ok all, stA) ->
     ecsService cp d (stA ++ [EvOut (OutFound (len all))]) = (Ok s0, stB) ->
     SvcDesiredCount s0 = Some original ->
     sub64 original (DesiredCount d) <> 0 ->
     loopReaches cp d all (sub64 original (DesiredCount d))
       0 s0 stB start service st ->
     (start <? len all) && (start <? sub64 original (DesiredCount d))
     = true ->
     end_ = (if add64 start (BatchSize d) >? len all
             then len all else add64 start (BatchSize d)) ->
     slice all start end_ st = (Ok cis, st) ->
     exists n,
       forall fuel,
         (n <= fuel)%nat ->
         Run sortSlice cp d fuel st0 = (Err mismatch, st1)) /\
  (AllowASGMismatch d = true ->
   ScaleDown cp d service cis st
   = drainScaleTerminate cp d service cis desiredCount clamped warned /\
   forall drained stB svc stC,
     0 < desiredCount ->
     drainContainerInstances cp d cis
       (warned ++ [EvOut OutStars; EvOut LogDraining]
               ++ map (fun ci => EvOut (OutTab ci)) cis)
     = (Ok drained, stB) ->
     updateECSService cp d desiredCount
       (stB ++ [EvOut (LogScalingECS desiredCount)])
     = (Ok svc, stC) ->
     exists rest,
       snd (ScaleDown cp d service cis st)
       = stC ++ [EvOut (LogScalingASG clamped);
                 EvCall (UpdateAutoScalingGroup (ASG d) clamped clamped
                           None)] ++ rest).
Proof.
  intros Hflip Hcount Hasg desiredCount asgDesired clamped mismatch warned
    Hgt.
  assert (Hrec : reconcile cp d service cis st
            = (if negb (AllowASGMismatch d)
               then fail mismatch
               else
                 out (LogWarnMismatch serviceDesired asgDesired clamped) ;;;
                 ret (desiredCount, clamped)) st1).
  { unfold reconcile. rewrite Hcount. unfold deref.
    unfold bind at 1, ret at 1.
    rewrite Hflip. cbn [negb].
    rewrite (bind_Ok _ _ _ _ _ Hasg).
    fold asgDesired. fold desiredCount.
    by replace (desiredCount >? asgDesired) with true
      by (symmetry; apply Z.gtb_lt; lia). }
  split.
  - intros Hallow. rewrite Hallow in Hrec. simpl in Hrec.
    assert (Hscale : ScaleDown cp d service cis st = (Err mismatch, st1)).
    { unfold ScaleDown. by rewrite (bind_Err _ _ _ _ _ Hrec). }
    split; [exact Hscale|].
    intros st0 all stA s0 stB original start end_
      Hsel Hsvc Horig Hne Hreach Hcond Hend Hslice.
    destruct (batchLoop_aborts _ _ _ _ _ _ _ _ _ _ _ _
                Hreach Hcond Hend Hslice Hscale) as [n Hn].
    exists n. intros fuel Hfuel.
    rewrite (Run_after_init fuel _ _ _ _ _ _ Hsel Hsvc Horig).
    apply Z.eqb_neq in Hne. rewrite Hne.
    by rewrite (bind_Err _ _ _ _ _ (Hn fuel Hfuel)).
  - intros Hallow. rewrite Hallow in Hrec. simpl in Hrec.
    rewrite bind_out in Hrec. unfold ret in Hrec.
    assert (Hscale : ScaleDown cp d service cis st
              = drainScaleTerminate cp d service cis desiredCount clamped
                  warned).
    { unfold ScaleDown. by rewrite (bind_Ok _ _ _ _ _ Hrec). }
    split; [exact Hscale|].
    intros drained stB svc stC Hpos Hdrain Hsvc. rewrite Hscale.
    by eapply drainScaleTerminate_sets_group.
Qed.

(** C2, as the code has it.  In flip mode, once the batch loop has
    completed, [Run] asks the scheduler for the original desired count
    again and returns what that restoration returns: success exactly when
    the update and the wait for stability succeed, and the restoration's
    error when one of them fails. *)
Theorem flip_restore_result fuel st cis st1 s st2 original s' st3 :
  findDrainableContainerInstances sortSlice cp d st = (Ok cis, st1) ->
  ecsService cp d (st1 ++ [EvOut (OutFound (len cis))]) = (Ok s, st2) ->
  SvcDesiredCount s = Some original ->
  sub64 original (DesiredCount d) <> 0 ->
  batchLoop cp d fuel cis (sub64 original (DesiredCount d)) 0 s st2
  = (Ok s', st3) ->
  InstanceFlip d = true ->
  let run := Run sortSlice cp d fuel st in
  let st4 := st3 ++ [EvOut OutStars; EvOut (LogReturning original)] in
  let restore := updateECSService cp d original st4 in
  (exists rest,
     snd run = st4 ++ [EvCall (UpdateService (Cluster_ d) (Service_ d)
                                 false original)] ++ rest) /\
  (fst run = Ok tt <-> exists svc, fst restore = Ok svc) /\
  (forall e, fst restore = Err e -> fst run = Err e).
Proof.
  intros Hsel Hsvc Hcount Hne Hloop Hflip run st4 restore.
  assert (Hrun : run
            = match restore with
              | (Ok _, st5) => (Ok tt, st5)
              | (Err err, st5) => (Err err, st5 ++ [EvOut LogSuccess])
              | (Panic, st5) => (Panic, st5)
              | (Unfinished, st5) => (Unfinished, st5)
              end).
  { unfold run. rewrite (Run_after_init fuel _ _ _ _ _ _ Hsel Hsvc Hcount).
    apply Z.eqb_neq in Hne. rewrite Hne.
    rewrite (bind_Ok _ _ _ _ _ Hloop), bind_out, Hflip.
    unfold restoreTaskCount. rewrite bind_out.
    by rewrite <- app_assoc. }
  destruct (updateECSService_run original st4) as [rest Hrest].
  fold restore in Hrest.
  destruct restore as [[svc|e| |] st5]; simpl in Hrest; subst st5;
    rewrite Hrun; simpl; split_and!;
    try (by eexists);
    try (intros ? [= <-]; done);
    try done;
    try (split; [done|by intros [? ?]]);
    try (split; [by exists svc|done]).
  exists (rest ++ [EvOut LogSuccess]). by rewrite <- !app_assoc.
Qed.
End Orchestrator.

(** ** Runs of the example fleets *)

(** C1.  The run of the fleet whose cluster cannot be described: the
    request [DescribeClusters] fails, yet [drainAtTaskCount] returns no
    error, the selector goes on to list with the threshold [-1], and [Run]
    drains and terminates two instances and returns no error. *)
Theorem failed_cluster_lookup_does_not_abort :
  let cp := planeOf fleetClusterDown in
  let before :=
    [EvOut (OutFinding "agentVersion < 1.39.0");
     EvCall (ListContainerInstancesPages "prod"
               (Some "agentVersion < 1.39.0"));
     EvOut (OutAdded "agentVersion < 1.39.0" 1 0);
     EvCall (ListContainerInstancesPages "prod"
               (Some "attribute:ecs.instance-type == m5"));
     EvOut (OutAdded "attribute:ecs.instance-type == m5" 1 0)] in
  let run := Run insertionSort cp (keep 3) 5 [] in
  cpDescribeClusters cp before ["prod"] = inl "AccessDeniedException" /\
  drainAtTaskCount cp (keep 3) before
  = (Ok (-1), before ++ [EvCall (DescribeClusters ["prod"])]) /\
  fst run = Ok tt /\
  exists after,
    snd run
    = before
      ++ [EvCall (DescribeClusters ["prod"]);
          EvCall (ListContainerInstancesPages "prod"
                    (Some "runningTasksCount <= -1"))]
      ++ after /\
    EvCall (TerminateInstanceInAutoScalingGroup (Some "i-b") false) ∈ after /\
    EvCall (TerminateInstanceInAutoScalingGroup (Some "i-c") false) ∈ after.
Proof.
  cbv zeta. split_and!; [reflexivity|reflexivity|by vm_compute|].
  eexists. split_and!.
  - vm_compute. reflexivity.
  - apply (bool_decide_unpack _). by vm_compute.
  - apply (bool_decide_unpack _). by vm_compute.
Qed.

(** C2, the claim as stated fails.  In flip mode, when the scheduler
    refuses the original desired count after the batch loop, [Run] does not
    report success: it returns the error of the refused request. *)
Lemma flip_restore_failure_is_returned :
  let cp := planeOf fleetNoWayBack in
  let d := keepFlipping 4 in
  let run := Run insertionSort cp d 5 [] in
  (forall st, fst (updateECSService cp d 5 st) = Err (ErrAPI "ThrottlingException")) /\
  last (calls (snd run)) = Some (UpdateService "prod" "web" false 5) /\
  fst run = Err (ErrAPI "ThrottlingException") /\
  fst run <> Ok tt.
Proof.
  cbv zeta. split_and!.
  - intros st. reflexivity.
  - by vm_compute.
  - by vm_compute.
  - by vm_compute.
Qed.

(** The selector on the example fleet, two instances to be kept: [b] is
    taken by the stale-agent tier, [c] by the instance-type tier, [e] and
    [d] (in this order, [e] is older) by the task-count tier, [a] is left
    over; the three first of these five are returned. *)
Lemma selector_output_NoDup_witness :
  fst (findDrainableContainerInstances insertionSort (planeOf fleet) (keep 2) [])
  = Ok ["b"; "c"; "e"] /\
  NoDup ["b"; "c"; "e"].
Proof.
  split; [by vm_compute|].
  apply (selector_output_NoDup insertionSort (planeOf fleet) (keep 2)
           insertionSort_perm [] ["b"; "c"; "e"]
           (snd (findDrainableContainerInstances insertionSort
                   (planeOf fleet) (keep 2) []))).
  by vm_compute.
Defined.

Lemma selector_output_length_witness :
  exists out,
    fst (findDrainableContainerInstances insertionSort (planeOf fleet)
           (keep 2) [])
    = Ok out /\
    len out = 3.
Proof.
  destruct (selector_output_length insertionSort (planeOf fleet) (keep 2)
              insertionSort_perm []
              (default {| allArns := []; seen := ∅ |}
                 (match fst (mergedCandidates insertionSort (planeOf fleet)
                               (keep 2) []) with
                  | Ok sel => Some sel
                  | _ => None
                  end))
              (snd (mergedCandidates insertionSort (planeOf fleet)
                      (keep 2) [])))
    as (_ & Hpos & _).
  - by vm_compute.
  - by vm_compute.
  - by vm_compute.
  - destruct Hpos as (out & Hrun & Hlen & _); [by vm_compute|].
    exists out. split; [by rewrite Hrun|exact Hlen].
Defined.

Lemma flip_never_lowers_capacity_witness :
  exists new,
    snd (Run insertionSort (planeOf fleet) (keepFlipping 4) 5 []) = [] ++ new /\
    Forall (fun ev => forall c, ev = EvCall c -> ~ lowersCapacity c) new.
Proof.
  apply (flip_never_lowers_capacity insertionSort (planeOf fleet)
           (keepFlipping 4) 5 []).
  reflexivity.
Defined.

Lemma selector_tier_order_witness :
  exists b1 b2 b3 b4 n,
    ["b"; "c"; "e"] = take n (b1 ++ b2 ++ b3 ++ b4) /\
    (forall i j x y,
       ["b"; "c"; "e"] !! i = Some x -> ["b"; "c"; "e"] !! j = Some y ->
       x ∈ b1 ++ b2 -> y ∈ b3 ++ b4 -> (i < j)%nat).
Proof.
  destruct (selector_tier_order insertionSort (planeOf fleet) (keep 2)
              insertionSort_perm [] ["b"; "c"; "e"]
              (snd (findDrainableContainerInstances insertionSort
                      (planeOf fleet) (keep 2) [])))
    as (b1 & st1 & b2 & st2 & b3 & st3 & b4 & n & _ & Hout & _ & Hord & _).
  - by vm_compute.
  - by exists b1, b2, b3, b4, n.
Defined.

(** The task-count tier of the example fleet, two instances to be kept:
    its listing collects [d] and [e], in this order, and the tier
    contributes [e], launched at 5, before [d], launched at 30.  The list
    returned, [b], [c], [e], is not in the order of the launch times 10,
    40 and 5: each block is sorted on its own. *)
Lemma selector_age_sorted_witness :
  exists b1 b2 b3 b4 n1 n2 n3 n4 acc ages,
    ["b"; "c"; "e"] = take n1 b1 ++ take n2 b2 ++ take n3 b3 ++ take n4 b4 /\
    b1 = ["b"] /\ b2 = ["c"] /\ b3 = ["e"; "d"] /\
    accArns acc = ["d"; "e"] /\
    Permutation (accArns acc) b3 /\
    ageOf ages "e" = Some 5 /\ ageOf ages "d" = Some 30 /\
    forall k, StronglySorted (ageLe ages) (take k b3).
Proof.
  destruct (selector_age_sorted insertionSort (planeOf fleet) (keep 2)
              insertionSort_perm insertionSort_sorted insertionSort_compares
              [] ["b"; "c"; "e"]
              (snd (findDrainableContainerInstances insertionSort
                      (planeOf fleet) (keep 2) [])))
    as (b1 & s1 & st1 & b2 & s2 & st2 & b3 & s3 & st3 & b4 & s4
        & n1 & n2 & n3 & n4
        & H1 & H2 & H3 & _ & Hout & _ & _ & Hsorted & _).
  - reflexivity.
  - by vm_compute.
  - unfold contributes in H1, H2, H3.
    vm_compute in H1. injection H1 as <- <- <-.
    vm_compute in H2. injection H2 as <- <- <-.
    cbn [TaskCountDetect keep] in Hsorted.
    destruct Hsorted as (runningCount & counted & Hcount & Hsorted).
    vm_compute in Hcount. injection Hcount as <- <-.
    destruct Hsorted as (acc & stL & Hlist & Hperm & Hcase).
    vm_compute in Hlist. injection Hlist as <- <-.
    cbv zeta in Hcase. cbn [accArns] in Hcase.
    destruct (decide (2 <= length ["d"; "e"])%nat) as [_|Hnot];
      [|exfalso; apply Hnot; simpl; lia].
    destruct Hcase as (ages & Hres & Hord).
    vm_compute in Hres. injection Hres as <- <-.
    vm_compute in H3. injection H3 as <- <-.
    exists ["b"], ["c"], ["e"; "d"], b4, n1, n2, n3, n4.
    match type of Hperm with
    | Permutation (accArns ?acc) _ => exists acc
    end.
    match type of Hord with
    | forall k, StronglySorted (ageLe ?ages) _ => exists ages
    end.
    split_and!;
      [exact Hout|reflexivity|reflexivity|reflexivity|reflexivity
      |exact Hperm|by vm_compute|by vm_compute|exact Hord].
Defined.

(** The fleet in which the launch time of [e]'s machine is not known: the
    age sort of the task-count tier fails, and so does the run. *)
Lemma unresolved_launch_time_aborts_witness :
  let cp := planeOf fleetUnknownAge in
  (exists a st2,
     sortECSContainersByInstanceAge insertionSort cp (keep 2) ["d"; "e"] []
     = (Err (ErrAgeEmpty a), st2)) /\
  (exists a, fst (Run insertionSort cp (keep 2) 5 []) = Err (ErrAgeEmpty a)).
Proof.
  cbv zeta.
  destruct (unresolved_launch_time_aborts insertionSort
              (planeOf fleetUnknownAge) (keep 2) insertionSort_compares)
    as (Hsort & _ & _ & Hrun).
  split.
  - destruct (Hsort ["d"; "e"] []
                (default ∅
                   (match fst (resolveLaunchTimes (planeOf fleetUnknownAge)
                                 (keep 2) ["d"; "e"] []) with
                    | Ok ages => Some ages
                    | _ => None
                    end))
                (snd (resolveLaunchTimes (planeOf fleetUnknownAge)
                        (keep 2) ["d"; "e"] []))
                "e")
      as (a & st2 & Hres & _).
    + simpl. lia.
    + by vm_compute.
    + apply (bool_decide_unpack _). by vm_compute.
    + by vm_compute.
    + by exists a, st2.
  - destruct (Hrun 5%nat [] "e") as (a & Hres & _).
    + intros a Hin. by apply elem_of_nil in Hin.
    + apply (bool_decide_unpack _). by vm_compute.
    + by exists a.
Defined.

(** The example fleet asked to keep three instances when its service
    wants three tasks, and when it wants two. *)
Lemma no_room_exactly_on_equal_counts_witness :
  fst (Run insertionSort (planeOf (fleetRunning 3 5)) (keep 3) 5 [])
  = Err (ErrNoRoom 2) /\
  fst (Run insertionSort (planeOf (fleetRunning 2 5)) (keep 3) 5 [])
  = Ok tt.
Proof.
  split.
  - set (cp := planeOf (fleetRunning 3 5)).
    pose (st1 := snd (findDrainableContainerInstances insertionSort cp
                        (keep 3) [])).
    pose (st2 := snd (ecsService cp (keep 3)
                        (st1 ++ [EvOut (OutFound 2)]))).
    destruct (no_room_exactly_on_equal_counts insertionSort cp (keep 3) 5 []
                ["b"; "c"] st1 {| SvcDesiredCount := Some 3 |} st2 3)
      as (_ & Hequal & _).
    + by vm_compute.
    + by vm_compute.
    + reflexivity.
    + lia.
    + simpl. lia.
    + by rewrite Hequal.
  - set (cp := planeOf (fleetRunning 2 5)).
    pose (st1 := snd (findDrainableContainerInstances insertionSort cp
                        (keep 3) [])).
    pose (st2 := snd (ecsService cp (keep 3)
                        (st1 ++ [EvOut (OutFound 2)]))).
    destruct (no_room_exactly_on_equal_counts insertionSort cp (keep 3) 5 []
                ["b"; "c"] st1 {| SvcDesiredCount := Some 2 |} st2 2)
      as (_ & _ & _ & Hless).
    + by vm_compute.
    + by vm_compute.
    + reflexivity.
    + lia.
    + simpl. lia.
    + destruct Hless as [_ Hok]; [simpl; lia|reflexivity|].
      by rewrite Hok.
Defined.

(** The example fleet whose group has three machines for a service of five
    tasks: the first batch is refused without the override flag and goes
    on, with the group's target at two, with it. *)
Lemma mismatch_policy_witness :
  let cp := planeOf (fleetRunning 5 3) in
  let service := {| SvcDesiredCount := Some 5 |} in
  (exists n,
     forall fuel,
       (n <= fuel)%nat ->
       fst (Run insertionSort cp (keep 3) fuel [])
       = Err (ErrMismatchNotAllowed 5 3)) /\
  ScaleDown cp (keepAllowingMismatch 4) service ["b"] []
  = drainScaleTerminate cp (keepAllowingMismatch 4) service ["b"] 4 2
      [EvCall (DescribeAutoScalingGroups ["prod-asg"]);
       EvOut (LogWarnMismatch 5 3 2)].
Proof.
  cbv zeta. split.
  - set (cp := planeOf (fleetRunning 5 3)).
    pose (stA := snd (findDrainableContainerInstances insertionSort cp
                        (keep 3) [])).
    pose (stB := snd (ecsService cp (keep 3)
                        (stA ++ [EvOut (OutFound 2)]))).
    destruct (mismatch_policy insertionSort cp (keep 3)
                {| SvcDesiredCount := Some 5 |} ["b"] stB 5
                {| DesiredCapacity := Some 3 |}
                (snd (describeASG cp (keep 3) stB)))
      as [Hrefused _].
    + reflexivity.
    + reflexivity.
    + by vm_compute.
    + by vm_compute.
    + destruct Hrefused as [_ Hrun]; [reflexivity|].
      destruct (Hrun [] ["b"; "c"] stA {| SvcDesiredCount := Some 5 |} stB
                  5 0 1) as [n Hn].
      * by vm_compute.
      * by vm_compute.
      * reflexivity.
      * by vm_compute.
      * apply reach_here.
      * by vm_compute.
      * by vm_compute.
      * by vm_compute.
      * exists n. intros fuel Hfuel. by rewrite (Hn fuel Hfuel).
  - destruct (mismatch_policy insertionSort (planeOf (fleetRunning 5 3))
                (keepAllowingMismatch 4)
                {| SvcDesiredCount := Some 5 |} ["b"] [] 5
                {| DesiredCapacity := Some 3 |}
                [EvCall (DescribeAutoScalingGroups ["prod-asg"])])
      as [_ Hallowed].
    + reflexivity.
    + reflexivity.
    + by vm_compute.
    + by vm_compute.
    + destruct Hallowed as [Hscale _]; [reflexivity|]. exact Hscale.
Defined.

(** The example fleet in flip mode, four instances to be kept: the run
    succeeds when the scheduler takes the original count back and fails
    with the scheduler's error when it does not. *)
Lemma flip_restore_result_witness :
  fst (Run insertionSort (planeOf fleet) (keepFlipping 4) 5 []) = Ok tt /\
  fst (Run insertionSort (planeOf fleetNoWayBack) (keepFlipping 4) 5 [])
  = Err (ErrAPI "ThrottlingException").
Proof.
  split.
  - set (cp := planeOf fleet).
    pose (st1 := snd (findDrainableContainerInstances insertionSort cp
                        (keepFlipping 4) [])).
    pose (st2 := snd (ecsService cp (keepFlipping 4)
                        (st1 ++ [EvOut (OutFound 1)]))).
    destruct (flip_restore_result insertionSort cp (keepFlipping 4) 5 []
                ["b"] st1 {| SvcDesiredCount := Some 5 |} st2 5
                {| SvcDesiredCount := Some 4 |}
                (snd (batchLoop cp (keepFlipping 4) 5 ["b"] 1 0
                        {| SvcDesiredCount := Some 5 |} st2)))
      as (_ & [_ Hok] & _).
    + by vm_compute.
    + by vm_compute.
    + reflexivity.
    + by vm_compute.
    + by vm_compute.
    + reflexivity.
    + apply Hok. eexists. by vm_compute.
  - set (cp := planeOf fleetNoWayBack).
    pose (st1 := snd (findDrainableContainerInstances insertionSort cp
                        (keepFlipping 4) [])).
    pose (st2 := snd (ecsService cp (keepFlipping 4)
                        (st1 ++ [EvOut (OutFound 1)]))).
    destruct (flip_restore_result insertionSort cp (keepFlipping 4) 5 []
                ["b"] st1 {| SvcDesiredCount := Some 5 |} st2 5
                {| SvcDesiredCount := Some 4 |}
                (snd (batchLoop cp (keepFlipping 4) 5 ["b"] 1 0
                        {| SvcDesiredCount := Some 5 |} st2)))
      as (_ & _ & Herr).
    + by vm_compute.
    + by vm_compute.
    + reflexivity.
    + by vm_compute.
    + by vm_compute.
    + reflexivity.
    + apply Herr. by vm_compute.
Defined.

(** * Further properties *)

(** ** Chunks *)

Lemma paginateFrom_concat fuel items n :
  (0 < n)%nat -> (length items <= fuel)%nat ->
  concat (paginateFrom fuel items n) = items.
Proof.
  intros Hn. revert items.
  induction fuel as [|fuel IH]; intros items Hlen.
  - destruct items; [done|simpl in Hlen; lia].
  - destruct items as [|x items]; [done|].
    cbn [paginateFrom concat].
    rewrite IH; [apply take_drop|].
    rewrite length_drop. simpl in *. lia.
Qed.

Lemma paginateFrom_lookup fuel items n i c :
  (0 < n)%nat -> (length items <= fuel)%nat ->
  paginateFrom fuel items n !! i = Some c ->
  c = take n (drop (i * n) items) /\ (0 < length c <= n)%nat.
Proof.
  intros Hn. revert items i.
  induction fuel as [|fuel IH]; intros items i Hlen Hi.
  - by destruct items.
  - destruct items as [|x items]; [done|].
    cbn [paginateFrom] in Hi.
    destruct i as [|i].
    + injection Hi as <-. split; [done|].
      rewrite length_take. simpl. lia.
    + cbn [lookup list_lookup] in Hi.
      apply IH in Hi as [-> Hc].
      * split; [|done]. by rewrite drop_drop.
      * rewrite length_drop. simpl in *. lia.
Qed.

Lemma paginateFrom_length fuel items n :
  (0 < n)%nat -> (length items <= fuel)%nat ->
  length (paginateFrom fuel items n) = ((length items + n - 1) / n)%nat.
Proof.
  intros Hn. revert items.
  induction fuel as [|fuel IH]; intros items Hlen.
  - destruct items; [|simpl in Hlen; lia]. simpl.
    symmetry. apply Nat.div_small. lia.
  - destruct items as [|x items].
    + simpl. symmetry. apply Nat.div_small. lia.
    + cbn [paginateFrom length].
      rewrite IH by (rewrite length_drop; simpl in *; lia).
      rewrite length_drop.
      set (L := length (x :: items)).
      change (S (length items)) with L.
      assert (1 <= L)%nat by (subst L; simpl; lia).
      destruct (decide (n <= L)%nat) as [Hle|Hgt].
      * replace (L + n - 1)%nat with ((L - n + n - 1) + 1 * n)%nat by lia.
        rewrite Nat.div_add by lia. lia.
      * replace (L - n + n - 1)%nat with (n - 1)%nat by lia.
        rewrite (Nat.div_small (n - 1)) by lia.
        apply (Nat.div_unique _ _ 1 (L - 1)); lia.
Qed.

(** X1.  [paginateStringArray] cuts a slice into consecutive chunks: put
    end to end the chunks give the slice back, nothing lost, repeated or
    reordered. *)
Theorem paginateStringArray_concat items n :
  (0 < n)%nat -> concat (paginateStringArray items n) = items.
Proof. intros Hn. by apply paginateFrom_concat. Qed.

(** X2.  [paginateStringArray] makes as many chunks as the length of the
    slice divided by [n], rounded up (none for an empty slice); the chunk
    of index [i] is the [n] items from position [i * n], fewer for the
    last one, and no chunk is empty. *)
Theorem paginateStringArray_chunks items n :
  (0 < n)%nat ->
  length (paginateStringArray items n) = ((length items + n - 1) / n)%nat /\
  forall i chunk,
    paginateStringArray items n !! i = Some chunk ->
    chunk = take n (drop (i * n) items) /\
    (0 < length chunk <= n)%nat.
Proof.
  intros Hn. split; [by apply paginateFrom_length|].
  intros i chunk. by apply paginateFrom_lookup.
Qed.

(** ** Computations that finish *)

Section Avoids.
Variable v : verdict.

Lemma avoids_ret {A} (a : A) : v <> VOk -> avoids v (ret a).
Proof. intros Hv st. exact (not_eq_sym Hv). Qed.

Lemma avoids_fail {A} e : v <> VErr -> avoids v (@fail A e).
Proof. intros Hv st. exact (not_eq_sym Hv). Qed.

Lemma avoids_panic {A} : v <> VPanic -> avoids v (@panic A).
Proof. intros Hv st. exact (not_eq_sym Hv). Qed.

Lemma avoids_bind {A B} (m : M A) (f : A -> M B) :
  avoids v m -> (forall a, avoids v (f a)) -> avoids v (bind m f).
Proof.
  intros Hm Hf st. unfold bind. specialize (Hm st).
  destruct (m st) as [[a|e| |] st1]; try exact Hm. apply Hf.
Qed.
End Avoids.

Section Finishes.

Lemma finishes_ret {A} (a : A) : avoids VUnfinished (ret a).
Proof. by apply avoids_ret. Qed.

Lemma finishes_fail {A} e : avoids VUnfinished (@fail A e).
Proof. by apply avoids_fail. Qed.

Lemma finishes_panic {A} : avoids VUnfinished (@panic A).
Proof. by apply avoids_panic. Qed.

Lemma finishes_out o : avoids VUnfinished (out o).
Proof. by intros st. Qed.

Lemma finishes_request {A} c (answer : State -> string + A) :
  avoids VUnfinished (request c answer).
Proof. intros st. unfold request. by destruct (answer st). Qed.

Lemma finishes_request_ c (answer : State -> option string) :
  avoids VUnfinished (request_ c answer).
Proof. intros st. unfold request_. by destruct (answer st). Qed.

Lemma finishes_requestPages {G S} c (answer : State -> list G * option string)
    (fn : S -> G -> S * bool) (s : S) :
  avoids VUnfinished (requestPages c answer fn s).
Proof.
  intros st. unfold requestPages.
  destruct (answer st) as [pages err].
  destruct (eachPage fn pages s) as [s' exhausted].
  by destruct (if exhausted then err else None).
Qed.

Lemma finishes_wrapErr {A} msg (m : M A) :
  avoids VUnfinished m -> avoids VUnfinished (wrapErr msg m).
Proof.
  intros Hm st. unfold wrapErr. specialize (Hm st).
  by destruct (m st) as [[a|e| |] st1].
Qed.

Lemma finishes_forEach {A} (l : list A) (body : A -> M unit) :
  (forall x, avoids VUnfinished (body x)) -> avoids VUnfinished (forEach l body).
Proof.
  intros Hb. induction l as [|x l IH]; simpl.
  - apply finishes_ret.
  - by apply avoids_bind.
Qed.

Lemma finishes_foldM {A S} (body : S -> A -> M S) (l : list A) (s : S) :
  (forall s x, avoids VUnfinished (body s x)) -> avoids VUnfinished (foldM body l s).
Proof.
  intros Hb. revert s. induction l as [|x l IH]; intros s; simpl.
  - apply finishes_ret.
  - by apply avoids_bind.
Qed.

Lemma finishes_slice {A} (s : list A) lo hi : avoids VUnfinished (slice s lo hi).
Proof.
  unfold slice. destruct (_ && _); [apply finishes_ret|apply finishes_panic].
Qed.

Lemma finishes_deref {A} (p : option A) : avoids VUnfinished (deref p).
Proof. destruct p; [apply finishes_ret|apply finishes_panic]. Qed.
End Finishes.

Ltac finish_step :=
  lazymatch goal with
  | |- avoids VUnfinished (ret _) => apply finishes_ret
  | |- avoids VUnfinished panic => apply finishes_panic
  | |- avoids VUnfinished (slice _ _ _) => apply finishes_slice
  | |- avoids VUnfinished (deref _) => apply finishes_deref
  | |- avoids VUnfinished (out _) => apply finishes_out
  | |- avoids VUnfinished (request _ _) => apply finishes_request
  | |- avoids VUnfinished (request_ _ _) => apply finishes_request_
  | |- avoids VUnfinished (requestPages _ _ _ _) => apply finishes_requestPages
  | |- avoids VUnfinished (wrapErr _ _) => apply finishes_wrapErr
  | |- avoids VUnfinished (fail _) => apply finishes_fail
  | |- avoids VUnfinished (bind _ _) => apply avoids_bind; [|intros ?]
  | |- avoids VUnfinished (forEach _ _) => apply finishes_forEach; intros ?
  | |- avoids VUnfinished (foldM _ _ _) => apply finishes_foldM; intros ? ?
  | |- avoids VUnfinished (if ?b then _ else _) => destruct b
  | |- avoids VUnfinished (match ?x with _ => _ end) => destruct x
  end.

Ltac finish := repeat finish_step.

Section Termination.
Variable sortSlice :
  (string -> string -> bool) -> list string ->
  list string * list (string * string).
Variable cp : ControlPlane.
Variable d : Config.

Lemma drainAtTaskCount_finishes : avoids VUnfinished (drainAtTaskCount cp d).
Proof.
  intros st. unfold drainAtTaskCount, request.
  destruct (cpDescribeClusters cp st [Cluster_ d]) as [msg|clusters]; [done|].
  destruct clusters as [|c [|c' rest]]; try done.
  by destruct (ActiveServicesCount c).
Qed.

Lemma sortECS_finishes arns :
  avoids VUnfinished (sortECSContainersByInstanceAge sortSlice cp d arns).
Proof.
  unfold sortECSContainersByInstanceAge, resolveLaunchTimes, describeChunk,
    launchChunk.
  apply avoids_bind; [finish|intros ages].
  destruct (sortSlice (lessByAge ages) arns) as [work compared].
  finish.
Qed.

Lemma findDrainable_finishes :
  avoids VUnfinished (findDrainableContainerInstances sortSlice cp d).
Proof.
  unfold findDrainableContainerInstances, mergedCandidates, staleAgentTier,
    instanceTypeTier, taskCountTier, leftoverTier, findInstances, listUnseen.
  finish; first [apply sortECS_finishes|apply drainAtTaskCount_finishes].
Qed.

Lemma ScaleDown_finishes service cis :
  avoids VUnfinished (ScaleDown cp d service cis).
Proof.
  unfold ScaleDown, reconcile, describeASG, drainScaleTerminate,
    drainContainerInstances, updateECSService, updateASG,
    terminateContainerInstances.
  finish.
Qed.

Lemma restoreTaskCount_finishes n :
  avoids VUnfinished (restoreTaskCount cp d n).
Proof.
  unfold restoreTaskCount. apply avoids_bind; [finish|intros _].
  intros st.
  assert (H : avoids VUnfinished (updateECSService cp d n))
    by (unfold updateECSService; finish).
  specialize (H st).
  by destruct (updateECSService cp d n st) as [[a|e| |] st1].
Qed.

Lemma batchLoop_finishes fuel cis maxToRemove start s :
  0 < BatchSize d ->
  len cis + BatchSize d < 2 ^ 63 ->
  0 <= start ->
  len cis - start <= Z.of_nat fuel ->
  avoids VUnfinished (batchLoop cp d fuel cis maxToRemove start s).
Proof.
  intros Hbs Hrange. revert start s.
  induction fuel as [|fuel IH]; intros start s Hstart Hfuel;
    cbn [batchLoop];
    destruct ((start <? len cis) && (start <? maxToRemove)) eqn:Hcond;
    try apply finishes_ret.
  - apply andb_prop in Hcond as [Hlt _]. apply Z.ltb_lt in Hlt. lia.
  - apply andb_prop in Hcond as [Hlt _]. apply Z.ltb_lt in Hlt.
    assert (Hadd : add64 start (BatchSize d) = start + BatchSize d).
    { apply wrap64_id. unfold int64_range. lia. }
    apply avoids_bind; [apply finishes_slice|intros batch].
    apply avoids_bind; [apply ScaleDown_finishes|intros s1].
    apply IH; lia.
Qed.
End Termination.

(** ** One batch *)

Lemma drainRequests_app a b :
  drainRequests (a ++ b) = drainRequests a ++ drainRequests b.
Proof. apply omap_app. Qed.

Lemma drainRequests_none new :
  Forall (fun ev => drainRequests [ev] = []) new -> drainRequests new = [].
Proof.
  induction 1 as [|ev new Hev _ IH]; [done|].
  change (ev :: new) with ([ev] ++ new).
  by rewrite drainRequests_app, Hev, IH.
Qed.

Lemma observes_out o : observes (EvOut o).
Proof. by intros c. Qed.

Lemma observes_call c : readOnly c -> observes (EvCall c).
Proof. by intros Hc c' [= <-]. Qed.

Section Batch.
Variable cp : ControlPlane.
Variable d : Config.

(** The termination requests, up to the first one that is refused. *)
Lemma terminations_run cis st :
  let body := fun ci =>
    request_ (TerminateInstanceInAutoScalingGroup (Ec2InstanceId ci) false)
      (fun st => cpTerminateInstance cp st (Ec2InstanceId ci) false) in
  forEach cis body st = (Ok tt, st ++ terminationsOf cis) \/
  exists k ci msg,
    cis !! k = Some ci /\
    cpTerminateInstance cp (st ++ terminationsOf (take k cis))
      (Ec2InstanceId ci) false = Some msg /\
    forEach cis body st
    = (Err (ErrAPI msg), st ++ terminationsOf (take (S k) cis)).
Proof.
  intros body. revert st.
  induction cis as [|ci cis IH]; intros st.
  - left. simpl. by rewrite app_nil_r.
  - cbn [forEach].
    set (call := EvCall (TerminateInstanceInAutoScalingGroup
                           (Ec2InstanceId ci) false)).
    destruct (cpTerminateInstance cp st (Ec2InstanceId ci) false)
      as [msg|] eqn:Hanswer.
    + assert (Hb : body ci st = (Err (ErrAPI msg), st ++ [call]))
        by (unfold body, request_; by rewrite Hanswer).
      right. exists 0%nat, ci, msg. split_and!; [done| |].
      * simpl. by rewrite app_nil_r.
      * by rewrite (bind_Err _ _ _ _ _ Hb).
    + assert (Hb : body ci st = (Ok tt, st ++ [call]))
        by (unfold body, request_; by rewrite Hanswer).
      rewrite (bind_Ok _ _ _ _ _ Hb).
      destruct (IH (st ++ [call]))
        as [Hall|(k & ci' & msg & Hk & Hmsg & Hrun)].
      * left. rewrite Hall. by rewrite <- app_assoc.
      * right. exists (S k), ci', msg. split_and!; [done| |].
        -- cbn [take terminationsOf map]. by rewrite <- app_assoc in Hmsg.
        -- rewrite Hrun. by rewrite <- app_assoc.
Qed.

Lemma terminate_run cis st :
  let ids := map Ec2InstanceId cis in
  let wait := EvCall (WaitUntilInstanceTerminated ids) in
  (cpWaitUntilInstanceTerminated cp (st ++ terminationsOf cis) ids = None /\
   terminateContainerInstances cp cis st
   = (Ok tt, st ++ terminationsOf cis ++ [wait])) \/
  (exists msg,
     cpWaitUntilInstanceTerminated cp (st ++ terminationsOf cis) ids
     = Some msg /\
     terminateContainerInstances cp cis st
     = (Err (ErrAPI msg), st ++ terminationsOf cis ++ [wait])) \/
  (exists k ci msg,
     cis !! k = Some ci /\
     cpTerminateInstance cp (st ++ terminationsOf (take k cis))
       (Ec2InstanceId ci) false = Some msg /\
     terminateContainerInstances cp cis st
     = (Err (ErrAPI msg), st ++ terminationsOf (take (S k) cis))).
Proof.
  intros ids wait. unfold terminateContainerInstances.
  destruct (terminations_run cis st)
    as [Hall|(k & ci & msg & Hk & Hmsg & Hrun)].
  - rewrite (bind_Ok _ _ _ _ _ Hall). unfold request_. fold ids. fold wait.
    destruct (cpWaitUntilInstanceTerminated cp (st ++ terminationsOf cis) ids)
      as [msg|].
    + right. left. exists msg. by rewrite <- app_assoc.
    + left. by rewrite <- app_assoc.
  - right. right. exists k, ci, msg.
    by rewrite (bind_Err _ _ _ _ _ Hrun).
Qed.
End Batch.

Section BatchSteps.
Variable cp : ControlPlane.
Variable d : Config.

Lemma reconcile_observes service cis :
  behaves observes (fun _ => True) (reconcile cp d service cis).
Proof.
  unfold reconcile, describeASG.
  behave; try behave_wrap; behave;
    first [done | apply observes_out | by apply observes_call].
Qed.

Lemma reconcile_counts service cis st counts st1 :
  reconcile cp d service cis st = (Ok counts, st1) ->
  exists serviceDesired,
    SvcDesiredCount service = Some serviceDesired /\
    fst counts = sub64 serviceDesired (len cis).
Proof.
  unfold reconcile. intros H.
  apply bind_inv_Ok in H as (sd & st0 & Hsd & H).
  destruct (SvcDesiredCount service) as [sd'|]; [|done].
  injection Hsd as -> ->. exists sd. split; [done|].
  destruct (negb (InstanceFlip d)); [|by injection H as <- _].
  apply bind_inv_Ok in H as (asg & st2 & _ & H).
  destruct (_ >? _); [|by injection H as <- _].
  destruct (negb (AllowASGMismatch d)); [done|].
  apply bind_inv_Ok in H as (? & ? & _ & H). by injection H as <- _.
Qed.

(** The events of [drainScaleTerminate] up to the drain request. *)
Lemma drainScaleTerminate_starts service cis desiredCount instanceDesired st :
  let st1 := st ++ [EvOut OutStars; EvOut LogDraining]
                ++ map (fun ci => EvOut (OutTab ci)) cis in
  let call := EvCall (UpdateContainerInstancesState (Cluster_ d) cis
                        "DRAINING") in
  exists after,
    snd (drainScaleTerminate cp d service cis desiredCount instanceDesired st)
    = st1 ++ call :: after /\
    forall msg,
      cpUpdateContainerInstancesState cp st1 (Cluster_ d) cis "DRAINING"
      = inl msg ->
      after = [] /\
      fst (drainScaleTerminate cp d service cis desiredCount instanceDesired st)
      = Err (ErrAPI msg).
Proof.
  intros st1 call. unfold drainScaleTerminate.
  rewrite !bind_out.
  rewrite (bind_Ok _ _ _ _ _ (forEach_tab_run _ _)).
  rewrite <- !app_assoc.
  change (st ++ [EvOut OutStars] ++ [EvOut LogDraining]
             ++ map (fun ci => EvOut (OutTab ci)) cis) with st1.
  unfold drainContainerInstances.
  match goal with
  | |- context [bind ?m ?f st1] =>
      set (drain := m);
      destruct (bind_extends drain f st1) as [more Hmore]
  end.
  { intros drained.
    unfold updateECSService, updateASG, terminateContainerInstances.
    behave; done. }
  destruct (cpUpdateContainerInstancesState cp st1 (Cluster_ d) cis "DRAINING")
    as [msg|drained] eqn:Hanswer.
  - assert (Hreq : drain st1 = (Err (ErrAPI msg), st1 ++ [call]))
      by (unfold drain, request; by rewrite Hanswer).
    rewrite (bind_Err _ _ _ _ _ Hreq).
    exists []. split; [done|]. by intros ? [= <-].
  - assert (Hreq : drain st1 = (Ok drained, st1 ++ [call]))
      by (unfold drain, request; by rewrite Hanswer).
    exists more. split; [|done]. rewrite Hmore, Hreq. simpl.
    by rewrite <- app_assoc.
Qed.
(** A successful [drainScaleTerminate], event by event. *)
Lemma drainScaleTerminate_Ok service cis desiredCount instanceDesired
    st s' st' :
  drainScaleTerminate cp d service cis desiredCount instanceDesired st
  = (Ok s', st') ->
  let st1 := st ++ [EvOut OutStars; EvOut LogDraining]
                ++ map (fun ci => EvOut (OutTab ci)) cis in
  let call := EvCall (UpdateContainerInstancesState (Cluster_ d) cis
                        "DRAINING") in
  exists drained mid,
    cpUpdateContainerInstancesState cp st1 (Cluster_ d) cis "DRAINING"
    = inr drained /\
    st' = st1 ++ call :: mid ++ terminationsOf drained
            ++ [EvCall (WaitUntilInstanceTerminated
                          (map Ec2InstanceId drained))] /\
    Forall (fun ev => ~ isTermination ev /\ drainRequests [ev] = []) mid /\
    (desiredCount <= 0 ->
     s' = service /\ Forall (fun ev => ~ isScaling ev) mid) /\
    (0 < desiredCount ->
     EvCall (UpdateService (Cluster_ d) (Service_ d) false desiredCount)
     ∈ mid).
Proof.
  intros H st1 call. unfold drainScaleTerminate in H.
  rewrite !bind_out in H.
  rewrite (bind_Ok _ _ _ _ _ (forEach_tab_run _ _)) in H.
  rewrite <- !app_assoc in H.
  change (st ++ [EvOut OutStars] ++ [EvOut LogDraining]
             ++ map (fun ci => EvOut (OutTab ci)) cis) with st1 in H.
  apply bind_inv_Ok in H as (drained & stA & Hdrain & H).
  unfold drainContainerInstances, request in Hdrain.
  destruct (cpUpdateContainerInstancesState cp st1 (Cluster_ d) cis "DRAINING")
    as [msg|drained'] eqn:Hanswer; [done|].
  injection Hdrain as -> <-. fold call in H.
  apply bind_inv_Ok in H as (sv & stB & Hscale & H).
  set (P := fun ev => ~ isTermination ev /\ drainRequests [ev] = []).
  assert (HP : forall o, P (EvOut o)) by (intros o; split; [tauto|done]).
  assert (HB : exists newB,
             stB = (st1 ++ [call]) ++ newB /\ Forall P newB /\
             (desiredCount <= 0 -> sv = service /\ newB = []) /\
             (0 < desiredCount ->
              EvCall (UpdateService (Cluster_ d) (Service_ d) false
                        desiredCount) ∈ newB)).
  { destruct (desiredCount >? 0) eqn:Hpos.
    - match type of Hscale with
      | ?m _ = _ =>
          assert (Hm : behaves P (fun _ => True) m)
      end.
      { unfold updateECSService, updateASG.
        behave; first [done | apply HP | split; [simpl; tauto|done]]. }
      destruct (Hm (st1 ++ [call])) as [(newB & HstB & HnewB) _].
      rewrite Hscale in HstB. simpl in HstB.
      exists newB. split_and!; [done|done| |].
      + apply Z.gtb_lt in Hpos. lia.
      + intros _. rewrite bind_out in Hscale.
        match type of Hscale with
        | bind ?m ?f ?s = _ =>
            destruct (bind_extends m f s) as [more Hmore];
              [intros ?; unfold updateASG; behave; done|];
            destruct (updateECSService_run cp d desiredCount s)
              as [rest Hrest]
        end.
        rewrite Hscale, Hrest in Hmore. simpl in Hmore.
        assert (HnewB' :
                  newB
                  = [EvOut (LogScalingECS desiredCount)]
                    ++ [EvCall (UpdateService (Cluster_ d) (Service_ d) false
                                  desiredCount)] ++ rest ++ more).
        { apply (app_inv_head (st1 ++ [call])).
          rewrite <- HstB, Hmore. by rewrite <- !app_assoc. }
        rewrite HnewB'. set_solver.
    - injection Hscale as <- <-. exists []. rewrite app_nil_r.
      split_and!; [done|constructor|done|].
      rewrite Z.gtb_ltb in Hpos. apply Z.ltb_ge in Hpos. lia. }
  destruct HB as (newB & -> & HnewB & Hzero & Hupdate).
  rewrite bind_out in H.
  apply bind_inv_Ok in H as ([] & stC & Hprint & H).
  assert (HC : exists newC,
             stC = ((st1 ++ [call]) ++ newB) ++ [EvOut LogTerminating] ++ newC /\
             Forall (fun ev => exists o, ev = EvOut o) newC).
  { match type of Hprint with
    | ?m _ = _ =>
        assert (Hm : behaves (fun ev => exists o, ev = EvOut o)
                       (fun _ => True) m)
    end.
    { behave. by eexists. }
    match type of Hprint with
    | _ ?s = _ => destruct (Hm s) as [(newC & HstC & HnewC) _]
    end.
    rewrite Hprint in HstC. simpl in HstC.
    exists newC. split; [|done]. by rewrite HstC, <- app_assoc. }
  destruct HC as (newC & -> & HnewC).
  apply bind_inv_Ok in H as ([] & stD & Hterm & H).
  injection H as -> ->.
  match type of Hterm with
  | _ ?s = _ =>
      destruct (terminate_run cp drained s)
        as [[_ Hrun]|[(msg & _ & Hrun)|(k & ci & msg & _ & _ & Hrun)]]
  end; rewrite Hrun in Hterm; try done.
  injection Hterm as <-.
  exists drained, (newB ++ [EvOut LogTerminating] ++ newC).
  split_and!.
  - done.
  - rewrite <- !app_assoc. reflexivity.
  - apply Forall_app. split; [done|].
    apply Forall_app. split; [by constructor|].
    eapply Forall_impl; [exact HnewC|]. by intros ev [o ->].
  - intros Hle. destruct (Hzero Hle) as [-> ->]. split; [done|].
    apply Forall_cons. split; [simpl; tauto|].
    eapply Forall_impl; [exact HnewC|]. intros ev [o ->]. simpl. tauto.
  - intros Hpos. apply elem_of_app. left. by apply Hupdate.
Qed.

(** A successful batch has asked once for a drain, that of the batch. *)
Lemma ScaleDown_Ok_drains service cis st s' st' :
  ScaleDown cp d service cis st = (Ok s', st') ->
  exists new, st' = st ++ new /\ drainRequests new = [cis].
Proof.
  unfold ScaleDown. intros H.
  apply bind_inv_Ok in H as (counts & st0 & Hrec & H).
  destruct (reconcile_observes service cis st) as [(new0 & Hst0 & Hnew0) _].
  rewrite Hrec in Hst0. simpl in Hst0. subst st0.
  apply drainScaleTerminate_Ok in H
    as (drained & mid & _ & -> & Hmid & _ & _).
  eexists. split; [by rewrite <- !app_assoc|].
  rewrite !drainRequests_app.
  rewrite (drainRequests_none new0).
  2:{ eapply Forall_impl; [exact Hnew0|].
      intros [c|o] Hev; [|done].
      specialize (Hev c eq_refl). by destruct c. }
  change (drainRequests (?a :: ?l)) with (drainRequests ([a] ++ l)).
  rewrite (drainRequests_none (map _ cis)).
  2:{ apply Forall_map. by apply Forall_true. }
  cbn [app].
  change (EvCall (UpdateContainerInstancesState (Cluster_ d) cis "DRAINING")
            :: ?l)
    with ([EvCall (UpdateContainerInstancesState (Cluster_ d) cis "DRAINING")]
            ++ l).
  rewrite !drainRequests_app.
  rewrite (drainRequests_none mid)
    by (eapply Forall_impl; [exact Hmid|]; by intros ev [_ ?]).
  rewrite (drainRequests_none (terminationsOf drained))
    by (apply Forall_map; by apply Forall_true).
  reflexivity.
Qed.
End BatchSteps.

Section BatchProperties.
Variable cp : ControlPlane.
Variable d : Config.

(** X3.  When [terminateContainerInstances] succeeds it has asked, in the
    order of its argument, for the termination of each instance, never
    telling the group to decrement its desired capacity, and then waited
    once for all of them. *)
Theorem terminate_all_then_wait cis st st' :
  terminateContainerInstances cp cis st = (Ok tt, st') ->
  st' = st ++ terminationsOf cis
           ++ [EvCall (WaitUntilInstanceTerminated (map Ec2InstanceId cis))].
Proof.
  intros H.
  destruct (terminate_run cp cis st)
    as [[_ Hrun]|[(msg & _ & Hrun)|(k & ci & msg & _ & _ & Hrun)]];
    rewrite Hrun in H; try done.
  by injection H as <-.
Qed.

(** X4.  [terminateContainerInstances] stops at the first termination that
    the instance group refuses: the instances after it are not terminated
    and nothing is waited for.  Its only other error is that of the wait
    after all the terminations. *)
Theorem terminate_stops_at_first_refusal cis st e :
  fst (terminateContainerInstances cp cis st) = Err e ->
  (exists k ci msg,
     cis !! k = Some ci /\
     cpTerminateInstance cp (st ++ terminationsOf (take k cis))
       (Ec2InstanceId ci) false = Some msg /\
     e = ErrAPI msg /\
     snd (terminateContainerInstances cp cis st)
     = st ++ terminationsOf (take (S k) cis)) \/
  (exists msg,
     cpWaitUntilInstanceTerminated cp (st ++ terminationsOf cis)
       (map Ec2InstanceId cis) = Some msg /\
     e = ErrAPI msg /\
     snd (terminateContainerInstances cp cis st)
     = st ++ terminationsOf cis
          ++ [EvCall (WaitUntilInstanceTerminated (map Ec2InstanceId cis))]).
Proof.
  intros H.
  destruct (terminate_run cp cis st)
    as [[_ Hrun]|[(msg & Hwait & Hrun)|(k & ci & msg & Hk & Hmsg & Hrun)]];
    rewrite Hrun in H |- *; simpl in H; try done; injection H as <-.
  - right. by exists msg.
  - left. by exists k, ci, msg.
Qed.

(** X5.  The first request of [ScaleDown] that changes anything is the
    drain of exactly the batch: before it come only printed lines and the
    description of the instance group, and when the drain is refused
    [ScaleDown] returns that error on the spot, with nothing scaled and
    nothing terminated. *)
Theorem ScaleDown_drains_first service batch st :
  let call :=
    EvCall (UpdateContainerInstancesState (Cluster_ d) batch "DRAINING") in
  exists before after,
    snd (ScaleDown cp d service batch st) = st ++ before ++ after /\
    Forall observes before /\
    (after = [] /\ (forall s', fst (ScaleDown cp d service batch st) <> Ok s')
     \/
     exists rest,
       after = call :: rest /\
       forall msg,
         cpUpdateContainerInstancesState cp (st ++ before) (Cluster_ d)
           batch "DRAINING" = inl msg ->
         rest = [] /\
         fst (ScaleDown cp d service batch st) = Err (ErrAPI msg)).
Proof.
  intros call. unfold ScaleDown.
  destruct (reconcile_observes cp d service batch st) as [(new0 & Hst0 & Hnew0) _].
  unfold bind.
  destruct (reconcile cp d service batch st) as [[counts|e| |] st0];
    simpl in Hst0; subst st0;
    try (exists new0, []; rewrite app_nil_r; split_and!; [done|done|];
         left; by split).
  destruct (drainScaleTerminate_starts cp d service batch (fst counts)
              (snd counts) (st ++ new0)) as (rest & Hsnd & Hrefused).
  cbv zeta in Hsnd, Hrefused. fold call in Hsnd.
  exists (new0 ++ [EvOut OutStars; EvOut LogDraining]
            ++ map (fun ci => EvOut (OutTab ci)) batch), (call :: rest).
  split_and!.
  - rewrite Hsnd. by rewrite <- !app_assoc.
  - apply Forall_app. split; [done|].
    apply Forall_app. split; [repeat constructor; apply observes_out|].
    apply Forall_map, Forall_true. intros ci. apply observes_out.
  - right. exists rest. split; [done|].
    intros msg Hmsg. apply Hrefused. by rewrite app_assoc in Hmsg.
Qed.

(** X6.  When [ScaleDown] succeeds, the instances it has terminated are
    those that the control plane answered to the drain request, in that
    order and each once, followed by one wait for all of them; no
    termination comes before the drain or between the drain and these. *)
Theorem ScaleDown_terminates_what_it_drained service batch st s' st' :
  ScaleDown cp d service batch st = (Ok s', st') ->
  exists before drained between,
    cpUpdateContainerInstancesState cp (st ++ before) (Cluster_ d) batch
      "DRAINING" = inr drained /\
    st' = st ++ before
             ++ [EvCall (UpdateContainerInstancesState (Cluster_ d) batch
                           "DRAINING")]
             ++ between
             ++ terminationsOf drained
             ++ [EvCall (WaitUntilInstanceTerminated
                           (map Ec2InstanceId drained))] /\
    Forall observes before /\
    Forall (fun ev => ~ isTermination ev) between.
Proof.
  unfold ScaleDown. intros H.
  apply bind_inv_Ok in H as (counts & st0 & Hrec & H).
  destruct (reconcile_observes cp d service batch st) as [(new0 & Hst0 & Hnew0) _].
  rewrite Hrec in Hst0. simpl in Hst0. subst st0.
  apply drainScaleTerminate_Ok in H
    as (drained & mid & Hanswer & -> & Hmid & _ & _).
  exists (new0 ++ [EvOut OutStars; EvOut LogDraining]
            ++ map (fun ci => EvOut (OutTab ci)) batch), drained, mid.
  split_and!.
  - by rewrite app_assoc.
  - by rewrite <- !app_assoc.
  - apply Forall_app. split; [done|].
    apply Forall_app. split; [repeat constructor; apply observes_out|].
    apply Forall_map, Forall_true. intros ci. apply observes_out.
  - eapply Forall_impl; [exact Hmid|]. by intros ev [? _].
Qed.

(** X7.  A batch that brings the service's desired count to zero or below
    changes neither the service nor the instance group: [ScaleDown] makes
    no scaling request at all, yet it still drains the batch, and when it
    succeeds it returns the service it was given. *)
Theorem ScaleDown_to_zero_skips_scaling service batch st serviceDesired :
  SvcDesiredCount service = Some serviceDesired ->
  sub64 serviceDesired (len batch) <= 0 ->
  exists new,
    snd (ScaleDown cp d service batch st) = st ++ new /\
    Forall (fun ev => ~ isScaling ev) new /\
    forall s',
      fst (ScaleDown cp d service batch st) = Ok s' ->
      s' = service /\ drainRequests new = [batch].
Proof.
  intros Hsd Hzero.
  set (P := fun ev => ~ isScaling ev).
  assert (Hrec : behaves P (fun _ => True) (reconcile cp d service batch)).
  { unfold reconcile, describeASG.
    behave; try behave_wrap; behave; first [done | unfold P; simpl; tauto]. }
  assert (Hdst : forall dc idc,
             dc <= 0 ->
             behaves P (fun _ => True)
               (drainScaleTerminate cp d service batch dc idc)).
  { intros dc idc Hdc.
    unfold drainScaleTerminate, drainContainerInstances,
      terminateContainerInstances.
    destruct (dc >? 0) eqn:Hpos; [apply Z.gtb_lt in Hpos; lia|].
    behave; first [done | unfold P; simpl; tauto]. }
  unfold ScaleDown, bind.
  destruct (Hrec st) as [(new0 & Hst0 & Hnew0) _].
  destruct (reconcile cp d service batch st) as [[counts|e| |] st0] eqn:Hr;
    simpl in Hst0; subst st0;
    try (exists new0; split_and!; [done|done|by intros s']).
  apply reconcile_counts in Hr as Hcounts.
  destruct Hcounts as (sd & Hsd' & Hfst).
  rewrite Hsd in Hsd'. injection Hsd' as <-.
  destruct (Hdst (fst counts) (snd counts) ltac:(lia) (st ++ new0))
    as [(new1 & Hst1 & Hnew1) _].
  exists (new0 ++ new1). split_and!.
  - by rewrite Hst1, app_assoc.
  - by apply Forall_app.
  - intros s' Hok.
    destruct (drainScaleTerminate cp d service batch (fst counts)
                (snd counts) (st ++ new0)) as [r st1] eqn:Hrun.
    simpl in Hok, Hst1. subst r st1.
    assert (Hscale : ScaleDown cp d service batch st
                     = (Ok s', (st ++ new0) ++ new1))
      by (unfold ScaleDown; by rewrite (bind_Ok _ _ _ _ _ Hr)).
    apply ScaleDown_Ok_drains in Hscale as (new & Hnew & Hdrains).
    rewrite <- app_assoc in Hnew. apply app_inv_head in Hnew as ->.
    split; [|done].
    apply drainScaleTerminate_Ok in Hrun
      as (drained & mid & _ & _ & _ & Hsame & _).
    apply Hsame. lia.
Qed.

(** X8.  Without flip mode [ScaleDown] looks the instance group up before
    anything else.  When the lookup fails, or finds no group, [ScaleDown]
    returns the error (the failed request wrapped, or that of the missing
    group) having made that one request: nothing is drained. *)
Theorem ScaleDown_needs_the_group service batch st serviceDesired :
  InstanceFlip d = false ->
  SvcDesiredCount service = Some serviceDesired ->
  let lookup := EvCall (DescribeAutoScalingGroups [ASG d]) in
  (forall msg,
     cpDescribeAutoScalingGroups cp st [ASG d] = inl msg ->
     ScaleDown cp d service batch st
     = (Err (ErrWrap (ErrAPI msg) "cannot describe ASG"), st ++ [lookup])) /\
  (cpDescribeAutoScalingGroups cp st [ASG d] = inr [] ->
   ScaleDown cp d service batch st = (Err ErrNoASG, st ++ [lookup])).
Proof.
  intros Hflip Hsd lookup.
  unfold ScaleDown, reconcile, describeASG, bind, wrapErr, request.
  rewrite Hsd, Hflip. simpl.
  split; [intros msg|]; by intros ->.
Qed.
End BatchProperties.

(** ** The batch loop *)

Section Loop.
Variable sortSlice :
  (string -> string -> bool) -> list string ->
  list string * list (string * string).
Variable cp : ControlPlane.
Variable d : Config.

Lemma slice_Ok {A} (l : list A) lo hi st batch st' :
  slice l lo hi st = (Ok batch, st') ->
  st' = st /\ 0 <= lo <= hi /\ hi <= len l /\
  batch = take (Z.to_nat (hi - lo)) (drop (Z.to_nat lo) l).
Proof.
  unfold slice. destruct (_ && _) eqn:Hb; [|done].
  intros [= <- <-].
  apply andb_prop in Hb as [Hb Hhi]. apply andb_prop in Hb as [Hlo Hlohi].
  apply Z.leb_le in Hhi, Hlo, Hlohi. by split_and!.
Qed.

(** The selector returns at least one identifier when it returns any. *)
Lemma findDrainable_nonempty st cis st1 :
  findDrainableContainerInstances sortSlice cp d st = (Ok cis, st1) ->
  0 < len cis.
Proof.
  intros H. apply findDrainable_inv in H as (sel & _ & Hcount & ->).
  unfold len in *. rewrite length_take. lia.
Qed.

(** What the loop has drained when it is over: nothing when it was not
    entered, otherwise the identifiers from [start] up to some [stop]
    that lies less than one batch beyond the smaller of the two bounds of
    the loop. *)
Lemma batchLoop_drains fuel cis maxToRemove start s st s' st' :
  0 < BatchSize d ->
  len cis + BatchSize d < 2 ^ 63 ->
  0 <= start ->
  batchLoop cp d fuel cis maxToRemove start s st = (Ok s', st') ->
  exists new,
    st' = st ++ new /\
    ((start <? len cis) && (start <? maxToRemove) = false /\ new = [] \/
     exists stop,
       start < stop <= len cis /\
       Z.min (len cis) maxToRemove <= stop
       < Z.min (len cis) maxToRemove + BatchSize d /\
       concat (drainRequests new)
       = take (Z.to_nat (stop - start)) (drop (Z.to_nat start) cis)).
Proof.
  intros Hbs Hrange. revert start s st.
  induction fuel as [|fuel IH]; intros start s st Hstart H;
    cbn [batchLoop] in H;
    destruct ((start <? len cis) && (start <? maxToRemove)) eqn:Hcond;
    try done;
    try (injection H as <- <-; exists []; rewrite app_nil_r;
         split; [done|by left]).
  apply andb_prop in Hcond as [Hlen Hmax].
  apply Z.ltb_lt in Hlen, Hmax.
  assert (Hadd : add64 start (BatchSize d) = start + BatchSize d).
  { apply wrap64_id. unfold int64_range. lia. }
  rewrite Hadd in H.
  apply bind_inv_Ok in H as (batch & st0 & Hslice & H).
  apply slice_Ok in Hslice as (-> & _ & _ & ->).
  apply bind_inv_Ok in H as (s1 & st1 & Hscale & H).
  apply ScaleDown_Ok_drains in Hscale as (new1 & -> & Hnew1).
  apply IH in H as (new2 & -> & Hnew2); [|lia].
  exists (new1 ++ new2). split; [by rewrite app_assoc|].
  right. rewrite drainRequests_app, Hnew1. cbn [concat app].
  destruct Hnew2 as [[Hcond ->]|(stop & Hstop & Hbound & Hdrained)].
  - apply andb_false_iff in Hcond.
    rewrite !Z.ltb_ge in Hcond. rewrite app_nil_r.
    destruct (start + BatchSize d >? len cis) eqn:Hover.
    + apply Z.gtb_lt in Hover. exists (len cis). split_and!; try lia.
      reflexivity.
    + rewrite Z.gtb_ltb in Hover. apply Z.ltb_ge in Hover.
      exists (start + BatchSize d). split_and!; try lia.
      reflexivity.
  - destruct (start + BatchSize d >? len cis) eqn:Hover;
      [apply Z.gtb_lt in Hover; lia|].
    exists stop. split_and!; try lia.
    rewrite Hdrained.
    replace (Z.to_nat (start + BatchSize d))
      with (Z.to_nat start + Z.to_nat (start + BatchSize d - start))%nat
      by lia.
    rewrite <- drop_drop, take_take_drop. f_equal. lia.
Qed.

(** X9.  With a positive batch size the loop of [Run] drains a prefix of
    the selection, one batch after the other and each identifier once: all
    of the first [min(len(selection), maxToRemove)] identifiers, and less
    than one batch more. *)
Theorem batches_drain_a_prefix fuel cis maxToRemove s st s' st' :
  0 < BatchSize d ->
  len cis + BatchSize d < 2 ^ 63 ->
  batchLoop cp d fuel cis maxToRemove 0 s st = (Ok s', st') ->
  exists new n,
    st' = st ++ new /\
    concat (drainRequests new) = take n cis /\
    (n <= length cis)%nat /\
    Z.max 0 (Z.min (len cis) maxToRemove) <= Z.of_nat n
    < Z.max 0 (Z.min (len cis) maxToRemove) + BatchSize d.
Proof.
  intros Hbs Hrange H.
  pose proof (len_nonneg cis) as Hnn.
  apply batchLoop_drains in H as (new & -> & Hnew); [|done|done|done].
  exists new.
  destruct Hnew as [[Hcond ->]|(stop & Hstop & Hbound & Hdrained)].
  - exists 0%nat. apply andb_false_iff in Hcond.
    rewrite !Z.ltb_ge in Hcond. split_and!; [done|done|lia|lia|lia].
  - exists (Z.to_nat stop). rewrite Z.sub_0_r in Hdrained.
    unfold len in *. split_and!; [done|done|lia|lia|lia].
Qed.

(** X10.  With a batch size of zero the loop of [Run], once entered,
    never completes: [Run] does not return success, whatever the number
    of iterations followed, and as long as no request fails every
    iteration is one more batch of no instance at all. *)
Theorem zero_batch_size_never_finishes fuel st cis st1 s st2 original :
  BatchSize d = 0 ->
  findDrainableContainerInstances sortSlice cp d st = (Ok cis, st1) ->
  ecsService cp d (st1 ++ [EvOut (OutFound (len cis))]) = (Ok s, st2) ->
  SvcDesiredCount s = Some original ->
  0 < sub64 original (DesiredCount d) ->
  fst (Run sortSlice cp d fuel st) <> Ok tt /\
  (fst (Run sortSlice cp d fuel st) = Unfinished ->
   exists new,
     snd (Run sortSlice cp d fuel st) = st2 ++ new /\
     drainRequests new = replicate fuel []).
Proof.
  intros Hbs Hsel Hsvc Hcount Hroom.
  rewrite (Run_after_init _ _ _ fuel _ _ _ _ _ _ Hsel Hsvc Hcount).
  destruct (_ =? 0) eqn:Hz; [apply Z.eqb_eq in Hz; lia|]. clear Hz.
  apply findDrainable_nonempty in Hsel.
  set (maxToRemove := sub64 original (DesiredCount d)) in *.
  assert (Hloop : forall fuel s st,
             let r := batchLoop cp d fuel cis maxToRemove 0 s st in
             (forall s', fst r <> Ok s') /\
             (fst r = Unfinished ->
              exists new,
                snd r = st ++ new /\ drainRequests new = replicate fuel [])).
  { clear fuel s Hsvc Hcount st.
    induction fuel as [|fuel IH]; intros s st; cbn [batchLoop];
      replace ((0 <? len cis) && (0 <? maxToRemove)) with true
        by (symmetry; apply andb_true_intro; split; by apply Z.ltb_lt).
    - split; [done|]. intros _. exists []. by rewrite app_nil_r.
    - rewrite Hbs. change (add64 0 0) with 0.
      destruct (0 >? len cis) eqn:Hneg; [apply Z.gtb_lt in Hneg; lia|].
      assert (Hslice : slice cis 0 0 st = (Ok [], st)).
      { unfold slice. replace (0 <=? len cis) with true
          by (symmetry; apply Z.leb_le; lia). reflexivity. }
      rewrite (bind_Ok _ _ _ _ _ Hslice).
      pose proof (ScaleDown_finishes cp d s [] st) as Hfin.
      destruct (ScaleDown cp d s [] st) as [[s1|e| |] st1'] eqn:Hscale.
      + rewrite (bind_Ok _ _ _ _ _ Hscale).
        apply ScaleDown_Ok_drains in Hscale as (new1 & -> & Hnew1).
        destruct (IH s1 (st ++ new1)) as [Hnot Hunf].
        split; [done|]. intros Hr.
        destruct (Hunf Hr) as (new2 & Hsnd & Hnew2).
        exists (new1 ++ new2). split; [by rewrite Hsnd, app_assoc|].
        by rewrite drainRequests_app, Hnew1, Hnew2.
      + unfold bind. rewrite Hscale. by split.
      + unfold bind. rewrite Hscale. by split.
      + by destruct Hfin. }
  destruct (Hloop fuel s st2) as [Hnot Hunf].
  destruct (batchLoop cp d fuel cis maxToRemove 0 s st2)
    as [[s1|e| |] st3] eqn:Hb;
    unfold bind; rewrite Hb; simpl in *; try (split; [done|]; try done).
  - by destruct (Hnot s1).
  - intros _. by apply Hunf.
Qed.

(** X11.  With a negative batch size [Run] panics on its first batch: the
    slice expression of the loop has its upper bound below zero.  This is
    after the selection and the description of the service and before
    anything is drained. *)
Theorem negative_batch_size_panics fuel st cis st1 s st2 original :
  BatchSize d < 0 ->
  int64_range (BatchSize d) ->
  findDrainableContainerInstances sortSlice cp d st = (Ok cis, st1) ->
  ecsService cp d (st1 ++ [EvOut (OutFound (len cis))]) = (Ok s, st2) ->
  SvcDesiredCount s = Some original ->
  0 < sub64 original (DesiredCount d) ->
  Run sortSlice cp d (S fuel) st = (Panic, st2).
Proof.
  intros Hbs Hrange Hsel Hsvc Hcount Hroom.
  rewrite (Run_after_init _ _ _ _ _ _ _ _ _ _ Hsel Hsvc Hcount).
  destruct (_ =? 0) eqn:Hz; [apply Z.eqb_eq in Hz; lia|]. clear Hz.
  apply findDrainable_nonempty in Hsel.
  unfold bind at 1. cbn [batchLoop].
  replace ((0 <? len cis) && (0 <? sub64 original (DesiredCount d)))
    with true
    by (symmetry; apply andb_true_intro; split; by apply Z.ltb_lt).
  assert (Hadd : add64 0 (BatchSize d) = BatchSize d)
    by (by apply wrap64_id).
  rewrite Hadd.
  destruct (BatchSize d >? len cis) eqn:Hover;
    [apply Z.gtb_lt in Hover; lia|].
  unfold bind, slice.
  replace (0 <=? BatchSize d) with false
    by (symmetry; apply Z.leb_gt; lia).
  reflexivity.
Qed.

(** X12.  With a positive batch size the loop of [Run] ends: followed for
    as many iterations as there are selected instances, [Run] returns,
    panics or fails, and is not cut short. *)
Theorem Run_terminates fuel st cis st1 :
  0 < BatchSize d ->
  findDrainableContainerInstances sortSlice cp d st = (Ok cis, st1) ->
  len cis + BatchSize d < 2 ^ 63 ->
  (length cis <= fuel)%nat ->
  fst (Run sortSlice cp d fuel st) <> Unfinished.
Proof.
  intros Hbs Hsel Hrange Hfuel.
  unfold Run. rewrite (bind_Ok _ _ _ _ _ Hsel).
  match goal with
  | |- fst (?m st1) <> _ => assert (Hm : avoids VUnfinished m)
  end.
  { apply avoids_bind; [apply finishes_out|intros _].
    apply avoids_bind; [unfold ecsService; finish|intros s].
    apply avoids_bind; [apply finishes_deref|intros original].
    destruct (_ =? 0); [apply finishes_fail|].
    apply avoids_bind; [|intros _].
    - apply batchLoop_finishes; [done|done|done|]. unfold len. lia.
    - apply avoids_bind; [apply finishes_out|intros _].
      destruct (InstanceFlip d);
        [apply restoreTaskCount_finishes|unfold updateASG; finish]. }
  intros Hr. apply (Hm st1). by rewrite Hr.
Qed.
End Loop.

(** ** What the selector and the orchestrator leave alone *)

Lemma bind_run {A B} (m : M A) (f : A -> M B) st :
  bind m f st
  = match m st with
    | (Ok a, st') => f a st'
    | (Err e, st') => (Err e, st')
    | (Panic, st') => (Panic, st')
    | (Unfinished, st') => (Unfinished, st')
    end.
Proof. reflexivity. Qed.

Section Untouched.
Variable sortSlice :
  (string -> string -> bool) -> list string ->
  list string * list (string * string).
Variable cp : ControlPlane.
Variable d : Config.

Lemma findDrainable_observes :
  behaves observes (fun _ => True)
    (findDrainableContainerInstances sortSlice cp d).
Proof.
  assert (Hsort : forall arns,
             behaves observes (fun _ => True)
               (sortECSContainersByInstanceAge sortSlice cp d arns)).
  { intros arns.
    unfold sortECSContainersByInstanceAge, resolveLaunchTimes, describeChunk,
      launchChunk.
    apply behaves_bind; [|intros ages].
    - behave; try behave_wrap; behave;
        first [done | by apply observes_call].
    - destruct (sortSlice (lessByAge ages) arns) as [work compared].
      behave; first [done | apply observes_out]. }
  assert (Hcount : behaves observes (fun _ => True) (drainAtTaskCount cp d)).
  { intros st. unfold drainAtTaskCount, request.
    assert (Hc : Forall observes [EvCall (DescribeClusters [Cluster_ d])])
      by (constructor; [by apply observes_call|constructor]).
    destruct (cpDescribeClusters cp st [Cluster_ d]) as [msg|clusters];
      [split; [by eexists|done]|].
    destruct clusters as [|c [|c' rest]]; try (split; [by eexists|done]).
    destruct (ActiveServicesCount c); (split; [by eexists|done]). }
  unfold findDrainableContainerInstances, mergedCandidates, staleAgentTier,
    instanceTypeTier, taskCountTier, leftoverTier, findInstances, listUnseen.
  behave;
    first [ done | apply observes_out | by apply observes_call
          | apply Hsort | apply Hcount ].
Qed.

(** X13.  The selector only reads: whatever it returns, every request it
    has made is a listing or a description. *)
Theorem selector_only_reads st :
  exists new,
    snd (findDrainableContainerInstances sortSlice cp d st) = st ++ new /\
    Forall observes new.
Proof. apply findDrainable_observes. Qed.

Lemma finish_raises fuel cis maxToRemove s original :
  behaves (fun _ => True) raisedWhileScaling
    (batchLoop cp d fuel cis maxToRemove 0 s ;;;
     out OutStars ;;;
     if InstanceFlip d
     then restoreTaskCount cp d original
     else updateASG cp d (DesiredCount d) true).
Proof.
  assert (Hscale : forall service batch,
             behaves (fun _ => True) raisedWhileScaling
               (ScaleDown cp d service batch)).
  { intros service batch.
    unfold ScaleDown, reconcile, describeASG, drainScaleTerminate,
      drainContainerInstances, updateECSService, updateASG,
      terminateContainerInstances.
    behave; try behave_wrap; behave; done. }
  assert (Hloop : forall fuel start s,
             behaves (fun _ => True) raisedWhileScaling
               (batchLoop cp d fuel cis maxToRemove start s)).
  { clear fuel s. intros fuel.
    induction fuel as [|fuel IH]; intros start s; cbn [batchLoop].
    - behave.
    - destruct (_ && _); [|apply behaves_ret].
      apply behaves_bind; [apply behaves_slice|intros batch].
      apply behaves_bind; [apply Hscale|intros s']. apply IH. }
  apply behaves_bind; [apply Hloop|intros _].
  apply behaves_bind; [by apply behaves_out|intros _].
  destruct (InstanceFlip d).
  - unfold restoreTaskCount.
    apply behaves_bind; [by apply behaves_out|intros _].
    intros st.
    assert (Hm : behaves (fun _ => True) raisedWhileScaling
                   (updateECSService cp d original))
      by (unfold updateECSService; behave; done).
    destruct (Hm st) as [(new & Hst & _) He].
    destruct (updateECSService cp d original st) as [[a|e| |] st1];
      simpl in *; subst st1;
      try (split; [exists new; split; [done|by apply Forall_true]|done]).
    split.
    + exists (new ++ [EvOut LogSuccess]). rewrite app_assoc.
      split; [done|by apply Forall_true].
    + intros ? [= <-]. by apply He.
  - unfold updateASG. behave; done.
Qed.

(** X14.  An error of the checks leaves the fleet untouched: when [Run]
    returns an error that is neither an error of the SDK, bare or
    wrapped, nor one of the two errors of the reconciliation with the
    instance group (so: too few instances, no room, a wrong number of
    clusters or services, a missing count or launch time), the control
    plane has only been read, and nothing was drained, scaled or
    terminated. *)
Theorem errors_of_the_checks_leave_the_fleet_untouched fuel st e :
  fst (Run sortSlice cp d fuel st) = Err e ->
  ~ raisedWhileScaling e ->
  exists new,
    snd (Run sortSlice cp d fuel st) = st ++ new /\
    Forall observes new.
Proof.
  unfold Run. intros H Hcheck.
  destruct (findDrainable_observes st) as [(new0 & Hst0 & Hnew0) _].
  rewrite bind_run in H |- *.
  destruct (findDrainableContainerInstances sortSlice cp d st)
    as [[cis|e0| |] st0]; simpl in Hst0; subst st0; try by exists new0.
  rewrite bind_out in H |- *.
  assert (Hsvc : behaves observes (fun _ => True) (ecsService cp d)).
  { unfold ecsService. behave; first [done | by apply observes_call]. }
  match type of H with
  | fst (bind _ _ ?s) = _ => destruct (Hsvc s) as [(new1 & Hst1 & Hnew1) _]
  end.
  rewrite bind_run in H |- *.
  destruct (ecsService cp d _) as [[s|e1| |] st1]; simpl in Hst1; subst st1;
    try (exists (new0 ++ [EvOut (OutFound (len cis))] ++ new1);
         rewrite <- !app_assoc; split; [done|];
         apply Forall_app; split; [done|];
         apply Forall_cons; split; [apply observes_out|done]).
  rewrite bind_run in H |- *.
  destruct (SvcDesiredCount s) as [original|]; simpl in H |- *; [|done].
  destruct (_ =? 0).
  - exists (new0 ++ [EvOut (OutFound (len cis))] ++ new1).
    rewrite <- !app_assoc; split; [done|].
    apply Forall_app; split; [done|].
    apply Forall_cons; split; [apply observes_out|done].
  - match type of H with
    | fst (?m ?st2) = _ =>
        destruct (finish_raises fuel cis
                    (sub64 original (DesiredCount d)) s original st2)
          as [_ Herr]
    end.
    exfalso. apply Hcheck. by apply Herr.
Qed.

Lemma findDrainable_proper_prefix st out st' :
  0 < DesiredCount d < 2 ^ 63 ->
  findDrainableContainerInstances sortSlice cp d st = (Ok out, st') ->
  exists sel,
    mergedCandidates sortSlice cp d st = (Ok sel, st') /\
    out = take (length out) (allArns sel) /\
    (0 < length out < length (allArns sel))%nat.
Proof.
  intros Hd H.
  apply findDrainable_inv in H as (sel & Hm & Hcount & ->).
  exists sel. split; [done|].
  set (L := len (allArns sel)) in *.
  assert (Hne : sub64 L (DesiredCount d) <> L).
  { unfold sub64, wrap64. intros Heq.
    pose proof (Z.div_mod (L - DesiredCount d + 2 ^ 63) (2 ^ 64)
                  ltac:(lia)) as Hdm.
    set (q := (L - DesiredCount d + 2 ^ 63) / 2 ^ 64) in *.
    lia. }
  rewrite length_take. unfold L, len in *.
  split; [|lia].
  f_equal. lia.
Qed.

(** X15.  With a positive target the selector never returns every
    candidate: what it returns is a non-empty proper prefix of the merged
    candidates, so that at least one of them is left running. *)
Theorem selector_keeps_a_candidate st out st' :
  0 < DesiredCount d < 2 ^ 63 ->
  findDrainableContainerInstances sortSlice cp d st = (Ok out, st') ->
  exists sel,
    mergedCandidates sortSlice cp d st = (Ok sel, st') /\
    out = take (length out) (allArns sel) /\
    (0 < length out < length (allArns sel))%nat.
Proof. apply findDrainable_proper_prefix. Qed.

Lemma updateASG_sizes minSize setMax :
  (setMax = true -> minSize = DesiredCount d) ->
  behaves
    (fun ev => forall name min desired max,
       ev = EvCall (UpdateAutoScalingGroup name min desired max) ->
       name = ASG d /\ min = desired /\
       (max = None \/ max = Some (DesiredCount d) /\ min = DesiredCount d))
    (fun _ => True) (updateASG cp d minSize setMax).
Proof.
  intros Hmax. unfold updateASG. behave; try done.
  intros name min desired max [= <- <- <- <-].
  split_and!; [done|done|].
  destruct setMax; [right|by left]. by rewrite Hmax.
Qed.

(** X16.  Every update of the instance group that [Run] requests sets the
    minimum and the desired size to one and the same value.  The maximum
    size is left alone by the batches and is only ever set to the
    configured count, together with the two others. *)
Theorem group_updates_keep_min_and_desired_equal fuel st :
  exists new,
    snd (Run sortSlice cp d fuel st) = st ++ new /\
    Forall
      (fun ev => forall name min desired max,
         ev = EvCall (UpdateAutoScalingGroup name min desired max) ->
         name = ASG d /\ min = desired /\
         (max = None \/ max = Some (DesiredCount d) /\ min = DesiredCount d))
      new.
Proof.
  set (P := fun ev => forall name min desired max,
              ev = EvCall (UpdateAutoScalingGroup name min desired max) ->
              name = ASG d /\ min = desired /\
              (max = None \/
               max = Some (DesiredCount d) /\ min = DesiredCount d)).
  assert (HP : footprint P (fun _ => True)).
  { split_and!; [by intros o _ ? ? ? ? [=]| |done].
    intros c Hc ? ? ? ? [= ->]. by destruct Hc. }
  assert (Hlog : forall e, P (EvOut (LogError e))) by (by intros e ? ? ? ? [=]).
  assert (Hscale : forall service cis,
             behaves P (fun _ => True) (ScaleDown cp d service cis)).
  { intros service cis. unfold ScaleDown.
    apply behaves_bind; [by apply reconcile_behaves|intros counts].
    unfold drainScaleTerminate.
    behave;
      first [ by intros ? ? ? ? [=]
            | done
            | by apply drainContainerInstances_behaves
            | by apply updateECSService_behaves
            | by apply terminate_behaves
            | by apply updateASG_sizes ]. }
  assert (Hloop : forall fuel cis maxToRemove start s,
             behaves P (fun _ => True)
               (batchLoop cp d fuel cis maxToRemove start s)).
  { clear fuel. intros fuel cis maxToRemove.
    induction fuel as [|fuel IH]; intros start s; cbn [batchLoop].
    - behave.
    - destruct (_ && _); [|apply behaves_ret].
      apply behaves_bind; [apply behaves_slice|intros batch].
      apply behaves_bind; [apply Hscale|intros s']. apply IH. }
  apply (behaves_extends P (fun _ => True)).
  unfold Run.
  apply behaves_bind; [by apply findDrainable_behaves|intros cis].
  apply behaves_bind; [apply behaves_out; by intros ? ? ? ? [=]|intros _].
  apply behaves_bind; [by apply ecsService_behaves|intros s].
  apply behaves_bind; [apply behaves_deref|intros original].
  destruct (_ =? 0); [by apply behaves_fail|].
  apply behaves_bind; [apply Hloop|intros _].
  apply behaves_bind; [apply behaves_out; by intros ? ? ? ? [=]|intros _].
  destruct (InstanceFlip d).
  - by apply restoreTaskCount_behaves.
  - by apply updateASG_sizes.
Qed.
End Untouched.

(** ** Listings and lookups *)

Lemma len_app {A} (l1 l2 : list A) : len (l1 ++ l2) = len l1 + len l2.
Proof. unfold len. rewrite length_app. lia. Qed.

Lemma visited_refl acc : visited acc acc [].
Proof.
  unfold visited. change (len (@nil string)) with 0.
  split_and!; [lia|lia|lia|done| |by left].
  intros x Hx. by apply elem_of_nil in Hx.
Qed.

Lemma visited_trans a b c l1 l2 :
  visited a b l1 -> visited b c l2 -> visited a c (l1 ++ l2).
Proof.
  intros (Hs1 & Hn1 & Hm1 & Hl1 & Ha1) (Hs2 & Hn2 & Hm2 & Hl2 & Ha2).
  unfold visited. rewrite len_app.
  pose proof (len_nonneg l1). pose proof (len_nonneg l2).
  split_and!; try lia.
  - intros x Hx. by apply Hm2, Hm1.
  - intros x [Hx|Hx]%elem_of_app; [by apply Hm2, Hl1|by apply Hl2].
  - intros x Hx. rewrite elem_of_app.
    destruct (Ha2 x Hx) as [Hb|?]; [|by auto].
    destruct (Ha1 x Hb); by auto.
Qed.

Lemma visitArn_visited acc arn :
  0 <= accSkipped acc < 2 ^ 63 - 1 ->
  visited acc (visitArn acc arn) [arn].
Proof.
  intros Hsk. unfold visitArn, visited.
  change (len [arn]) with 1.
  destruct (decide (arn ∈ accSeen acc)) as [Hin|Hnew]; cbn [accSkipped accArns accSeen].
  - assert (Hadd : add64 (accSkipped acc) 1 = accSkipped acc + 1)
      by (apply wrap64_id; unfold int64_range; lia).
    rewrite Hadd. split_and!; try done; try lia.
    + by intros x ->%list_elem_of_singleton.
    + intros x Hx. by left.
  - rewrite len_app. change (len [arn]) with 1.
    split_and!; try lia.
    + intros x Hx. set_solver.
    + intros x ->%list_elem_of_singleton. set_solver.
    + intros x [Hx|Hx]%elem_of_app; by auto.
Qed.

Lemma foldl_visitArn_visited page acc :
  0 <= accSkipped acc ->
  accSkipped acc + len page < 2 ^ 63 ->
  visited acc (foldl visitArn acc page) page.
Proof.
  revert acc. induction page as [|arn page IH]; intros acc Hnn Hsk.
  - apply visited_refl.
  - change (arn :: page) with ([arn] ++ page) in *.
    rewrite len_app in Hsk. change (len [arn]) with 1 in Hsk.
    pose proof (len_nonneg page).
    cbn [foldl].
    assert (Hstep : visited acc (visitArn acc arn) [arn])
      by (apply visitArn_visited; lia).
    apply visited_trans with (b := visitArn acc arn); [done|].
    destruct Hstep as (Hs & _). change (len [arn]) with 1 in Hs.
    apply IH; lia.
Qed.

Lemma eachPage_visited pages acc :
  let listed := concat (map ContainerInstanceArns (consumedPages pages)) in
  0 <= accSkipped acc ->
  accSkipped acc + len listed < 2 ^ 63 ->
  visited acc (fst (eachPage visitPage pages acc)) listed.
Proof.
  revert acc. induction pages as [|page pages IH]; intros acc listed Hnn Hsk.
  - apply visited_refl.
  - subst listed. cbn [eachPage consumedPages visitPage map concat] in *.
    rewrite len_app in Hsk.
    pose proof (len_nonneg (ContainerInstanceArns page)).
    assert (Hpage : visited acc
                      (foldl visitArn acc (ContainerInstanceArns page))
                      (ContainerInstanceArns page)).
    { apply foldl_visitArn_visited; [done|].
      pose proof (len_nonneg
                    (concat (map ContainerInstanceArns
                               (if bool_decide (ListNextToken page ≠ None)
                                then consumedPages pages else [])))).
      lia. }
    destruct (bool_decide (ListNextToken page ≠ None)).
    + apply visited_trans with (b := foldl visitArn acc
                                       (ContainerInstanceArns page));
        [done|].
      destruct Hpage as (Hs & _). apply IH; lia.
    + cbn [map concat fst]. rewrite app_nil_r. exact Hpage.
Qed.

Section Listing.
Variable cp : ControlPlane.
Variable d : Config.

(** X17.  The listing of a tier collects, once each, exactly the listed
    identifiers that no earlier tier has taken, and its count of skipped
    duplicates accounts for all the others: collected and skipped add up
    to the number of identifiers on the pages up to the first one without
    a next token, the only pages the callback gets to see. *)
Theorem listing_collects_the_unseen filter seen0 st acc st' :
  let inputFilter := if decide (filter = "") then None else Some filter in
  let listed :=
    concat (map ContainerInstanceArns
              (consumedPages
                 (fst (cpListContainerInstances cp st (Cluster_ d)
                         inputFilter)))) in
  listUnseen cp d filter seen0 st = (Ok acc, st') ->
  len listed < 2 ^ 63 ->
  NoDup (accArns acc) /\
  (forall x, x ∈ accArns acc <-> x ∈ listed /\ x ∉ seen0) /\
  len (accArns acc) + accSkipped acc = len listed.
Proof.
  intros inputFilter listed H Hlen. unfold listUnseen in H.
  fold inputFilter in H.
  apply requestPages_Ok in H as [-> _].
  subst listed.
  set (acc0 := {| accSeen := seen0; accArns := []; accSkipped := 0 |}).
  set (pages := fst (cpListContainerInstances cp st (Cluster_ d) inputFilter))
    in *.
  destruct (eachPage_inv seen0 pages acc0 (accInv_start seen0))
    as (Hnd & Hseen & Hfresh).
  destruct (eachPage_visited pages acc0)
    as (_ & Hcount & _ & Hlisted & Harns);
    [done|change (accSkipped acc0) with 0; lia|].
  change (accSkipped acc0) with 0 in Hcount.
  change (len (accArns acc0)) with 0 in Hcount.
  split_and!; [done| |lia].
  intros x. split.
  - intros Hx. split; [|by apply Hfresh].
    destruct (Harns x Hx) as [Hnil|?]; [|done]. by apply elem_of_nil in Hnil.
  - intros [Hx Hnew]. apply Hlisted in Hx. rewrite Hseen in Hx.
    set_solver.
Qed.



End Listing.

(** ** Counts and log lines *)

Section Counts.
Variable sortSlice :
  (string -> string -> bool) -> list string ->
  list string * list (string * string).
Variable cp : ControlPlane.
Variable d : Config.

Lemma reconcile_targets service cis st counts st1 serviceDesired :
  reconcile cp d service cis st = (Ok counts, st1) ->
  SvcDesiredCount service = Some serviceDesired ->
  fst counts = sub64 serviceDesired (len cis) /\
  (snd counts = fst counts \/ AllowASGMismatch d = true).
Proof.
  unfold reconcile. intros H Hsd. rewrite Hsd in H.
  apply bind_inv_Ok in H as (sd & st0 & [= <- <-] & H).
  destruct (negb (InstanceFlip d)); [|injection H as <- _; by auto].
  apply bind_inv_Ok in H as (asg & st2 & _ & H).
  destruct (_ >? _); [|injection H as <- _; by auto].
  destruct (AllowASGMismatch d); [|done].
  apply bind_inv_Ok in H as (? & ? & _ & H). injection H as <- _. by auto.
Qed.

(** X19.  A batch lowers the service's desired count by the number of
    instances in the batch: the only update of the service that
    [ScaleDown] requests asks for the current desired count minus the
    length of the batch, it is requested only when that is positive, and
    a successful batch has requested it.  Without the mismatch override
    the instance group is only ever set to that same count, minimum and
    desired size alike, the maximum left alone. *)
Theorem ScaleDown_lowers_counts_by_the_batch service batch st serviceDesired :
  SvcDesiredCount service = Some serviceDesired ->
  let desiredCount := sub64 serviceDesired (len batch) in
  exists new,
    snd (ScaleDown cp d service batch st) = st ++ new /\
    Forall
      (fun ev =>
         (forall c s force n,
            ev = EvCall (UpdateService c s force n) ->
            0 < desiredCount /\ c = Cluster_ d /\ s = Service_ d /\
            force = false /\ n = desiredCount) /\
         (forall name min desired max,
            ev = EvCall (UpdateAutoScalingGroup name min desired max) ->
            InstanceFlip d = false /\ 0 < desiredCount /\ name = ASG d /\
            desired = min /\ max = None /\
            (min = desiredCount \/ AllowASGMismatch d = true)))
      new /\
    (forall s',
       fst (ScaleDown cp d service batch st) = Ok s' ->
       0 < desiredCount ->
       EvCall (UpdateService (Cluster_ d) (Service_ d) false desiredCount)
       ∈ new).
Proof.
  intros Hsd desiredCount.
  set (P := fun ev =>
         (forall c s force n,
            ev = EvCall (UpdateService c s force n) ->
            0 < desiredCount /\ c = Cluster_ d /\ s = Service_ d /\
            force = false /\ n = desiredCount) /\
         (forall name min desired max,
            ev = EvCall (UpdateAutoScalingGroup name min desired max) ->
            InstanceFlip d = false /\ 0 < desiredCount /\ name = ASG d /\
            desired = min /\ max = None /\
            (min = desiredCount \/ AllowASGMismatch d = true))).
  assert (Hout : forall o, P (EvOut o)) by (intros o; by split).
  assert (Hrec : behaves P (fun _ => True) (reconcile cp d service batch)).
  { unfold reconcile, describeASG.
    behave; try behave_wrap; behave; first [done | by split]. }
  unfold ScaleDown.
  destruct (Hrec st) as [(new0 & Hst0 & Hnew0) _].
  destruct (reconcile cp d service batch st) as [[counts|e| |] st0] eqn:Hr;
    simpl in Hst0; subst st0;
    try (exists new0; unfold bind; rewrite Hr; split_and!;
         [done|done|by intros s']).
  destruct (reconcile_targets _ _ _ _ _ _ Hr Hsd) as [Hfst Hsnd].
  fold desiredCount in Hfst.
  rewrite (bind_Ok _ _ _ _ _ Hr).
  assert (Hdst : behaves P (fun _ => True)
                   (drainScaleTerminate cp d service batch (fst counts)
                      (snd counts))).
  { unfold drainScaleTerminate, drainContainerInstances, updateECSService,
      updateASG, terminateContainerInstances.
    rewrite Hfst.
    destruct (desiredCount >? 0) eqn:Hpos;
      [apply Z.gtb_lt in Hpos|];
      destruct (InstanceFlip d) eqn:Hflip; cbn [negb];
      behave; try done; try apply Hout; try (by split);
      split; try done.
    - by intros c s force n [= <- <- <- <-].
    - by intros c s force n [= <- <- <- <-].
    - intros name min desired max [= <- <- <- <-].
      split_and!; try done. destruct Hsnd as [->|?]; by auto. }
  destruct (Hdst (st ++ new0)) as [(new1 & Hst1 & Hnew1) _].
  exists (new0 ++ new1). split_and!.
  - by rewrite Hst1, app_assoc.
  - by apply Forall_app.
  - intros s' Hok Hpos.
    destruct (drainScaleTerminate cp d service batch (fst counts)
                (snd counts) (st ++ new0)) as [r st1] eqn:Hrun.
    simpl in Hok, Hst1. subst r st1.
    apply drainScaleTerminate_Ok in Hrun
      as (drained & mid & _ & Hst' & _ & _ & Hupdate).
    rewrite Hfst in Hupdate. specialize (Hupdate Hpos).
    rewrite <- !app_assoc in Hst'. apply app_inv_head in Hst'.
    apply app_inv_head in Hst' as ->. set_solver.
Qed.

Lemma successOnlyOnFailure_quiet {A} (m : M A) :
  behaves (fun ev => ev <> EvOut LogSuccess) (fun _ => True) m ->
  successOnlyOnFailure d m.
Proof.
  intros Hm st. destruct (Hm st) as [(new & Hst & Hnew) _].
  exists new. split; [done|]. intros Hin.
  rewrite Forall_forall in Hnew. by destruct (Hnew _ Hin).
Qed.

Lemma successOnlyOnFailure_bind {A B} (m : M A) (f : A -> M B) :
  behaves (fun ev => ev <> EvOut LogSuccess) (fun _ => True) m ->
  (forall a, successOnlyOnFailure d (f a)) ->
  successOnlyOnFailure d (bind m f).
Proof.
  intros Hm Hf st. destruct (Hm st) as [(new & Hst & Hnew) _].
  rewrite bind_run.
  destruct (m st) as [[a|e| |] st1]; simpl in Hst; subst st1;
    try (exists new; split; [done|]; intros Hin;
         rewrite Forall_forall in Hnew; by destruct (Hnew _ Hin)).
  destruct (Hf a (st ++ new)) as (new' & Hst' & Hlog).
  exists (new ++ new'). split; [by rewrite Hst', app_assoc|].
  intros [Hin|Hin]%elem_of_app; [|by apply Hlog].
  rewrite Forall_forall in Hnew. by destruct (Hnew _ Hin).
Qed.

Lemma restoreTaskCount_log originalTaskCount st :
  exists new,
    snd (restoreTaskCount cp d originalTaskCount st) = st ++ new /\
    (EvOut LogSuccess ∈ new <->
     exists e, fst (restoreTaskCount cp d originalTaskCount st) = Err e).
Proof.
  unfold restoreTaskCount. rewrite bind_out.
  assert (Hm : behaves (fun ev => ev <> EvOut LogSuccess) (fun _ => True)
                 (updateECSService cp d originalTaskCount))
    by (unfold updateECSService; behave; done).
  destruct (Hm (st ++ [EvOut (LogReturning originalTaskCount)]))
    as [(new & Hst & Hnew) _].
  rewrite Forall_forall in Hnew.
  destruct (updateECSService cp d originalTaskCount _) as [[s|e| |] st1];
    simpl in Hst; subst st1; simpl.
  - exists ([EvOut (LogReturning originalTaskCount)] ++ new).
    split; [by rewrite <- app_assoc|]. split; [|by intros [e ?]].
    intros [Hin|Hin]%elem_of_app; [set_solver|by destruct (Hnew _ Hin)].
  - exists ([EvOut (LogReturning originalTaskCount)] ++ new
              ++ [EvOut LogSuccess]).
    split; [by rewrite <- !app_assoc|]. split; [by eexists|set_solver].
  - exists ([EvOut (LogReturning originalTaskCount)] ++ new).
    split; [by rewrite <- app_assoc|]. split; [|by intros [e ?]].
    intros [Hin|Hin]%elem_of_app; [set_solver|by destruct (Hnew _ Hin)].
  - exists ([EvOut (LogReturning originalTaskCount)] ++ new).
    split; [by rewrite <- app_assoc|]. split; [|by intros [e ?]].
    intros [Hin|Hin]%elem_of_app; [set_solver|by destruct (Hnew _ Hin)].
Qed.

(** X20.  The restoration of flip mode writes [Success!] to the log
    exactly when it has failed: the line follows the error of the update
    or of the wait, and a restoration that succeeds does not write it. *)
Theorem restore_logs_success_exactly_on_failure originalTaskCount st :
  exists new,
    snd (restoreTaskCount cp d originalTaskCount st) = st ++ new /\
    (EvOut LogSuccess ∈ new <->
     exists e, fst (restoreTaskCount cp d originalTaskCount st) = Err e).
Proof. apply restoreTaskCount_log. Qed.

(** X21.  A run that has written [Success!] to the log is a run in flip
    mode that returned an error: no run that succeeds prints it. *)
Theorem success_is_never_logged_by_a_successful_run fuel st :
  exists new,
    snd (Run sortSlice cp d fuel st) = st ++ new /\
    (EvOut LogSuccess ∈ new ->
     InstanceFlip d = true /\
     exists e, fst (Run sortSlice cp d fuel st) = Err e).
Proof.
  set (P := fun ev => ev <> EvOut LogSuccess).
  assert (Hsel : behaves P (fun _ => True)
                   (findDrainableContainerInstances sortSlice cp d)).
  { assert (Hsort : forall arns,
               behaves P (fun _ => True)
                 (sortECSContainersByInstanceAge sortSlice cp d arns)).
    { intros arns.
      unfold sortECSContainersByInstanceAge, resolveLaunchTimes,
        describeChunk, launchChunk.
      apply behaves_bind; [|intros ages].
      - behave; try behave_wrap; behave; done.
      - destruct (sortSlice (lessByAge ages) arns) as [work compared].
        behave; done. }
    assert (Hcount : behaves P (fun _ => True) (drainAtTaskCount cp d)).
    { intros st0. unfold drainAtTaskCount, request.
      assert (Hc : Forall P [EvCall (DescribeClusters [Cluster_ d])])
        by (by constructor).
      destruct (cpDescribeClusters cp st0 [Cluster_ d]) as [msg|clusters];
        [split; [by eexists|done]|].
      destruct clusters as [|c [|c' rest]]; try (split; [by eexists|done]).
      destruct (ActiveServicesCount c); (split; [by eexists|done]). }
    unfold findDrainableContainerInstances, mergedCandidates, staleAgentTier,
      instanceTypeTier, taskCountTier, leftoverTier, findInstances, listUnseen.
    behave; first [done | apply Hsort | apply Hcount]. }
  assert (Hscale : forall service cis,
             behaves P (fun _ => True) (ScaleDown cp d service cis)).
  { intros service cis.
    unfold ScaleDown, reconcile, describeASG, drainScaleTerminate,
      drainContainerInstances, updateECSService, updateASG,
      terminateContainerInstances.
    behave; try behave_wrap; behave; done. }
  assert (Hloop : forall fuel cis maxToRemove start s,
             behaves P (fun _ => True)
               (batchLoop cp d fuel cis maxToRemove start s)).
  { clear fuel. intros fuel cis maxToRemove.
    induction fuel as [|fuel IH]; intros start s; cbn [batchLoop].
    - behave.
    - destruct (_ && _); [|apply behaves_ret].
      apply behaves_bind; [apply behaves_slice|intros batch].
      apply behaves_bind; [apply Hscale|intros s']. apply IH. }
  revert st. change (successOnlyOnFailure d (Run sortSlice cp d fuel)).
  unfold Run.
  apply successOnlyOnFailure_bind; [done|intros cis].
  apply successOnlyOnFailure_bind; [by apply behaves_out|intros _].
  apply successOnlyOnFailure_bind;
    [unfold ecsService; behave; done|intros s].
  apply successOnlyOnFailure_bind; [apply behaves_deref|intros original].
  destruct (_ =? 0);
    [apply successOnlyOnFailure_quiet; by apply behaves_fail|].
  apply successOnlyOnFailure_bind; [apply Hloop|intros _].
  apply successOnlyOnFailure_bind; [by apply behaves_out|intros _].
  destruct (InstanceFlip d) eqn:Hflip.
  - intros st.
    destruct (restoreTaskCount_log original st)
      as (new & Hst & Hlog).
    exists new. split; [done|]. intros Hin. split; [done|]. by apply Hlog.
  - apply successOnlyOnFailure_quiet. unfold updateASG. behave; done.
Qed.
End Counts.

(** ** The command *)

Section Command.
Variable sortSlice :
  (string -> string -> bool) -> list string ->
  list string * list (string * string).
Variable cp : ControlPlane.

(** X22.  [main] checks its arguments before it does anything else: with
    an empty service, cluster or group name, or a desired count that is
    not positive, it exits fatally without a single request.  Otherwise
    it runs the downscaler on the configuration made of the flags, task
    count detection being on unless disabled, and exits fatally exactly
    when [Run] returns an error, with that error. *)
Theorem main_checks_before_any_request f fuel st :
  (Main.service f = "" \/ Main.cluster f = "" \/ Main.asg f = "" \/
   Main.desiredCount f <= 0 ->
   exists msg,
     Main.main sortSlice cp f fuel st = (Main.Fatal msg, st) /\
     forall e, msg <> Main.RunError e) /\
  (Main.service f <> "" -> Main.cluster f <> "" -> Main.asg f <> "" ->
   0 < Main.desiredCount f ->
   TaskCountDetect (Main.configOf f) = negb (Main.disableTaskCount f) /\
   snd (Main.main sortSlice cp f fuel st)
   = snd (Run sortSlice cp (Main.configOf f) fuel st) /\
   (fst (Main.main sortSlice cp f fuel st) = Main.Returned <->
    fst (Run sortSlice cp (Main.configOf f) fuel st) = Ok tt) /\
   forall e,
     fst (Main.main sortSlice cp f fuel st) = Main.Fatal (Main.RunError e) <->
     fst (Run sortSlice cp (Main.configOf f) fuel st) = Err e).
Proof.
  unfold Main.main. split.
  - intros Hbad.
    destruct (decide (Main.service f = "")); [by eexists|].
    destruct (decide (Main.cluster f = "")); [by eexists|].
    destruct (decide (Main.asg f = "")); [by eexists|].
    destruct (Main.desiredCount f <=? 0) eqn:Hle; [by eexists|].
    apply Z.leb_gt in Hle. destruct Hbad as [?|[?|[?|?]]]; try done. lia.
  - intros Hs Hc Ha Hd.
    rewrite !decide_False by done.
    replace (Main.desiredCount f <=? 0) with false
      by (symmetry; apply Z.leb_gt; lia).
    split; [done|].
    destruct (Run sortSlice cp (Main.configOf f) fuel st)
      as [[[]|e| |] st']; simpl; split_and!; try done;
      intros e'; split; congruence.
Qed.

(** X23.  A run of the command that ends well has left at least one of
    the candidates it found running: the positive desired count that
    [main] insists on keeps the selector from returning them all. *)
Theorem main_never_drains_every_candidate f fuel st :
  Main.desiredCount f < 2 ^ 63 ->
  fst (Main.main sortSlice cp f fuel st) = Main.Returned ->
  exists cis st1 sel,
    findDrainableContainerInstances sortSlice cp (Main.configOf f) st
    = (Ok cis, st1) /\
    mergedCandidates sortSlice cp (Main.configOf f) st = (Ok sel, st1) /\
    (0 < length cis < length (allArns sel))%nat.
Proof.
  unfold Main.main. intros Hrange H.
  destruct (decide (Main.service f = "")); [done|].
  destruct (decide (Main.cluster f = "")); [done|].
  destruct (decide (Main.asg f = "")); [done|].
  destruct (Main.desiredCount f <=? 0) eqn:Hle; [done|].
  apply Z.leb_gt in Hle.
  unfold Run in H. rewrite bind_run in H.
  destruct (findDrainableContainerInstances sortSlice cp (Main.configOf f) st)
    as [[cis|e| |] st1] eqn:Hsel; try done.
  destruct (findDrainable_proper_prefix sortSlice cp (Main.configOf f)
              st cis st1) as (sel & Hm & _ & Hlen); [simpl; lia|done|].
  by exists cis, st1, sel.
Qed.
End Command.

(** ** Runs for the further properties *)

Lemma paginateStringArray_concat_witness :
  concat (paginateStringArray ["a"; "b"; "c"] 2) = ["a"; "b"; "c"].
Proof. apply (paginateStringArray_concat ["a"; "b"; "c"] 2). lia. Defined.

Lemma paginateStringArray_chunks_witness :
  length (paginateStringArray ["a"; "b"; "c"] 2) = 2%nat /\
  forall chunk,
    paginateStringArray ["a"; "b"; "c"] 2 !! 1%nat = Some chunk ->
    chunk = ["c"] /\ (0 < length chunk <= 2)%nat.
Proof.
  destruct (paginateStringArray_chunks ["a"; "b"; "c"] 2) as [Hlen Hchunk];
    [lia|].
  split; [exact Hlen|]. intros chunk H. exact (Hchunk 1%nat chunk H).
Defined.

(** The unfiltered listing of the example fleet when [b] is taken: six
    identifiers on two pages, four of them collected, two skipped. *)
Lemma listing_collects_the_unseen_witness :
  exists acc,
    fst (listUnseen (planeOf fleet) (keep 2) "" {["b"]} []) = Ok acc /\
    accArns acc = ["a"; "c"; "d"; "e"] /\
    NoDup (accArns acc) /\
    len (accArns acc) + accSkipped acc = 6.
Proof.
  set (run := listUnseen (planeOf fleet) (keep 2) "" {["b"]} []).
  set (acc := default {| accSeen := ∅; accArns := []; accSkipped := 0 |}
                (match fst run with Ok acc => Some acc | _ => None end)).
  destruct (listing_collects_the_unseen (planeOf fleet) (keep 2) ""
              {["b"]} [] acc (snd run))
    as (Hnd & _ & Hcount).
  - by vm_compute.
  - by vm_compute.
  - exists acc. split_and!; [by vm_compute|by vm_compute|exact Hnd|].
    exact Hcount.
Defined.


Lemma terminate_all_then_wait_witness :
  snd (terminateContainerInstances (planeOf fleet)
         (map containerInstanceOf ["b"; "c"]) [])
  = [EvCall (TerminateInstanceInAutoScalingGroup (Some "i-b") false);
     EvCall (TerminateInstanceInAutoScalingGroup (Some "i-c") false);
     EvCall (WaitUntilInstanceTerminated [Some "i-b"; Some "i-c"])].
Proof.
  apply (terminate_all_then_wait (planeOf fleet)
           (map containerInstanceOf ["b"; "c"]) []).
  reflexivity.
Defined.

(** Three instances to terminate when the group refuses the second: the
    third is not asked for and nothing is waited for. *)
Lemma terminate_stops_at_first_refusal_witness :
  let cp := refusingToTerminate "i-c" (planeOf fleet) in
  let cis := map containerInstanceOf ["b"; "c"; "e"] in
  (exists k ci msg,
     cis !! k = Some ci /\
     cpTerminateInstance cp ([] ++ terminationsOf (take k cis))
       (Ec2InstanceId ci) false = Some msg /\
     ErrAPI "ScalingActivityInProgress" = ErrAPI msg /\
     snd (terminateContainerInstances cp cis [])
     = [] ++ terminationsOf (take (S k) cis)) \/
  (exists msg,
     cpWaitUntilInstanceTerminated cp ([] ++ terminationsOf cis)
       (map Ec2InstanceId cis) = Some msg /\
     ErrAPI "ScalingActivityInProgress" = ErrAPI msg /\
     snd (terminateContainerInstances cp cis [])
     = [] ++ terminationsOf cis
          ++ [EvCall (WaitUntilInstanceTerminated (map Ec2InstanceId cis))]).
Proof.
  cbv zeta.
  apply (terminate_stops_at_first_refusal
           (refusingToTerminate "i-c" (planeOf fleet))
           (map containerInstanceOf ["b"; "c"; "e"]) []).
  reflexivity.
Defined.

Lemma ScaleDown_terminates_what_it_drained_witness :
  exists before drained between,
    snd (ScaleDown (planeOf fleet) (keep 3) {| SvcDesiredCount := Some 5 |}
           ["b"] [])
    = [] ++ before
         ++ [EvCall (UpdateContainerInstancesState "prod" ["b"] "DRAINING")]
         ++ between
         ++ terminationsOf drained
         ++ [EvCall (WaitUntilInstanceTerminated
                       (map Ec2InstanceId drained))] /\
    Forall (fun ev => ~ isTermination ev) between.
Proof.
  set (run := ScaleDown (planeOf fleet) (keep 3)
                {| SvcDesiredCount := Some 5 |} ["b"] []).
  destruct (ScaleDown_terminates_what_it_drained (planeOf fleet) (keep 3)
              {| SvcDesiredCount := Some 5 |} ["b"] []
              {| SvcDesiredCount := Some 4 |} (snd run))
    as (before & drained & between & _ & Hst & _ & Hbetween).
  - reflexivity.
  - by exists before, drained, between.
Defined.

(** The last task of the service: the batch is drained and terminated,
    and neither the service nor the group is touched. *)
Lemma ScaleDown_to_zero_skips_scaling_witness :
  exists new,
    snd (ScaleDown (planeOf (fleetRunning 1 5)) (keep 3)
           {| SvcDesiredCount := Some 1 |} ["b"] [])
    = [] ++ new /\
    Forall (fun ev => ~ isScaling ev) new /\
    drainRequests new = [["b"]].
Proof.
  destruct (ScaleDown_to_zero_skips_scaling (planeOf (fleetRunning 1 5))
              (keep 3) {| SvcDesiredCount := Some 1 |} ["b"] [] 1)
    as (new & Hst & Hquiet & Hok).
  - reflexivity.
  - by vm_compute.
  - exists new. split_and!; [done|done|].
    by destruct (Hok {| SvcDesiredCount := Some 1 |} eq_refl).
Defined.

Lemma ScaleDown_needs_the_group_witness :
  ScaleDown (withoutGroup (planeOf fleet)) (keep 3)
    {| SvcDesiredCount := Some 5 |} ["b"] []
  = (Err ErrNoASG, [] ++ [EvCall (DescribeAutoScalingGroups ["prod-asg"])]).
Proof.
  destruct (ScaleDown_needs_the_group (withoutGroup (planeOf fleet)) (keep 3)
              {| SvcDesiredCount := Some 5 |} ["b"] [] 5)
    as [_ Hnone]; [reflexivity|reflexivity|].
  apply Hnone. reflexivity.
Defined.

Lemma ScaleDown_lowers_counts_by_the_batch_witness :
  exists new,
    snd (ScaleDown (planeOf fleet) (keep 3) {| SvcDesiredCount := Some 5 |}
           ["b"] [])
    = [] ++ new /\
    EvCall (UpdateService "prod" "web" false 4) ∈ new.
Proof.
  destruct (ScaleDown_lowers_counts_by_the_batch (planeOf fleet) (keep 3)
              {| SvcDesiredCount := Some 5 |} ["b"] [] 5)
    as (new & Hst & _ & Hupdate); [reflexivity|].
  exists new. split; [done|].
  apply (Hupdate {| SvcDesiredCount := Some 4 |}); [reflexivity|].
  by vm_compute.
Defined.

(** Two instances may go and three were selected: with batches of three
    the one batch of the loop drains all three. *)
Lemma batches_drain_a_prefix_witness :
  exists new n,
    snd (batchLoop (planeOf (fleetRunning 4 5)) (keepInBatchesOf 3 2) 5
           ["b"; "c"; "e"] 2 0 {| SvcDesiredCount := Some 4 |} [])
    = [] ++ new /\
    concat (drainRequests new) = take n ["b"; "c"; "e"] /\
    2 <= Z.of_nat n < 2 + 3.
Proof.
  set (run := batchLoop (planeOf (fleetRunning 4 5)) (keepInBatchesOf 3 2) 5
                ["b"; "c"; "e"] 2 0 {| SvcDesiredCount := Some 4 |} []).
  destruct (batches_drain_a_prefix (planeOf (fleetRunning 4 5))
              (keepInBatchesOf 3 2) 5 ["b"; "c"; "e"] 2
              {| SvcDesiredCount := Some 4 |} []
              {| SvcDesiredCount := Some 1 |} (snd run))
    as (new & n & Hst & Hdrained & _ & Hn).
  - reflexivity.
  - by vm_compute.
  - by vm_compute.
  - by exists new, n.
Defined.

Lemma zero_batch_size_never_finishes_witness :
  fst (Run insertionSort (planeOf fleet) (keepInBatchesOf 0 3) 3 [])
  <> Ok tt /\
  exists new,
    drainRequests new = [[]; []; []].
Proof.
  set (cp := planeOf fleet). set (d := keepInBatchesOf 0 3).
  set (st1 := snd (findDrainableContainerInstances insertionSort cp d [])).
  set (st2 := snd (ecsService cp d (st1 ++ [EvOut (OutFound 2)]))).
  destruct (zero_batch_size_never_finishes insertionSort cp d 3 []
              ["b"; "c"] st1 {| SvcDesiredCount := Some 5 |} st2 5)
    as [Hnot Hunf].
  - reflexivity.
  - by vm_compute.
  - by vm_compute.
  - reflexivity.
  - by vm_compute.
  - split; [exact Hnot|].
    destruct Hunf as (new & _ & Hnew); [by vm_compute|].
    by exists new.
Defined.

Lemma negative_batch_size_panics_witness :
  fst (Run insertionSort (planeOf fleet) (keepInBatchesOf (-1) 3) 1 [])
  = Panic.
Proof.
  set (cp := planeOf fleet). set (d := keepInBatchesOf (-1) 3).
  set (st1 := snd (findDrainableContainerInstances insertionSort cp d [])).
  set (st2 := snd (ecsService cp d (st1 ++ [EvOut (OutFound 2)]))).
  rewrite (negative_batch_size_panics insertionSort cp d 0 []
             ["b"; "c"] st1 {| SvcDesiredCount := Some 5 |} st2 5).
  - reflexivity.
  - by vm_compute.
  - by vm_compute.
  - by vm_compute.
  - by vm_compute.
  - reflexivity.
  - by vm_compute.
Defined.

Lemma Run_terminates_witness :
  fst (Run insertionSort (planeOf fleet) (keep 3) 2 []) <> Unfinished.
Proof.
  apply (Run_terminates insertionSort (planeOf fleet) (keep 3) 2 []
           ["b"; "c"]
           (snd (findDrainableContainerInstances insertionSort
                   (planeOf fleet) (keep 3) []))).
  - reflexivity.
  - by vm_compute.
  - by vm_compute.
  - simpl. lia.
Defined.

(** The example fleet asked to keep five instances out of five: the
    selector finds too few, and nothing but reads has happened. *)
Lemma errors_of_the_checks_leave_the_fleet_untouched_witness :
  fst (Run insertionSort (planeOf fleet) (keep 5) 5 [])
  = Err (ErrInsufficient 5 5) /\
  exists new,
    snd (Run insertionSort (planeOf fleet) (keep 5) 5 []) = [] ++ new /\
    Forall observes new.
Proof.
  split; [by vm_compute|].
  apply (errors_of_the_checks_leave_the_fleet_untouched insertionSort
           (planeOf fleet) (keep 5) 5 [] (ErrInsufficient 5 5)).
  - by vm_compute.
  - simpl. tauto.
Defined.

Lemma selector_keeps_a_candidate_witness :
  exists sel,
    allArns sel = ["b"; "c"; "e"; "d"; "a"] /\
    ["b"; "c"; "e"] = take 3 (allArns sel).
Proof.
  destruct (selector_keeps_a_candidate insertionSort (planeOf fleet) (keep 2)
              [] ["b"; "c"; "e"]
              (snd (findDrainableContainerInstances insertionSort
                      (planeOf fleet) (keep 2) [])))
    as (sel & Hm & Hout & _).
  - simpl. lia.
  - by vm_compute.
  - exists sel. split; [|exact Hout].
    assert (Hsel : fst (mergedCandidates insertionSort (planeOf fleet)
                          (keep 2) []) = Ok sel) by (by rewrite Hm).
    vm_compute in Hsel. by injection Hsel as <-.
Defined.

Lemma main_checks_before_any_request_witness :
  (exists msg,
     Main.main insertionSort (planeOf fleet) (flagsToKeep 0) 5 []
     = (Main.Fatal msg, [])) /\
  fst (Main.main insertionSort (planeOf fleet) (flagsToKeep 3) 5 [])
  = Main.Returned.
Proof.
  split.
  - destruct (main_checks_before_any_request insertionSort (planeOf fleet)
                (flagsToKeep 0) 5 []) as [Hbad _].
    destruct Hbad as (msg & Hmain & _); [right; right; right; simpl; lia|].
    by exists msg.
  - destruct (main_checks_before_any_request insertionSort (planeOf fleet)
                (flagsToKeep 3) 5 []) as [_ Hgood].
    destruct Hgood as (_ & _ & Hreturned & _);
      [done|done|done|simpl; lia|].
    apply Hreturned. by vm_compute.
Defined.

Lemma main_never_drains_every_candidate_witness :
  exists cis st1 sel,
    findDrainableContainerInstances insertionSort (planeOf fleet)
      (Main.configOf (flagsToKeep 3)) []
    = (Ok cis, st1) /\
    (0 < length cis < length (allArns sel))%nat.
Proof.
  destruct (main_never_drains_every_candidate insertionSort (planeOf fleet)
              (flagsToKeep 3) 5 [])
    as (cis & st1 & sel & Hsel & _ & Hlen).
  - simpl. lia.
  - by vm_compute.
  - by exists cis, st1, sel.
Defined.

(** A batch whose drain is refused: the refusal is the result and the
    drain request the last event. *)
Lemma ScaleDown_drains_first_witness :
  exists before,
    ScaleDown (refusingToDrain (planeOf fleet)) (keep 3)
      {| SvcDesiredCount := Some 5 |} ["b"] []
    = (Err (ErrAPI "ServerException"),
       [] ++ before
          ++ [EvCall (UpdateContainerInstancesState "prod" ["b"]
                        "DRAINING")]) /\
    Forall observes before.
Proof.
  set (cp := refusingToDrain (planeOf fleet)).
  destruct (ScaleDown_drains_first cp (keep 3)
              {| SvcDesiredCount := Some 5 |} ["b"] [])
    as (before & after & Hst & Hbefore & [[-> Hnot]|(rest & -> & Hrefused)]).
  - exfalso.
    assert (Hlen : length (snd (ScaleDown cp (keep 3)
                                  {| SvcDesiredCount := Some 5 |} ["b"] []))
                   = length before)
      by (rewrite Hst, app_nil_r; reflexivity).
    assert (Hcall : EvCall (UpdateContainerInstancesState "prod" ["b"]
                              "DRAINING") ∈ before).
    { assert (Hin : EvCall (UpdateContainerInstancesState "prod" ["b"]
                              "DRAINING")
                    ∈ snd (ScaleDown cp (keep 3)
                             {| SvcDesiredCount := Some 5 |} ["b"] []))
        by (apply (bool_decide_unpack _); by vm_compute).
      by rewrite Hst, app_nil_r in Hin. }
    rewrite Forall_forall in Hbefore.
    by specialize (Hbefore _ Hcall _ eq_refl).
  - destruct (Hrefused "ServerException") as [-> Hfst]; [reflexivity|].
    exists before. split; [|done].
    destruct (ScaleDown cp (keep 3) {| SvcDesiredCount := Some 5 |} ["b"] [])
      as [r st]. simpl in *. by subst.
Defined.

Lemma restore_logs_success_exactly_on_failure_witness :
  exists new,
    snd (restoreTaskCount (planeOf fleetNoWayBack) (keepFlipping 4) 5 [])
    = [] ++ new /\
    EvOut LogSuccess ∈ new.
Proof.
  destruct (restore_logs_success_exactly_on_failure (planeOf fleetNoWayBack)
              (keepFlipping 4) 5 []) as (new & Hst & Hlog).
  exists new. split; [done|]. apply Hlog. by eexists.
Defined.

Lemma success_is_never_logged_by_a_successful_run_witness :
  exists new,
    snd (Run insertionSort (planeOf fleet) (keepFlipping 4) 5 []) = [] ++ new /\
    EvOut LogSuccess ∉ new.
Proof.
  destruct (success_is_never_logged_by_a_successful_run insertionSort
              (planeOf fleet) (keepFlipping 4) 5 []) as (new & Hst & Hlog).
  exists new. split; [done|]. intros Hin.
  destruct (Hlog Hin) as (_ & e & He). by vm_compute in He.
Defined.
